(** * XLA GPU runtime and tuning layer: autotune selection, host-transfer
      asyncifier, thunk metadata and the per-device mutex registry.

    Shallow embedding of
      - xla/service/gpu/stream_executor_util.cc  (PickBestResult, GetGpuMutex)
      - xla/service/host_memory_transfer_asyncifier.cc
      - xla/service/gpu/thunk.h                  (Thunk base class)            *)

From Stdlib Require Import Ascii String ZArith Lia.
From stdpp Require Import base option list sorting strings gmap.

Local Open Scope Z_scope.
Set Warnings "-register-all".

(** ** Status values shared by the embedded code *)

Inductive StatusCode := kInternal | kInvalidArgument | kUnknownCode.

Record Status := MkStatus { code : StatusCode; message : string }.

(** [xla::InternalError("%s", msg)] and [InternalErrorStrCat(...)]: an
    internal-class status carrying the formatted text. *)
Definition InternalError (msg : string) : Status := MkStatus kInternal msg.

(** The three ways a call can end: a value, a returned non-OK [Status], or a
    run that leaves the defined behaviour of the program (a failed CHECK, a
    dereferenced end iterator). *)
Inductive Outcome (A : Type) :=
| Ok (a : A)
| Err (s : Status)
| Crash.
Arguments Ok {A} a.
Arguments Err {A} s.
Arguments Crash {A}.

Definition newline : string := String "010"%char EmptyString.

(** [m] occurs in [s] as a contiguous piece. *)
Definition is_substring (m s : string) : Prop :=
  ∃ before after, s = before +:+ m +:+ after.

(** ** Algorithms of the C++ standard library used by the selector *)

(** [std::sort]: the result is a permutation of the input in which no later
    element compares less than an earlier one.  The relative order of
    equivalent elements is not fixed by the standard, so the selector is
    stated for every implementation of this interface. *)
Class StdSort := {
  c_sort : ∀ {A : Type}, (A → A → bool) → list A → list A;
  c_sort_Permutation :
    ∀ (A : Type) (less : A → A → bool) (l : list A), c_sort less l ≡ₚ l;
  c_sort_StronglySorted :
    ∀ (A : Type) (less : A → A → bool) (l : list A),
      (∀ a b, less a b = true → less b a = false) →
      (∀ a b c, less b a = false → less c b = false → less c a = false) →
      StronglySorted (λ a b, less b a = false) (c_sort less l)
}.

(** [std::find_if], as the position of the first match ([length l] plays the
    end iterator). *)
Fixpoint c_find_if {A : Type} (p : A → bool) (l : list A) : nat :=
  match l with
  | [] => O
  | x :: l' => if p x then O else S (c_find_if p l')
  end.

(** [std::copy_if] into a [back_inserter]. *)
Fixpoint c_copy_if {A : Type} (p : A → bool) (l : list A) : list A :=
  match l with
  | [] => []
  | x :: l' => if p x then x :: c_copy_if p l' else c_copy_if p l'
  end.

(** [std::min_element]: the running smallest is replaced only by a strictly
    smaller element; the end iterator ([None]) on an empty range. *)
Definition c_min_element {A : Type} (less : A → A → bool) (l : list A)
  : option A :=
  match l with
  | [] => None
  | first :: rest =>
      Some (fold_left (λ smallest x, if less x smallest then x else smallest)
                      rest first)
  end.

Module StreamExecutorUtil.

(** *** Autotune results (autotuning.proto, through its accessors) *)

Inductive FailureKind := UNKNOWN | REDZONE_MODIFIED | WRONG_RESULT | DISQUALIFIED.

Global Instance FailureKind_eq_dec : EqDecision FailureKind.
Proof. solve_decision. Defined.

Record FailureResult := MkFailure { kind : FailureKind; msg : string }.

(** google.protobuf.Duration *)
Record DurationProto := MkDuration { seconds : Z; nanos : Z }.

(** [absl::Duration], counted in nanoseconds. *)
Definition Duration := Z.
Definition Microseconds (n : Z) : Duration := 1000 * n.

Definition FromDurationProto (d : DurationProto) : Duration :=
  seconds d * 1000000000 + nanos d.

Record AutotuneResult := MkAutotuneResult {
  algorithm : Z;                       (* the measured variant *)
  run_time : DurationProto;
  scratch_bytes : Z;
  opt_failure : option FailureResult   (* has_failure() / failure() *)
}.

Definition has_failure (r : AutotuneResult) : bool :=
  match opt_failure r with Some _ => true | None => false end.

(** [failure()] of a message without one is the default instance. *)
Definition failure (r : AutotuneResult) : FailureResult :=
  match opt_failure r with Some f => f | None => MkFailure UNKNOWN "" end.

Record HloModuleConfig := MkConfig { xla_gpu_deterministic_ops : bool }.

(** [require_cudnn_determinism] is the function-local static initialised
    once from TF_CUDNN_DETERMINISTIC; it is an input of the model. *)
Definition RequireDeterminism (require_cudnn_determinism : bool)
    (config : HloModuleConfig) : bool :=
  require_cudnn_determinism || xla_gpu_deterministic_ops config.

Definition keep_result (r : AutotuneResult) : bool :=
  negb (has_failure r) || bool_decide (kind (failure r) = WRONG_RESULT).

Definition KeepNonFailures (profile_results : list AutotuneResult)
  : list AutotuneResult :=
  c_copy_if keep_result profile_results.

(** One pass of the loop [msg << "\n  " << result.failure().msg()]. *)
Definition append_failure (acc : string) (result : AutotuneResult) : string :=
  acc +:+ newline +:+ "  " +:+ msg (failure result).

Definition AllAlgorithmsFailedInternalError (instr_str : option string)
    (profile_results : list AutotuneResult) : Status :=
  let header :=
    match instr_str with
    | Some s => "All algorithms tried for " +:+ s +:+
        " failed. Falling back to default algorithm.  Per-algorithm errors:"
    | None => "All algorithms failed. Falling back to the default algorithm. "
        +:+ "Per-algorithm errors:"
    end in
  InternalError (fold_left append_failure profile_results header).

Definition NoAlgorithmSuppliedInternalError (instr_str : option string)
  : Status :=
  InternalError
    match instr_str with
    | Some s => "The are no algorithm candiates for computing: " +:+ newline
        +:+ "  " +:+ s +:+ newline +:+
        "This likely means that the instruction shape is not supported by "
        +:+ "the target GPU library."
    | None => "The are no algorithm candiates for computing the instruction."
        +:+ newline +:+
        "This likely means that the instruction shape is not supported by "
        +:+ "the target GPU library."
    end.

Definition run_time_less (lhs rhs : AutotuneResult) : bool :=
  bool_decide (FromDurationProto (run_time lhs) < FromDurationProto (run_time rhs)).

Definition scratch_bytes_less (lhs rhs : AutotuneResult) : bool :=
  bool_decide (scratch_bytes lhs < scratch_bytes rhs).

Definition SortAutotuningResultsByRunTime `{StdSort}
    (results : list AutotuneResult) : list AutotuneResult :=
  c_sort run_time_less results.

Definition kMeasurementError : Duration := Microseconds 2.

(** [None] stands for [front()] of an empty vector. *)
Definition TopResultsWithinMeasurementError
    (results_sorted_by_runtime : list AutotuneResult)
  : option (list AutotuneResult) :=
  match results_sorted_by_runtime with
  | [] => None
  | front :: _ =>
      let min_time := FromDurationProto (run_time front) in
      let limit_time := min_time + kMeasurementError in
      let limit_time_it :=
        c_find_if (λ x, bool_decide (FromDurationProto (run_time x) > limit_time))
                  results_sorted_by_runtime in
      Some (take limit_time_it results_sorted_by_runtime)
  end.

Definition PickBestResult `{StdSort} (require_cudnn_determinism : bool)
    (profile_results : list AutotuneResult) (instr_str : option string)
    (hlo_module_config : HloModuleConfig) : Outcome AutotuneResult :=
  match profile_results with
  | [] => Err (NoAlgorithmSuppliedInternalError instr_str)
  | _ :: _ =>
      let filtered_results := KeepNonFailures profile_results in
      match filtered_results with
      | [] => Err (AllAlgorithmsFailedInternalError instr_str profile_results)
      | first :: _ =>
          if RequireDeterminism require_cudnn_determinism hlo_module_config
          then Ok first
          else
            let filtered_results :=
              SortAutotuningResultsByRunTime filtered_results in
            match TopResultsWithinMeasurementError filtered_results with
            | None => Crash
            | Some top_within_error =>
                match c_min_element scratch_bytes_less top_within_error with
                | None => Crash
                | Some best => Ok best
                end
            end
      end
  end.

(** *** The per-device mutex registry *)

Record StreamExecutor := MkStreamExecutor {
  platform : Z;          (* the se::Platform* singleton *)
  device_ordinal : Z
}.

(** A mutex is known by the address of the map node that holds it;
    [std::map] never moves a node. *)
Definition MutexRef := nat.

(** The function-local static [mutexes] together with the nodes allocated
    for it so far ([next_node] is the first address not handed out). *)
Record Registry := MkRegistry {
  mutexes : gmap (Z * Z) MutexRef;
  next_node : MutexRef
}.

Definition empty_registry : Registry := MkRegistry ∅ O.

(** [std::map::emplace]: the iterator to the entry that holds the key, a
    new one only when the key is absent. *)
Definition emplace (key : Z * Z) (reg : Registry) : MutexRef * Registry :=
  match mutexes reg !! key with
  | Some it => (it, reg)
  | None =>
      (next_node reg,
       MkRegistry (<[key := next_node reg]> (mutexes reg)) (S (next_node reg)))
  end.

(** The body runs under [global_lock], so calls are atomic steps on the
    registry. *)
Definition GetGpuMutex (stream_exec : StreamExecutor) (reg : Registry)
  : MutexRef * Registry :=
  emplace (platform stream_exec, device_ordinal stream_exec) reg.

(** The registry after a series of calls. *)
Definition after_calls (calls : list StreamExecutor) (reg : Registry)
  : Registry :=
  fold_left (λ r stream_exec, (GetGpuMutex stream_exec r).2) calls reg.

End StreamExecutorUtil.

(** ** thunk.h: the Thunk base class *)

Module Thunk.

Inductive Kind :=
| kCholesky | kConditional | kConvolution | kConvolutionReorder | kCopy
| kCommandBuffer | kCubSort | kCublasLtMatmul | kCustomCall | kCustomKernel
| kFft | kFor | kGemm | kInfeed | kKernel | kMemset32BitValue | kMemzero
| kNcclAllGather | kNcclAllGatherStart | kNcclAllGatherDone
| kNcclAllReduce | kNcclAllReduceStart | kNcclAllReduceDone
| kNcclCollectivePermute | kNcclCollectivePermuteStart
| kNcclCollectivePermuteDone
| kNcclReduceScatter | kNcclReduceScatterStart | kNcclReduceScatterDone
| kNcclAllToAll | kNcclAllToAllStart | kNcclAllToAllDone
| kNcclSend | kNcclRecv | kNorm | kOutfeed | kPartitionId | kRecv | kRecvDone
| kReplicaId | kSequential | kSend | kSendDone | kTriangularSolve | kWhile
| kFusedMHA.

(** [mlir::Operation*]; [None] is [nullptr]. *)
Definition OperationPtr := option Z.

Record ThunkInfo := MkThunkInfo {
  info_profile_annotation : string;
  info_op : OperationPtr
}.

Record Thunk := MkThunk {
  kind_ : Kind;
  profile_annotation_ : string;
  op_ : OperationPtr
}.

(** [Thunk(Kind kind, ThunkInfo thunk_info)] *)
Definition new_Thunk (kind : Kind) (thunk_info : ThunkInfo) : Thunk :=
  MkThunk kind (info_profile_annotation thunk_info) (info_op thunk_info).

Definition kind (t : Thunk) : Kind := kind_ t.
Definition profile_annotation (t : Thunk) : string := profile_annotation_ t.
Definition op (t : Thunk) : OperationPtr := op_ t.

Definition ClearCompileTimeInfo (t : Thunk) : Thunk :=
  MkThunk (kind_ t) (profile_annotation_ t) None.

Section Units.

(** The data members a derived class adds, the parameters of a call and the
    work issued on the streams are not in the sources at hand either. *)
Variable Members ExecuteParams Work : Type.

(** Modelled from the spec: the classes derived from [Thunk] are not in the
    sources at hand; thunk.h declares [ExecuteOnStream] pure virtual and
    [ClearCompileTimeInfo] virtual, and keeps the members of [Thunk]
    private.  An execution unit is "a closed-kind tagged value with a
    human-readable profile annotation and an optional reference to its
    originating program node (valid only until compile-time info is
    cleared)"; "composite units (grouping, conditional, loop) own nested
    ExecutionSequences". *)
Inductive ExecutionUnit :=
| MkUnit (base : Thunk) (members : Members)
         (nested : list (list ExecutionUnit)).

Definition base (unit : ExecutionUnit) : Thunk :=
  match unit with MkUnit base _ _ => base end.

Definition members (unit : ExecutionUnit) : Members :=
  match unit with MkUnit _ members _ => members end.

Definition nested (unit : ExecutionUnit) : list (list ExecutionUnit) :=
  match unit with MkUnit _ _ nested => nested end.

(** Modelled from the spec: "per-kind behavior ... dispatched through an
    exhaustive match over the closed tag set"; a unit "owns no device
    resources directly; resources are supplied per call", and composite
    kinds "recurse Initialize/Execute into" their nested sequences "in the
    same order".  The reference to the operation is "compile-only" (thunk.h:
    "Only valid during compilation ... nullptr at runtime"), so the work
    does not depend on it.  [issue kind annotation members params
    nested_work] is the work a unit issues, given the work of its nested
    sequences. *)
Variable issue :
  Kind → string → Members → ExecuteParams → list (list Work) → list Work.

Fixpoint ExecuteOnStream (unit : ExecutionUnit) (params : ExecuteParams)
  : list Work :=
  match unit with
  | MkUnit base members nested =>
      issue (kind base) (profile_annotation base) members params
        (map (flat_map (λ unit, ExecuteOnStream unit params)) nested)
  end.

(** Modelled from the spec: an override of [ClearCompileTimeInfo] "only
    drops the compile-time reference"; [clears_nested kind] tells whether
    the override of that kind also clears the units of its nested
    sequences. *)
Variable clears_nested : Kind → bool.

Fixpoint ClearCompileTimeInfo_virtual (unit : ExecutionUnit) : ExecutionUnit :=
  match unit with
  | MkUnit base members nested =>
      MkUnit (ClearCompileTimeInfo base) members
             (if clears_nested (kind base)
              then map (map ClearCompileTimeInfo_virtual) nested
              else nested)
  end.

End Units.

End Thunk.

(** ** host_memory_transfer_asyncifier.cc *)

Module Asyncifier.

(** *** Shapes *)

Inductive PrimitiveType := PRED | S32 | U32 | F32 | BF16.

Record Layout := MkLayout { memory_space : Z }.

Inductive Shape :=
| ArrayShape (element_type : PrimitiveType) (dimensions : list Z)
             (opt_layout : option Layout)
| TupleShape (tuple_shapes : list Shape).

Definition kDefaultMemorySpace : Z := 0.

Definition has_layout (s : Shape) : bool :=
  match s with
  | ArrayShape _ _ (Some _) => true
  | _ => false
  end.

(** [shape.layout()]; [None] stands for the failed CHECK on a shape without
    layout. *)
Definition layout (s : Shape) : option Layout :=
  match s with
  | ArrayShape _ _ l => l
  | TupleShape _ => None
  end.

(** [ShapeUtil::MakeScalarShape]: rank 0 with the default layout. *)
Definition MakeScalarShape (t : PrimitiveType) : Shape :=
  ArrayShape t [] (Some (MkLayout kDefaultMemorySpace)).

Definition MakeTupleShape (shapes : list Shape) : Shape := TupleShape shapes.

(** *** Instructions and computations *)

Inductive HloOpcode :=
| kParameter | kConstant | kAdd | kTuple | kGetTupleElement
| kCopy | kCopyStart | kCopyDone
| kDynamicSlice | kDynamicUpdateSlice
| kAsyncStart | kAsyncDone.

Global Instance HloOpcode_eq_dec : EqDecision HloOpcode.
Proof. solve_decision. Defined.

(** [HloInstruction*]: the stable index of the instruction in the store of
    its computation. *)
Abbreviation InstrId := nat (only parsing).

Record HloInstruction := MkInstr {
  name : string;
  opcode : HloOpcode;
  shape : Shape;
  operands : list InstrId
}.

(** A computation owns its instructions in a store addressed by index; a
    removed instruction leaves an empty slot, so indices stay valid. *)
Record HloComputation := MkComputation {
  instructions : list (option HloInstruction);
  root_instruction : InstrId;
  IsFusionComputation : bool
}.

Record HloModule := MkModule { computations : list HloComputation }.

Definition instruction_at (c : HloComputation) (i : InstrId)
  : option HloInstruction :=
  mjoin (instructions c !! i).

(** The visitor object together with the computation it walks
    ([instr->parent()]). *)
Record VisitorState := MkVisitor {
  parent : HloComputation;
  changed_ : bool
}.

(** Code that mutates the graph and may return early with a [Status]: the
    state reached so far is kept in every case. *)
Definition M (A : Type) : Type := VisitorState → Outcome A * VisitorState.

Definition ret {A} (a : A) : M A := λ st, (Ok a, st).
Definition fail {A} (s : Status) : M A := λ st, (Err s, st).
Definition check_failed {A} : M A := λ st, (Crash, st).

Definition bind {A B} (m : M A) (k : A → M B) : M B :=
  λ st,
    match m st with
    | (Ok a, st') => k a st'
    | (Err s, st') => (Err s, st')
    | (Crash, st') => (Crash, st')
    end.

Global Instance M_ret : MRet M := @ret.
Global Instance M_bind : MBind M := λ A B k m, bind m k.

Definition OkStatus : M unit := ret tt.

(** An accessor that CHECK-fails when there is nothing to return. *)
Definition checked {A} (o : option A) : M A :=
  match o with
  | Some a => ret a
  | None => check_failed
  end.

Definition deref (i : InstrId) : M HloInstruction :=
  λ st, checked (instruction_at (parent st) i) st.

Definition mutable_operand (instr : HloInstruction) (n : nat) : M InstrId :=
  checked (operands instr !! n).

Definition memory_space_of (s : Shape) : M Z :=
  checked (memory_space <$> layout s).

Definition MarkAsChanged : M unit :=
  λ st, (Ok tt, MkVisitor (parent st) true).

(** *** Graph operations of HloComputation / HloInstruction *)

(** Modelled from the spec: [HloComputation::AddInstruction] is not in the
    sources at hand; the new node takes the next free index of the store. *)
Definition AddInstruction (instr : HloInstruction) : M InstrId :=
  λ st,
    let c := parent st in
    (Ok (length (instructions c)),
     MkVisitor (MkComputation (instructions c ++ [Some instr])
                              (root_instruction c) (IsFusionComputation c))
               (changed_ st)).

Definition replace_operand (old new : InstrId) (instr : HloInstruction)
  : HloInstruction :=
  MkInstr (name instr) (opcode instr) (shape instr)
          ((λ o, if decide (o = old) then new else o) <$> operands instr).

(** Modelled from the spec: [HloInstruction::ReplaceAllUsesWith] is not in
    the sources at hand; "redirect all consumers of the original instruction":
    every use as an operand, and the root of the computation. *)
Definition ReplaceAllUsesWith (old new : InstrId) : M unit :=
  λ st,
    let c := parent st in
    (Ok tt,
     MkVisitor (MkComputation
                  (fmap (M := option) (replace_operand old new) <$> instructions c)
                  (if decide (root_instruction c = old) then new
                   else root_instruction c)
                  (IsFusionComputation c))
               (changed_ st)).

(** Modelled from the spec: [HloComputation::RemoveInstruction] is not in
    the sources at hand; the slot of the instruction is emptied. *)
Definition RemoveInstruction (i : InstrId) : M unit :=
  λ st,
    let c := parent st in
    (Ok tt,
     MkVisitor (MkComputation (<[i := None]> (instructions c))
                              (root_instruction c) (IsFusionComputation c))
               (changed_ st)).

(** [HloInstruction::CreateCopyStart] and [HloInstruction::CreateUnary]. *)
Definition CreateCopyStart (s : Shape) (operand : InstrId) : HloInstruction :=
  MkInstr "copy-start" kCopyStart s [operand].

Definition CreateUnary (s : Shape) (oc : HloOpcode) (operand : InstrId)
  : HloInstruction :=
  MkInstr (match oc with kCopyDone => "copy-done" | _ => "unary" end)
          oc s [operand].

(** Modelled from the spec: [HloComputation::CreateAsyncInstructions] is not
    in the sources at hand.  "introduce a start operation that emits the
    original result shape plus any metadata and a paired done operation that
    consumes that bundle and yields the original instruction's shape;
    redirect all consumers of the original instruction to the done
    operation; remove the original instruction." *)
Definition CreateAsyncInstructions (instruction : InstrId)
    (context_shapes : list Shape) : M InstrId :=
  instr ← deref instruction;
  async_start ← AddInstruction
    (MkInstr "async-start" kAsyncStart
             (MakeTupleShape (shape instr :: context_shapes))
             (operands instr));
  async_done ← AddInstruction
    (MkInstr "async-done" kAsyncDone (shape instr) [async_start]);
  ReplaceAllUsesWith instruction async_done;;
  RemoveInstruction instruction;;
  ret async_done.

(** *** The visitor *)

Section Visitor.

Variable kHostMemorySpaceColor : Z.

Definition DefaultAction (hlo_instruction : InstrId) : M unit := OkStatus.

Definition HandleDynamicSlice (dynamic_slice : InstrId) : M unit :=
  ds ← deref dynamic_slice;
  dynamic_slice_operand ← mutable_operand ds 0;
  operand ← deref dynamic_slice_operand;
  if negb (has_layout (shape ds)) then
    fail (InternalError (name ds +:+ " does not have a layout."))
  else if negb (has_layout (shape operand)) then
    fail (InternalError (name ds +:+ "'s operand, " +:+ name operand +:+
                         ", does not have a layout."))
  else
    operand_space ← memory_space_of (shape operand);
    if negb (bool_decide (operand_space = kHostMemorySpaceColor)) then OkStatus
    else
      result_space ← memory_space_of (shape ds);
      if negb (bool_decide (result_space = kDefaultMemorySpace)) then OkStatus
      else
        let context_shape := MakeScalarShape U32 in
        let transfer_bytes_shape := MakeScalarShape S32 in
        async_done ← CreateAsyncInstructions dynamic_slice
                       [context_shape; transfer_bytes_shape];
        MarkAsChanged;;
        OkStatus.

Definition HandleDynamicUpdateSlice (dynamic_update_slice : InstrId)
  : M unit :=
  dus ← deref dynamic_update_slice;
  dynamic_update_slice_operand ← mutable_operand dus 0;
  dynamic_update_slice_update ← mutable_operand dus 1;
  operand ← deref dynamic_update_slice_operand;
  update ← deref dynamic_update_slice_update;
  if negb (has_layout (shape dus)) then
    fail (InternalError (name dus +:+ " does not have a layout."))
  else if negb (has_layout (shape operand)) then
    fail (InternalError (name dus +:+ "'s operand, " +:+ name operand +:+
                         ", does not have a layout."))
  else if negb (has_layout (shape update)) then
    fail (InternalError (name dus +:+ "'s update, " +:+ name update +:+
                         ", does not have a layout."))
  else
    update_space ← memory_space_of (shape update);
    if negb (bool_decide (update_space = kDefaultMemorySpace)) then OkStatus
    else
      result_space ← memory_space_of (shape dus);
      if negb (bool_decide (result_space = kHostMemorySpaceColor)) then OkStatus
      else
        operand_space ← memory_space_of (shape operand);
        if negb (bool_decide (operand_space = result_space)) then
          fail (InternalError
                  ("Unexpected that " +:+ name operand +:+
                   "'s memory space is not the same as the dynamic-update-slice."))
        else
          let context_shape := MakeScalarShape U32 in
          async_done ← CreateAsyncInstructions dynamic_update_slice
                         [context_shape];
          MarkAsChanged;;
          OkStatus.

Definition HandleCopy (copy : InstrId) : M unit :=
  copy_instr ← deref copy;
  operand_id ← mutable_operand copy_instr 0;
  operand ← deref operand_id;
  if negb (has_layout (shape operand)) then
    fail (InternalError (name operand +:+ " does not have a layout."))
  else if negb (has_layout (shape copy_instr)) then
    fail (InternalError (name copy_instr +:+ " does not have a layout."))
  else
    copy_src_memory_space ← memory_space_of (shape operand);
    copy_dst_memory_space ← memory_space_of (shape copy_instr);
    if negb
         (bool_decide (copy_src_memory_space = kHostMemorySpaceColor) &&
          bool_decide (copy_dst_memory_space = kDefaultMemorySpace)
          || bool_decide (copy_src_memory_space = kDefaultMemorySpace) &&
             bool_decide (copy_dst_memory_space = kHostMemorySpaceColor))
    then OkStatus
    else
      let context_shape := MakeScalarShape U32 in
      let instruction_shape_source := shape operand in
      let instruction_shape_destination := shape copy_instr in
      copy_start_to_device ← AddInstruction
        (CreateCopyStart
           (MakeTupleShape [instruction_shape_destination;
                            instruction_shape_source; context_shape])
           operand_id);
      copy_done_to_device ← AddInstruction
        (CreateUnary instruction_shape_destination kCopyDone
                     copy_start_to_device);
      ReplaceAllUsesWith copy copy_done_to_device;;
      MarkAsChanged;;
      OkStatus.

(** The dispatch of [DfsHloVisitorWithDefault]: the three overridden
    handlers, [DefaultAction] for every other opcode. *)
Definition Visit (i : InstrId) : M unit :=
  instr ← deref i;
  match opcode instr with
  | kDynamicSlice => HandleDynamicSlice i
  | kDynamicUpdateSlice => HandleDynamicUpdateSlice i
  | kCopy => HandleCopy i
  | _ => DefaultAction i
  end.

Fixpoint VisitAll (order : list InstrId) : M unit :=
  match order with
  | [] => OkStatus
  | i :: rest => Visit i;; VisitAll rest
  end.

(** The instructions a walk goes through: those in the store when the walk
    starts, operands before users (the store keeps definition order). *)
Definition visit_order (c : HloComputation) : list InstrId :=
  filter (λ i, is_Some (instruction_at c i)) (seq 0 (length (instructions c))).

(** Modelled from the spec: [HloComputation::Accept] is not in the sources
    at hand; "walks every instruction reachable from the program's
    non-composite computations, once", stopping at the first handler that
    does not return OK. *)
Definition Accept : M unit :=
  λ st, VisitAll (visit_order (parent st)) st.

(** The loop of [Run] over [module->MakeNonfusionComputations()]; each
    computation is left as its walk left it. *)
Fixpoint RunComputations (cs : list HloComputation) (changed : bool)
  : Outcome bool * list HloComputation :=
  match cs with
  | [] => (Ok changed, [])
  | c :: cs' =>
      if IsFusionComputation c then
        let '(r, cs'') := RunComputations cs' changed in (r, c :: cs'')
      else
        match Accept (MkVisitor c changed) with
        | (Ok _, st) =>
            let '(r, cs'') := RunComputations cs' (changed_ st) in
            (r, parent st :: cs'')
        | (Err s, st) => (Err s, parent st :: cs')
        | (Crash, st) => (Crash, parent st :: cs')
        end
  end.

Definition Run (module : HloModule) : Outcome bool * HloModule :=
  let '(r, cs) := RunComputations (computations module) false in
  (r, MkModule cs).

End Visitor.

End Asyncifier.

(** ** stream_executor_util.cc: convolution layouts *)

Global Instance Outcome_ret : MRet Outcome := @Ok.
Global Instance Outcome_bind : MBind Outcome :=
  λ A B k m, match m with Ok a => k a | Err s => Err s | Crash => Crash end.

Module ConvLayouts.

(** [se::dnn::DataLayout] and [se::dnn::FilterLayout]. *)
Inductive DataLayout :=
| kYXDepthBatch | kYXBatchDepth | kBatchYXDepth | kBatchDepthYX
| kBatchDepthYX4 | kBatchDepthYX32.

Inductive FilterLayout :=
| kOutputInputYX | kOutputYXInput | kOutputInputYX4 | kOutputInputYX32
| kOutputInputYX32_CudnnReordered | kInputYXOutput | kYXInputOutput.

Global Instance DataLayout_eq_dec : EqDecision DataLayout.
Proof. solve_decision. Defined.
Global Instance FilterLayout_eq_dec : EqDecision FilterLayout.
Proof. solve_decision. Defined.

Record ConvolutionDimensionNumbers := MkDnums {
  input_batch_dimension : Z;
  input_feature_dimension : Z;
  input_spatial_dimensions : list Z;
  kernel_input_feature_dimension : Z;
  kernel_output_feature_dimension : Z;
  kernel_spatial_dimensions : list Z;
  output_batch_dimension : Z;
  output_feature_dimension : Z;
  output_spatial_dimensions : list Z
}.

(** [absl::c_linear_search] *)
Definition c_linear_search (vals : list Z) (i : Z) : bool :=
  existsb (Z.eqb i) vals.

(** The loop of [FindMissingDnum] from counter [i], with [steps] iterations
    left before [i] reaches [vals.size()]. *)
Fixpoint FindMissingDnum_from (vals : list Z) (i : Z) (steps : nat) : Z :=
  match steps with
  | O => i
  | S steps' =>
      if negb (c_linear_search vals i) then i
      else FindMissingDnum_from vals (i + 1) steps'
  end.

Definition FindMissingDnum (vals : list Z) : Z :=
  FindMissingDnum_from vals 0 (length vals).

(** The loop of [FindVectorizedDim] from counter [i], with [steps]
    iterations left before [i] reaches [rank]. *)
Fixpoint FindVectorizedDim_from (d0 d1 : Z) (ds : list Z) (i : Z) (steps : nat)
  : option Z :=
  match steps with
  | O => None
  | S steps' =>
      if (i =? d0) || (i =? d1) || c_linear_search ds i
      then FindVectorizedDim_from d0 d1 ds (i + 1) steps'
      else Some i
  end.

Definition FindVectorizedDim (rank d0 d1 : Z) (ds : list Z) : option Z :=
  FindVectorizedDim_from d0 d1 ds 0 (Z.to_nat rank).

Section Layouts.

(** [xla::Layout] and the functions of layout_util.cc, shape_util.cc and the
    string helpers are not part of this file; the code is embedded over any
    implementation of them. *)
Variable Layout : Type.
Variable MakeLayoutFromMajorToMinor : list Z → Layout.
Variable LayoutEqual : Layout → Layout → bool.
Variable minor_to_major : Layout → list Z.
Variable DataLayoutString : DataLayout → string.
Variable FilterLayoutString : FilterLayout → string.
Variable ConvolutionDimensionNumbersToString :
  ConvolutionDimensionNumbers → string.
Variable LayoutHumanString : Layout → string.
Variable LayoutToString : Layout → string.
Variable DecimalString : Z → string.

(** [xla::Shape], as far as this file reads it. *)
Record Shape := MkShape {
  dimensions : list Z;
  layout : option Layout
}.

Variable HumanStringWithLayout : Shape → string.

Definition dimensions_size (s : Shape) : Z := Z.of_nat (length (dimensions s)).

Definition DataLayoutToXlaLayout (data_layout : DataLayout)
    (batch_dimension feature_dimension : Z) (spatial_dimensions : list Z)
  : Outcome Layout :=
  match data_layout with
  | kBatchDepthYX =>
      let layout := [batch_dimension; feature_dimension] ++ spatial_dimensions in
      Ok (MakeLayoutFromMajorToMinor layout)
  | kBatchDepthYX4 | kBatchDepthYX32 =>
      let layout := [batch_dimension; feature_dimension] ++ spatial_dimensions in
      let layout := layout ++ [FindMissingDnum layout] in
      Ok (MakeLayoutFromMajorToMinor layout)
  | kBatchYXDepth =>
      let layout :=
        [batch_dimension] ++ spatial_dimensions ++ [feature_dimension] in
      Ok (MakeLayoutFromMajorToMinor layout)
  | _ => Err (InternalError ("Invalid layout " +:+ DataLayoutString data_layout))
  end.

Definition StreamExecutorConvLayoutsToXlaLayouts
    (dnums : ConvolutionDimensionNumbers)
    (input : DataLayout) (filter : FilterLayout) (output : DataLayout)
  : Outcome (Layout * Layout * Layout) :=
  input_layout ← DataLayoutToXlaLayout input (input_batch_dimension dnums)
                   (input_feature_dimension dnums)
                   (input_spatial_dimensions dnums);
  output_layout ← DataLayoutToXlaLayout input (output_batch_dimension dnums)
                    (output_feature_dimension dnums)
                    (output_spatial_dimensions dnums);
  filter_layout ←
    match filter with
    | kOutputInputYX =>
        Ok ([kernel_output_feature_dimension dnums;
             kernel_input_feature_dimension dnums]
            ++ kernel_spatial_dimensions dnums)
    | kOutputInputYX4 =>
        let filter_layout :=
          [kernel_output_feature_dimension dnums;
           kernel_input_feature_dimension dnums]
          ++ kernel_spatial_dimensions dnums in
        Ok (filter_layout ++ [FindMissingDnum filter_layout])
    | kOutputYXInput =>
        Ok ([kernel_output_feature_dimension dnums]
            ++ kernel_spatial_dimensions dnums
            ++ [kernel_input_feature_dimension dnums])
    | _ =>
        Err (InternalError
               ("Invalid filter layout " +:+ FilterLayoutString filter +:+
                " for conv with dnums " +:+
                ConvolutionDimensionNumbersToString dnums +:+ ","))
    end;
  Ok (input_layout, MakeLayoutFromMajorToMinor filter_layout, output_layout).

(** [StatusOr::value()]: the program dies on a non-OK status. *)
Definition value {A} (r : Outcome A) : Outcome A :=
  match r with Ok a => Ok a | _ => Crash end.

(** [CHECK(cond)] *)
Definition CHECK (cond : bool) : Outcome unit :=
  if cond then Ok () else Crash.

(** An accessor whose failure is outside defined behaviour. *)
Definition got {A} (o : option A) : Outcome A :=
  match o with Some a => Ok a | None => Crash end.

(** [shape.dimensions(shape.layout().minor_to_major(0))] *)
Definition most_minor_dimension_size (s : Shape) (l : Layout) : Outcome Z :=
  index ← got (minor_to_major l !! 0%nat);
  if bool_decide (0 ≤ index) then got (dimensions s !! Z.to_nat index)
  else Crash.

Definition XlaConvShapesToStreamExecutorLayouts
    (dnums : ConvolutionDimensionNumbers) (input filter output : Shape)
  : Outcome (DataLayout * FilterLayout * DataLayout) :=
  input_l ← got (layout input);
  filter_l ← got (layout filter);
  output_l ← got (layout output);
  '(nchw_input, nchw_filter, nchw_output) ←
    value (StreamExecutorConvLayoutsToXlaLayouts
             dnums kBatchDepthYX kOutputInputYX kBatchDepthYX);
  '(nchw_vect_input, nchw_vect_filter, nchw_vect_output) ←
    value (StreamExecutorConvLayoutsToXlaLayouts
             dnums kBatchDepthYX4 kOutputInputYX4 kBatchDepthYX4);
  '(nhwc_input, nhwc_filter, nhwc_output) ←
    value (StreamExecutorConvLayoutsToXlaLayouts
             dnums kBatchYXDepth kOutputYXInput kBatchYXDepth);
  input_layout ←
    (if LayoutEqual input_l nchw_input then Ok kBatchDepthYX
     else if LayoutEqual input_l nchw_vect_input then
       vect_size ← most_minor_dimension_size input input_l;
       if bool_decide (vect_size = 4) then Ok kBatchDepthYX4
       else if bool_decide (vect_size = 32) then Ok kBatchDepthYX32
       else
         Err (InternalError
                ("Invalid input shape " +:+ HumanStringWithLayout input +:+
                 " for conv with dnums " +:+
                 ConvolutionDimensionNumbersToString dnums +:+
                 ".  Most-minor dim should be 4 or 32, but was " +:+
                 DecimalString vect_size +:+ "."))
     else if LayoutEqual input_l nhwc_input then Ok kBatchYXDepth
     else
       Err (InternalError
              ("Invalid input layout " +:+ LayoutHumanString input_l +:+
               " for conv with dnums " +:+
               ConvolutionDimensionNumbersToString dnums +:+
               "; expected one of (" +:+ LayoutToString nchw_input +:+ ", " +:+
               LayoutToString nchw_vect_input +:+ ", " +:+
               LayoutToString nhwc_input +:+ ")")));
  filter_layout ←
    (if LayoutEqual filter_l nchw_filter then Ok kOutputInputYX
     else if LayoutEqual filter_l nchw_vect_filter then
       vect_size ← most_minor_dimension_size filter filter_l;
       if bool_decide (vect_size = 4) then Ok kOutputInputYX4
       else if bool_decide (vect_size = 32) then Ok kOutputInputYX32
       else
         Err (InternalError
                ("Invalid filter shape " +:+ HumanStringWithLayout filter +:+
                 " for conv with dnums " +:+
                 ConvolutionDimensionNumbersToString dnums +:+
                 ".  Most-minor dim should be 4 or 32, but was " +:+
                 DecimalString vect_size +:+ "."))
     else if LayoutEqual filter_l nhwc_filter then Ok kOutputYXInput
     else
       Err (InternalError
              ("Invalid filter layout " +:+ LayoutHumanString filter_l +:+
               " for conv with dnums " +:+
               ConvolutionDimensionNumbersToString dnums +:+
               ", expected one of (" +:+ LayoutToString nchw_filter +:+ ", " +:+
               LayoutToString nchw_vect_filter +:+ ", " +:+
               LayoutToString nhwc_filter +:+ ")")));
  output_layout ←
    (if LayoutEqual output_l nchw_output then Ok kBatchDepthYX
     else if LayoutEqual output_l nchw_vect_output then
       vect_size ← most_minor_dimension_size output output_l;
       if bool_decide (vect_size = 4) then Ok kBatchDepthYX4
       else if bool_decide (vect_size = 32) then Ok kBatchDepthYX32
       else
         Err (InternalError
                ("Invalid output shape " +:+ HumanStringWithLayout output +:+
                 " for conv with dnums " +:+
                 ConvolutionDimensionNumbersToString dnums +:+
                 ".  Most-minor dim should be 4 or 32, but was " +:+
                 DecimalString vect_size +:+ "."))
     else if LayoutEqual output_l nhwc_output then Ok kBatchYXDepth
     else
       Err (InternalError
              ("Invalid output layout " +:+ LayoutHumanString output_l +:+
               " for conv with dnums " +:+
               ConvolutionDimensionNumbersToString dnums)));
  Ok (input_layout, filter_layout, output_layout).

Definition FindVectorizedFeatureDims (dnums : ConvolutionDimensionNumbers)
    (input filter output : Shape) : option Z * option Z * option Z :=
  (FindVectorizedDim (dimensions_size input) (input_batch_dimension dnums)
     (input_feature_dimension dnums) (input_spatial_dimensions dnums),
   FindVectorizedDim (dimensions_size filter)
     (kernel_input_feature_dimension dnums)
     (kernel_output_feature_dimension dnums)
     (kernel_spatial_dimensions dnums),
   FindVectorizedDim (dimensions_size output) (output_batch_dimension dnums)
     (output_feature_dimension dnums) (output_spatial_dimensions dnums)).

End Layouts.

End ConvLayouts.

(** ** stream_executor_util.cc: buffer initialisation *)

Module BufferInit.

(** [host_buffer->size()]: the static host buffer holds 10069 elements. *)
Definition host_buffer_size : Z := 10069.

(** One [stream->ThenMemcpy(&mem, host_buffer->data() + host_index, size)]:
    the destination as a byte offset from [buffer.opaque()], the source as
    an element index into the host buffer, the size in bytes. *)
Record Memcpy := MkMemcpy {
  dst_offset : Z;
  src_index : Z;
  num_bytes : Z
}.

(** [CHECK_LE(host_index, host_buffer->size())] compares an [int64_t] with a
    [size_t]: the signed value is converted to unsigned. *)
Definition CHECK_LE_unsigned (host_index size : Z) : bool :=
  bool_decide (host_index `mod` 2 ^ 64 ≤ size).

(** The [while (elements_left > 0)] loop; [None] when [fuel] iterations were
    not enough. *)
Fixpoint copy_loop (fuel : nat) (sizeof_T : Z)
    (current_addr elements_left host_index : Z) (stream : list Memcpy)
  : option (Outcome (list Memcpy * Z)) :=
  if bool_decide (elements_left > 0) then
    match fuel with
    | O => None
    | S fuel' =>
        if negb (CHECK_LE_unsigned host_index host_buffer_size) then Some Crash
        else
          let host_index :=
            if bool_decide (host_buffer_size = host_index) then 0
            else host_index in
          let elements_copied :=
            Z.min (host_buffer_size - host_index) elements_left in
          let mem := MkMemcpy current_addr host_index
                              (elements_copied * sizeof_T) in
          copy_loop fuel' sizeof_T
            (current_addr + elements_copied * sizeof_T)
            (elements_left - elements_copied)
            (host_index + elements_copied)
            (stream ++ [mem])
    end
  else Some (Ok (stream, host_index)).

(** The conversion of a [size_t] to [int64_t]. *)
Definition to_int64 (x : Z) : Z := (x + 2 ^ 63) `mod` 2 ^ 64 - 2 ^ 63.

(** [InitializeTypedBuffer<T>]: the copies enqueued on the stream and the
    new value of [*rng_state].  [sizeof_T] is [sizeof(T)], [buffer_size] is
    [buffer.size()]. *)
Definition InitializeTypedBuffer (sizeof_T buffer_size rng_state : Z)
  : option (Outcome (list Memcpy * Z)) :=
  if negb (bool_decide (0 = buffer_size `mod` sizeof_T)) then Some Crash
  else
    let elements_left := to_int64 (buffer_size `div` sizeof_T) in
    copy_loop (Z.to_nat elements_left) sizeof_T 0 elements_left rng_state [].

End BufferInit.

(** ** mlir_to_hlo.cc: dense attributes of StableHLO operations *)

Module MlirToHlo.

(** The operations that [ConvertStablehloDenseAttributes] tells apart; every
    other operation is [OtherOp]. *)
Inductive OpName :=
| BroadcastOp | DynamicSliceOp | FftOp | PadOp | ReverseOp | SliceOp
| TransposeOp | OtherOp.

Section Attributes.

(** [mlir::Attribute] belongs to MLIR; the code is embedded over any
    implementation of the four operations it uses:
    - [dyn_cast<DenseI64ArrayAttr>] followed by [asArrayRef],
    - [dyn_cast<DenseIntElementsAttr>] followed by [getValues<int64_t>],
    - [DenseIntElementsAttr::get] on the rank-1 tensor type of that many
      i64 elements,
    - [DenseI64ArrayAttr::get]. *)
Variable Attribute : Type.
Variable as_dense_i64_array : Attribute → option (list Z).
Variable as_dense_int_elements : Attribute → option (list Z).
Variable make_dense_int_elements : list Z → Attribute.
Variable make_dense_i64_array : list Z → Attribute.

Definition ArrayToElements (attr : Attribute) : Attribute :=
  match as_dense_i64_array attr with
  | Some array => make_dense_int_elements array
  | None => attr
  end.

Definition ElementsToArray (attr : Attribute) : Attribute :=
  match as_dense_int_elements attr with
  | Some elements => make_dense_i64_array elements
  | None => attr
  end.

(** An operation: its name, its attribute dictionary and the operations
    nested in its regions. *)
Inductive Operation :=
| MkOperation (op_name : OpName) (attrs : gmap string Attribute)
              (nested : list Operation).

(** [op->setAttr(name, convert(op->getAttr(name)))]; [getAttr] of a missing
    attribute is the null attribute, on which the casts in [convert] are not
    defined. *)
Definition convert_attr (convert : Attribute → Attribute) (name : string)
    (attrs : gmap string Attribute) : Outcome (gmap string Attribute) :=
  match attrs !! name with
  | Some attr => Ok (<[name := convert attr]> attrs)
  | None => Crash
  end.

Definition ConvertStablehloDenseAttributes (op_name : OpName)
    (attrs : gmap string Attribute) (convert : Attribute → Attribute)
  : Outcome (gmap string Attribute) :=
  match op_name with
  | BroadcastOp => convert_attr convert "broadcast_sizes" attrs
  | DynamicSliceOp => convert_attr convert "slice_sizes" attrs
  | FftOp => convert_attr convert "fft_length" attrs
  | PadOp =>
      attrs ← convert_attr convert "edge_padding_low" attrs;
      attrs ← convert_attr convert "edge_padding_high" attrs;
      convert_attr convert "interior_padding" attrs
  | ReverseOp => convert_attr convert "dimensions" attrs
  | SliceOp =>
      attrs ← convert_attr convert "start_indices" attrs;
      attrs ← convert_attr convert "limit_indices" attrs;
      convert_attr convert "strides" attrs
  | TransposeOp => convert_attr convert "permutation" attrs
  | OtherOp => Ok attrs
  end.

(** [module->walk(callback)]: the callback runs on every operation nested in
    the module, and on the module operation itself. *)
Fixpoint walk
    (callback : OpName → gmap string Attribute →
                Outcome (gmap string Attribute))
    (op : Operation) : Outcome Operation :=
  match op with
  | MkOperation op_name attrs nested =>
      nested ←
        (fix walk_all (ops : list Operation) : Outcome (list Operation) :=
           match ops with
           | [] => Ok []
           | op :: ops =>
               op ← walk callback op;
               ops ← walk_all ops;
               Ok (op :: ops)
           end) nested;
      attrs ← callback op_name attrs;
      Ok (MkOperation op_name attrs nested)
  end.

Definition DowngradeStablehlo (module : Operation) : Outcome Operation :=
  walk (λ op_name attrs,
          ConvertStablehloDenseAttributes op_name attrs ArrayToElements)
       module.

Definition UpgradeStablehlo (module : Operation) : Outcome Operation :=
  walk (λ op_name attrs,
          ConvertStablehloDenseAttributes op_name attrs ElementsToArray)
       module.

End Attributes.

End MlirToHlo.

(** * Vocabulary of the statements

    Names for what the statements below talk about, and the programs they
    are evaluated on. *)

Import StreamExecutorUtil Asyncifier.

Definition dur (r : AutotuneResult) : Duration := FromDurationProto (run_time r).

Definition not_greater {A} (less : A → A → bool) : relation A :=
  λ a b, less b a = false.

Global Instance not_greater_dec {A} (less : A → A → bool) :
  RelDecision (not_greater less).
Proof. intros a b. unfold not_greater. apply _. Defined.

(** A stable merge sort implements the [std::sort] interface. *)
Global Program Instance merge_StdSort : StdSort := {|
  c_sort A less := merge_sort (not_greater less)
|}.
Next Obligation. intros. apply merge_sort_Permutation. Qed.
Next Obligation.
  intros A less l Hasym Htrans.
  apply StronglySorted_merge_sort.
  - intros a b c Hab Hbc. by eapply Htrans.
  - intros a b. destruct (less b a) eqn:E; [right; by apply Hasym | by left].
Qed.

(** [std::min_element] returns the first of the least elements. *)
Definition first_least {A} (key : A → Z) (best : A) (l : list A) : Prop :=
  ∃ before after,
    l = before ++ best :: after ∧
    Forall (λ r, key best < key r) before ∧
    Forall (λ r, key best ≤ key r) after.

(** The candidates of the worked example. *)
Definition usec_proto (ns : Z) : DurationProto := MkDuration 0 ns.

Definition example_results : list AutotuneResult :=
  [ MkAutotuneResult 1 (usec_proto 10000) 100 None;
    MkAutotuneResult 2 (usec_proto 10500) 10 None;
    MkAutotuneResult 3 (usec_proto 11000) 5 None;
    MkAutotuneResult 4 (usec_proto 50000) 1 None ].

(** Candidates that all failed, none with WRONG_RESULT. *)
Definition all_failed_results : list AutotuneResult :=
  [ MkAutotuneResult 1 (usec_proto 10000) 0
      (Some (MkFailure DISQUALIFIED "unsupported"));
    MkAutotuneResult 2 (usec_proto 12000) 64
      (Some (MkFailure REDZONE_MODIFIED "redzone")) ].

(** The selection as the specification words it, on the kept entries in
    ascending run time. *)
Definition is_min_time (filtered : list AutotuneResult) (t : Duration) : Prop :=
  (∃ r, r ∈ filtered ∧ dur r = t) ∧ Forall (λ r, t ≤ dur r) filtered.

Definition within_window (min_time : Duration) (sorted : list AutotuneResult)
  : list AutotuneResult :=
  filter (λ r, dur r ≤ min_time + Microseconds 2) sorted.

Definition fails_otherwise (r : AutotuneResult) : Prop :=
  has_failure r = true ∧ kind (failure r) ≠ WRONG_RESULT.

(** [s] begins with [p]. *)
Definition starts_with (p s : string) : Prop := ∃ after, s = p +:+ after.

Definition device_key (e : StreamExecutor) : Z * Z :=
  (platform e, device_ordinal e).

(** What every registry built by calls satisfies: nodes handed out lie below
    [next_node], and no node is shared by two keys. *)
Record registry_ok (reg : Registry) : Prop := {
  nodes_allocated :
    ∀ key m, mutexes reg !! key = Some m → (m < next_node reg)%nat;
  nodes_distinct :
    ∀ k1 k2 m, mutexes reg !! k1 = Some m → mutexes reg !! k2 = Some m → k1 = k2
}.

Definition kHostMemorySpace : Z := 5.

(** The store after instruction [old] was given the pair [start], [done]:
    both are appended and every use of [old] reads [done]. *)
Definition with_async_pair (old : InstrId) (start finish : HloInstruction)
    (c : HloComputation) : HloComputation :=
  let n := length (instructions c) in
  MkComputation
    (fmap (M := option) (replace_operand old (S n)) <$>
       (instructions c ++ [Some start; Some finish]))
    (if decide (root_instruction c = old) then S n else root_instruction c)
    (IsFusionComputation c).

Definition without_instruction (i : InstrId) (c : HloComputation)
  : HloComputation :=
  MkComputation (<[i := None]> (instructions c)) (root_instruction c)
                (IsFusionComputation c).

Definition copy_start_of (copy_instr operand : HloInstruction)
    (operand_id : InstrId) : HloInstruction :=
  CreateCopyStart
    (MakeTupleShape [shape copy_instr; shape operand; MakeScalarShape U32])
    operand_id.

Definition copy_done_of (c : HloComputation) (copy_instr : HloInstruction)
  : HloInstruction :=
  CreateUnary (shape copy_instr) kCopyDone (length (instructions c)).

Definition copy_between_host_and_device (host src dst : Z) : bool :=
  bool_decide (src = host) && bool_decide (dst = kDefaultMemorySpace)
  || bool_decide (src = kDefaultMemorySpace) && bool_decide (dst = host).

Definition async_start_of (instr : HloInstruction) (context_shapes : list Shape)
  : HloInstruction :=
  MkInstr "async-start" kAsyncStart
          (MakeTupleShape (shape instr :: context_shapes)) (operands instr).

Definition async_done_of (c : HloComputation) (instr : HloInstruction)
  : HloInstruction :=
  MkInstr "async-done" kAsyncDone (shape instr) [length (instructions c)].

(** The computation after [CreateAsyncInstructions] replaced [i]. *)
Definition async_replaced (i : InstrId) (instr : HloInstruction)
    (context_shapes : list Shape) (c : HloComputation) : HloComputation :=
  without_instruction i
    (with_async_pair i (async_start_of instr context_shapes)
                     (async_done_of c instr) c).

Definition operand_at (c : HloComputation) (instr : HloInstruction) (k : nat)
  : option HloInstruction :=
  operands instr !! k ≫= instruction_at c.

(** The status reported for instruction [i] when its result or one of the
    operands its handler inspects has no layout. *)
Definition missing_layout (c : HloComputation) (i : InstrId) : option Status :=
  instr ← instruction_at c i;
  match opcode instr with
  | kDynamicSlice =>
      operand ← operand_at c instr 0;
      if negb (has_layout (shape instr)) then
        Some (InternalError (name instr +:+ " does not have a layout."))
      else if negb (has_layout (shape operand)) then
        Some (InternalError (name instr +:+ "'s operand, " +:+ name operand +:+
                             ", does not have a layout."))
      else None
  | kDynamicUpdateSlice =>
      operand ← operand_at c instr 0;
      update ← operand_at c instr 1;
      if negb (has_layout (shape instr)) then
        Some (InternalError (name instr +:+ " does not have a layout."))
      else if negb (has_layout (shape operand)) then
        Some (InternalError (name instr +:+ "'s operand, " +:+ name operand +:+
                             ", does not have a layout."))
      else if negb (has_layout (shape update)) then
        Some (InternalError (name instr +:+ "'s update, " +:+ name update +:+
                             ", does not have a layout."))
      else None
  | kCopy =>
      operand ← operand_at c instr 0;
      if negb (has_layout (shape operand)) then
        Some (InternalError (name operand +:+ " does not have a layout."))
      else if negb (has_layout (shape instr)) then
        Some (InternalError (name instr +:+ " does not have a layout."))
      else None
  | _ => None
  end.

(** The instructions whose layout the handler of [instr] checks: [instr]
    itself, its first operand and, for a dynamic-update-slice, its update
    operand. *)
Definition inspected (c : HloComputation) (instr node : HloInstruction)
  : Prop :=
  node = instr ∨ operand_at c instr 0 = Some node ∨
  (opcode instr = kDynamicUpdateSlice ∧ operand_at c instr 1 = Some node).

(** The status of a dynamic-update-slice into host memory whose first
    operand is in another memory space. *)
Definition operand_elsewhere (c : HloComputation) (i : InstrId) (e : Status)
  : Prop :=
  ∃ instr operand,
    instruction_at c i = Some instr ∧ opcode instr = kDynamicUpdateSlice ∧
    operand_at c instr 0 = Some operand ∧
    e = InternalError
          ("Unexpected that " +:+ name operand +:+
           "'s memory space is not the same as the dynamic-update-slice.").

Definition f32_in (space : Z) : Shape :=
  ArrayShape F32 [4] (Some (MkLayout space)).
Definition f32_no_layout : Shape := ArrayShape F32 [4] None.
Definition s32_scalar : Shape := MakeScalarShape S32.

(** p0 in host memory, copied to device memory, the copy used twice. *)
Definition copy_computation : HloComputation :=
  MkComputation
    [ Some (MkInstr "p0" kParameter (f32_in kHostMemorySpace) []);
      Some (MkInstr "copy" kCopy (f32_in kDefaultMemorySpace) [0%nat]);
      Some (MkInstr "add" kAdd (f32_in kDefaultMemorySpace) [1%nat; 1%nat]) ]
    2%nat false.

Definition copy_module : HloModule := MkModule [copy_computation].

Definition copy_computation_after : HloComputation :=
  MkComputation
    [ Some (MkInstr "p0" kParameter (f32_in kHostMemorySpace) []);
      Some (MkInstr "copy" kCopy (f32_in kDefaultMemorySpace) [0%nat]);
      Some (MkInstr "add" kAdd (f32_in kDefaultMemorySpace) [4%nat; 4%nat]);
      Some (MkInstr "copy-start" kCopyStart
              (TupleShape [f32_in kDefaultMemorySpace; f32_in kHostMemorySpace;
                           MakeScalarShape U32]) [0%nat]);
      Some (MkInstr "copy-done" kCopyDone (f32_in kDefaultMemorySpace) [3%nat]) ]
    2%nat false.

(** p0 in host memory copied into memory space 1, neither host nor device. *)
Definition other_space_computation : HloComputation :=
  MkComputation
    [ Some (MkInstr "p0" kParameter (f32_in kHostMemorySpace) []);
      Some (MkInstr "copy" kCopy (f32_in 1) [0%nat]) ]
    1%nat false.

(** x on the device is copied to host memory and then sliced by a
    dynamic-slice whose result has no layout. *)
Definition copy_then_bad_slice : HloComputation :=
  MkComputation
    [ Some (MkInstr "x" kParameter (f32_in kDefaultMemorySpace) []);
      Some (MkInstr "idx" kParameter s32_scalar []);
      Some (MkInstr "to_host" kCopy (f32_in kHostMemorySpace) [0%nat]);
      Some (MkInstr "slice" kDynamicSlice f32_no_layout [2%nat; 1%nat]) ]
    3%nat false.

(** A dynamic-slice from device memory (which the memory-space test would
    skip) whose result has no layout; its index operand has none either. *)
Definition skipped_slice_without_layout : HloComputation :=
  MkComputation
    [ Some (MkInstr "x" kParameter (f32_in kDefaultMemorySpace) []);
      Some (MkInstr "idx" kParameter (ArrayShape S32 [] None) []);
      Some (MkInstr "slice" kDynamicSlice f32_no_layout [0%nat; 1%nat]) ]
    2%nat false.

(** A dynamic-slice from host memory to device memory; its index operand has
    no layout. *)
Definition host_slice_computation : HloComputation :=
  MkComputation
    [ Some (MkInstr "x" kParameter (f32_in kHostMemorySpace) []);
      Some (MkInstr "idx" kParameter (ArrayShape S32 [] None) []);
      Some (MkInstr "slice" kDynamicSlice (f32_in kDefaultMemorySpace)
              [0%nat; 1%nat]);
      Some (MkInstr "add" kAdd (f32_in kDefaultMemorySpace) [2%nat; 2%nat]) ]
    3%nat false.

Definition arity_ok (instr : HloInstruction) : bool :=
  match opcode instr with
  | kCopy | kDynamicSlice => bool_decide (1 ≤ length (operands instr))%nat
  | kDynamicUpdateSlice => bool_decide (2 ≤ length (operands instr))%nat
  | _ => true
  end.

Definition present (c : HloComputation) (i : InstrId) : bool :=
  match instruction_at c i with Some _ => true | None => false end.

(** Every operand is an instruction of the computation, and the three
    handled opcodes have the operands their handlers read. *)
Definition well_formed (c : HloComputation) : bool :=
  forallb (λ slot,
             match slot with
             | None => true
             | Some instr => arity_ok instr && forallb (present c) (operands instr)
             end)
          (instructions c).

Definition well_formed_module (module : HloModule) : bool :=
  forallb well_formed (computations module).

(** The computation after a rewrite of [h]: the pair is added and, unless
    [keep], [h] is removed. *)
Definition rewritten (keep : bool) (h : InstrId) (start finish : HloInstruction)
    (c : HloComputation) : HloComputation :=
  if keep then with_async_pair h start finish c
  else without_instruction h (with_async_pair h start finish c).

(** What one visit can do to a well-formed computation. *)
Definition visit_effect (h : InstrId) (hi : HloInstruction)
    (st st' : VisitorState) : Prop :=
  st' = st ∨
  ∃ keep start finish,
    st' = MkVisitor (rewritten keep h start finish (parent st)) true ∧
    shape finish = shape hi ∧
    arity_ok start = true ∧ arity_ok finish = true ∧
    (∀ o, o ∈ operands start → present (parent st) o = true) ∧
    operands finish = [length (instructions (parent st))].

(** One of the dimension numbers [d0], [d1] and [ds]. *)
Definition is_dnum (d0 d1 : Z) (ds : list Z) (i : Z) : Prop :=
  i = d0 ∨ i = d1 ∨ i ∈ ds.

(** The data layouts with a vectorized feature dimension. *)
Definition is_vectorized (data_layout : ConvLayouts.DataLayout) : bool :=
  match data_layout with
  | ConvLayouts.kBatchDepthYX4 | ConvLayouts.kBatchDepthYX32 => true
  | _ => false
  end.

(** The data and filter layouts the conversion to XLA layouts handles. *)
Definition data_layout_handled (data_layout : ConvLayouts.DataLayout) : bool :=
  match data_layout with
  | ConvLayouts.kBatchDepthYX | ConvLayouts.kBatchDepthYX4
  | ConvLayouts.kBatchDepthYX32 | ConvLayouts.kBatchYXDepth => true
  | _ => false
  end.

Definition filter_layout_handled (filter : ConvLayouts.FilterLayout) : bool :=
  match filter with
  | ConvLayouts.kOutputInputYX | ConvLayouts.kOutputInputYX4
  | ConvLayouts.kOutputYXInput => true
  | _ => false
  end.

(** A feature dimension that is set apart from a non-empty list of spatial
    dimensions, as in every convolution with at least one spatial
    dimension. *)
Definition spatial_apart (feature : Z) (spatial : list Z) : Prop :=
  spatial ≠ [] ∧ feature ∉ spatial.

(** A two-dimensional NHWC convolution with an HWIO kernel. *)
Definition nhwc_dnums : ConvLayouts.ConvolutionDimensionNumbers :=
  ConvLayouts.MkDnums 0 3 [1; 2] 2 3 [0; 1] 0 3 [1; 2].

(** Device memory as the host element each device element was last filled
    from, and the effect of the enqueued copies on it. *)
Definition DeviceElements := Z → option Z.

Definition apply_memcpy (sizeof_T : Z) (dev : DeviceElements)
    (m : BufferInit.Memcpy) : DeviceElements :=
  let first := BufferInit.dst_offset m `div` sizeof_T in
  let count := BufferInit.num_bytes m `div` sizeof_T in
  λ j, if bool_decide (first ≤ j < first + count)
       then Some (BufferInit.src_index m + (j - first))
       else dev j.

Definition apply_memcpys (sizeof_T : Z) (copies : list BufferInit.Memcpy)
    (dev : DeviceElements) : DeviceElements :=
  fold_left (apply_memcpy sizeof_T) copies dev.

(** A copy that reads inside the host buffer and writes inside a device
    buffer of [buffer_size] bytes, on element boundaries. *)
Definition memcpy_in_bounds (sizeof_T buffer_size : Z) (m : BufferInit.Memcpy)
  : Prop :=
  0 < BufferInit.num_bytes m ∧
  BufferInit.num_bytes m `mod` sizeof_T = 0 ∧
  BufferInit.dst_offset m `mod` sizeof_T = 0 ∧
  0 ≤ BufferInit.dst_offset m ∧
  BufferInit.dst_offset m + BufferInit.num_bytes m ≤ buffer_size ∧
  0 ≤ BufferInit.src_index m ∧
  BufferInit.src_index m + BufferInit.num_bytes m `div` sizeof_T
  ≤ BufferInit.host_buffer_size.

(** What the loop does from a state with [left] elements to go. *)
Definition copies_from (sizeof_T cur left h : Z)
    (copies : list BufferInit.Memcpy) (h' : Z) : Prop :=
  let size := BufferInit.host_buffer_size in
  0 ≤ h' ≤ size ∧
  (left > 0 → 0 < h') ∧
  (left = 0 → h' = h ∧ copies = []) ∧
  h' `mod` size = (h + left) `mod` size ∧
  Forall (λ m, memcpy_in_bounds sizeof_T (cur + left * sizeof_T) m ∧
               cur ≤ BufferInit.dst_offset m) copies ∧
  ∀ dev j,
    apply_memcpys sizeof_T copies dev j =
      if bool_decide (cur `div` sizeof_T ≤ j < cur `div` sizeof_T + left)
      then Some ((h + (j - cur `div` sizeof_T)) `mod` size)
      else dev j.

(** What a visit of instruction [h] leaves behind, whatever the state of the
    computation: nothing, or the rewrite of [h], which keeps [h] only when
    it is a copy. *)
Definition visit_result (h : InstrId) (st : VisitorState) (o : Outcome unit)
    (st' : VisitorState) : Prop :=
  st' = st ∨
  ∃ keep start finish hi,
    instruction_at (parent st) h = Some hi ∧
    o = Ok () ∧
    st' = MkVisitor (rewritten keep h start finish (parent st)) true ∧
    shape finish = shape hi ∧
    (keep = true → opcode hi = kCopy) ∧
    (keep = false →
     opcode hi = kDynamicSlice ∨ opcode hi = kDynamicUpdateSlice).

(** The state moved on: unchanged, or flagged as changed with a longer
    instruction store. *)
Definition moved_on (st st' : VisitorState) : Prop :=
  st' = st ∨
  (changed_ st' = true ∧
   (length (instructions (parent st)) < length (instructions (parent st')))%nat).

(** Instruction [instr'] is [instr] up to the operands it reads. *)
Definition same_instruction (instr instr' : HloInstruction) : Prop :=
  name instr' = name instr ∧ opcode instr' = opcode instr ∧
  shape instr' = shape instr ∧
  length (operands instr') = length (operands instr).

(** Every instruction of [c] other than a dynamic-slice or a
    dynamic-update-slice is still in [c'], at the same index. *)
Definition instructions_kept (c c' : HloComputation) : Prop :=
  ∀ j instr,
    instruction_at c j = Some instr →
    opcode instr ≠ kDynamicSlice → opcode instr ≠ kDynamicUpdateSlice →
    ∃ instr', instruction_at c' j = Some instr' ∧ same_instruction instr instr'.

(** The shape of the root instruction. *)
Definition root_shape (c : HloComputation) : option Shape :=
  shape <$> instruction_at c (root_instruction c).

Definition root_shape_kept (c c' : HloComputation) : Prop :=
  is_Some (root_shape c) → root_shape c' = root_shape c.

(** The attributes that [ConvertStablehloDenseAttributes] converts on each
    operation. *)
Definition converted_names (op_name : MlirToHlo.OpName) : list string :=
  match op_name with
  | MlirToHlo.BroadcastOp => ["broadcast_sizes"]
  | MlirToHlo.DynamicSliceOp => ["slice_sizes"]
  | MlirToHlo.FftOp => ["fft_length"]
  | MlirToHlo.PadOp =>
      ["edge_padding_low"; "edge_padding_high"; "interior_padding"]
  | MlirToHlo.ReverseOp => ["dimensions"]
  | MlirToHlo.SliceOp => ["start_indices"; "limit_indices"; "strides"]
  | MlirToHlo.TransposeOp => ["permutation"]
  | MlirToHlo.OtherOp => []
  end.

(** The conversions of one operation, one attribute after the other. *)
Fixpoint convert_attrs {Attribute : Type} (convert : Attribute → Attribute)
    (names : list string) (attrs : gmap string Attribute)
  : Outcome (gmap string Attribute) :=
  match names with
  | [] => Ok attrs
  | name :: names =>
      attrs ← MlirToHlo.convert_attr Attribute convert name attrs;
      convert_attrs convert names attrs
  end.

(** The walk over a list of operations. *)
Fixpoint walk_list {Attribute : Type}
    (callback : MlirToHlo.OpName → gmap string Attribute →
                Outcome (gmap string Attribute))
    (ops : list (MlirToHlo.Operation Attribute))
  : Outcome (list (MlirToHlo.Operation Attribute)) :=
  match ops with
  | [] => Ok []
  | op :: ops =>
      op ← MlirToHlo.walk Attribute callback op;
      ops ← walk_list callback ops;
      Ok (op :: ops)
  end.

(** [P] holds of the name and attributes of an operation and of every
    operation nested in it. *)
Fixpoint all_operations {Attribute : Type}
    (P : MlirToHlo.OpName → gmap string Attribute → Prop)
    (op : MlirToHlo.Operation Attribute) : Prop :=
  match op with
  | MlirToHlo.MkOperation _ op_name attrs nested =>
      P op_name attrs ∧
      (fix all_nested (ops : list (MlirToHlo.Operation Attribute)) : Prop :=
         match ops with
         | [] => True
         | op :: ops => all_operations P op ∧ all_nested ops
         end) nested
  end.

(** Every converted attribute of the operation is present and satisfies
    [Q]. *)
Definition converted_attrs_are {Attribute : Type} (Q : Attribute → Prop)
    (op_name : MlirToHlo.OpName) (attrs : gmap string Attribute) : Prop :=
  ∀ name, name ∈ converted_names op_name →
          ∃ attr, attrs !! name = Some attr ∧ Q attr.

(** A concrete attribute type for running the conversions: arrays, rank-1
    i64 element tensors, and everything else. *)
Inductive SampleAttribute :=
| SampleArray (values : list Z)
| SampleElements (values : list Z)
| SampleOther (tag : Z).

Definition sample_as_array (a : SampleAttribute) : option (list Z) :=
  match a with SampleArray v => Some v | _ => None end.

Definition sample_as_elements (a : SampleAttribute) : option (list Z) :=
  match a with SampleElements v => Some v | _ => None end.

Definition sample_module : MlirToHlo.Operation SampleAttribute :=
  MlirToHlo.MkOperation _ MlirToHlo.OtherOp ∅
    [ MlirToHlo.MkOperation _ MlirToHlo.TransposeOp
        {[ "permutation" := SampleArray [1; 0] ]} [];
      MlirToHlo.MkOperation _ MlirToHlo.SliceOp
        (<["start_indices" := SampleArray [0; 0]]>
           (<["limit_indices" := SampleArray [2; 2]]>
              (<["strides" := SampleArray [1; 1]]>
                 {[ "other" := SampleOther 7 ]}))) [] ].

(** A dynamic-update-slice of a device-memory update into a host-memory
    buffer. *)
Definition host_update_computation : HloComputation :=
  MkComputation
    [ Some (MkInstr "buf" kParameter (f32_in kHostMemorySpace) []);
      Some (MkInstr "upd" kParameter (f32_in kDefaultMemorySpace) []);
      Some (MkInstr "idx" kParameter s32_scalar []);
      Some (MkInstr "dus" kDynamicUpdateSlice (f32_in kHostMemorySpace)
              [0%nat; 1%nat; 2%nat]) ]
    3%nat false.

(** No instruction of [c] has a layout in memory space [host]. *)
Definition nothing_in (host : Z) (c : HloComputation) : Prop :=
  ∀ j instr l,
    instruction_at c j = Some instr →
    layout (shape instr) = Some l → memory_space l ≠ host.

(** A copy and a dynamic-slice within device memory. *)
Definition device_computation : HloComputation :=
  MkComputation
    [ Some (MkInstr "x" kParameter (f32_in kDefaultMemorySpace) []);
      Some (MkInstr "idx" kParameter s32_scalar []);
      Some (MkInstr "copy" kCopy (f32_in kDefaultMemorySpace) [0%nat]);
      Some (MkInstr "slice" kDynamicSlice (f32_in kDefaultMemorySpace)
              [2%nat; 1%nat]) ]
    3%nat false.

(** * Properties *)

(** ** The autotune selector *)

Lemma c_copy_if_filter {A} (p : A → bool) (l : list A) :
  c_copy_if p l = filter (λ x, p x = true) l.
Proof.
  induction l as [|x l IH]; [done|]. cbn [c_copy_if]. rewrite filter_cons.
  destruct (p x) eqn:E; case_decide; try congruence; by rewrite IH.
Qed.

Lemma elem_of_KeepNonFailures r results :
  r ∈ KeepNonFailures results ↔ keep_result r = true ∧ r ∈ results.
Proof.
  unfold KeepNonFailures. rewrite c_copy_if_filter.
  apply (list_elem_of_filter (λ x, keep_result x = true)).
Qed.

(** The first kept entry splits the input. *)
Lemma KeepNonFailures_first before r after :
  Forall (λ x, keep_result x = false) before →
  keep_result r = true →
  KeepNonFailures (before ++ r :: after) = r :: KeepNonFailures after.
Proof.
  intros Hb Hr. unfold KeepNonFailures.
  induction Hb as [|x before Hx _ IH]; cbn [c_copy_if app].
  - by rewrite Hr.
  - by rewrite Hx.
Qed.

Lemma KeepNonFailures_nil results :
  KeepNonFailures results = [] ↔ Forall (λ x, keep_result x = false) results.
Proof.
  unfold KeepNonFailures. induction results as [|x l IH]; cbn [c_copy_if].
  - split; [constructor | done].
  - destruct (keep_result x) eqn:E.
    + split; [done | intros Hf; inversion Hf; congruence].
    + rewrite IH. split; [by constructor | by inversion 1].
Qed.

Lemma run_time_less_asym a b :
  run_time_less a b = true → run_time_less b a = false.
Proof.
  unfold run_time_less. rewrite bool_decide_eq_true, bool_decide_eq_false. lia.
Qed.

Lemma run_time_less_neg_trans a b c :
  run_time_less b a = false → run_time_less c b = false →
  run_time_less c a = false.
Proof. unfold run_time_less. rewrite !bool_decide_eq_false. lia. Qed.

Lemma run_time_not_less a b : run_time_less b a = false ↔ dur a ≤ dur b.
Proof. unfold run_time_less, dur. rewrite bool_decide_eq_false. lia. Qed.

Section SortedResults.
Context `{StdSort}.

Lemma Sort_Permutation results :
  SortAutotuningResultsByRunTime results ≡ₚ results.
Proof. apply c_sort_Permutation. Qed.

Lemma Sort_StronglySorted results :
  StronglySorted (λ a b, dur a ≤ dur b) (SortAutotuningResultsByRunTime results).
Proof.
  pose proof (c_sort_StronglySorted _ run_time_less results
                run_time_less_asym run_time_less_neg_trans) as Hs.
  unfold SortAutotuningResultsByRunTime.
  induction Hs as [|x l Hl IH Hx]; constructor; [done|].
  eapply Forall_impl; [exact Hx|]. intros y. by rewrite run_time_not_less.
Qed.

End SortedResults.

Lemma filter_none {A} (P : A → Prop) `{∀ x, Decision (P x)} (l : list A) :
  Forall (λ x, ¬ P x) l → filter P l = [].
Proof.
  induction 1 as [|x l Hx _ IH]; [done|]. by rewrite filter_cons_False.
Qed.

(** On a list in ascending run time, the prefix cut at the first entry
    above the limit holds exactly the entries within the limit. *)
Lemma take_find_if_sorted (limit : Duration) (l : list AutotuneResult) :
  StronglySorted (λ a b, dur a ≤ dur b) l →
  take (c_find_if (λ x, bool_decide (FromDurationProto (run_time x) > limit)) l) l
  = filter (λ x, dur x ≤ limit) l.
Proof.
  induction 1 as [|x l Hl IH Hx]; [done|].
  cbn [c_find_if]. fold (dur x).
  destruct (bool_decide (dur x > limit)) eqn:E.
  - apply bool_decide_eq_true in E. cbn [take]. symmetry.
    apply filter_none. constructor; [lia|].
    eapply Forall_impl; [exact Hx|]. intros y ?. simpl in *. lia.
  - apply bool_decide_eq_false in E. cbn [take].
    rewrite filter_cons_True by lia. by rewrite IH.
Qed.

Lemma fold_min_first_least {A} (key : A → Z) (rest : list A) (first : A) :
  first_least key
    (fold_left (λ smallest x,
                  if bool_decide (key x < key smallest) then x else smallest)
               rest first)
    (first :: rest).
Proof.
  induction rest as [|x rest IH] using rev_ind.
  - exists [], []. by repeat split.
  - rewrite fold_left_app. cbn [fold_left].
    destruct IH as (before & after & Heq & Hb & Ha).
    set (best := fold_left _ rest first) in *.
    case_bool_decide as Hlt.
    + exists (first :: rest), []. split; [done|]. split; [|constructor].
      rewrite Heq. apply Forall_app. split.
      * eapply Forall_impl; [exact Hb|]. intros y ?. simpl in *. lia.
      * constructor; [done|].
        eapply Forall_impl; [exact Ha|]. intros y ?. simpl in *. lia.
    + exists before, (after ++ [x]). split.
      * rewrite app_comm_cons, Heq. by rewrite <- app_assoc.
      * split; [done|]. apply Forall_app. split; [done|].
        constructor; [lia | constructor].
Qed.

Lemma c_min_element_scratch (l : list AutotuneResult) :
  l ≠ [] →
  ∃ best, c_min_element scratch_bytes_less l = Some best ∧
          first_least scratch_bytes best l.
Proof.
  destruct l as [|first rest]; [done|]. intros _. eexists. split; [done|].
  apply (fold_min_first_least scratch_bytes).
Qed.

Section Window.
Context `{StdSort}.

Lemma PickBestResult_sorted_window results instr_str config :
  RequireDeterminism false config = false →
  KeepNonFailures results ≠ [] →
  ∃ min_time best,
    let sorted := SortAutotuningResultsByRunTime (KeepNonFailures results) in
    sorted ≡ₚ KeepNonFailures results ∧
    StronglySorted (λ a b, dur a ≤ dur b) sorted ∧
    is_min_time (KeepNonFailures results) min_time ∧
    first_least scratch_bytes best (within_window min_time sorted) ∧
    PickBestResult false results instr_str config = Ok best.
Proof.
  intros Hdet Hne.
  pose proof (Sort_Permutation (KeepNonFailures results)) as Hperm.
  pose proof (Sort_StronglySorted (KeepNonFailures results)) as Hsorted.
  unfold PickBestResult.
  destruct results as [|r0 results']; [done|].
  destruct (KeepNonFailures (r0 :: results')) as [|k0 kept] eqn:Hkept; [done|].
  rewrite Hdet.
  destruct (SortAutotuningResultsByRunTime (k0 :: kept)) as [|front rest] eqn:Hs.
  { by apply Permutation_nil_l in Hperm. }
  cbn [TopResultsWithinMeasurementError].
  rewrite (take_find_if_sorted _ _ Hsorted).
  fold (dur front).
  assert (Hmin : Forall (λ r, dur front ≤ dur r) (front :: rest)).
  { apply StronglySorted_inv in Hsorted as [_ Hall]. constructor; [lia | done]. }
  destruct (c_min_element_scratch (within_window (dur front) (front :: rest)))
    as (best & Hbest & Hleast).
  { unfold within_window. rewrite filter_cons_True by (unfold Microseconds; lia).
    done. }
  exists (dur front), best. cbn zeta.
  change kMeasurementError with (Microseconds 2).
  fold (within_window (dur front) (front :: rest)). rewrite Hbest.
  repeat split; try done.
  - exists front. split; [|done]. rewrite <- Hperm. by left.
  - by rewrite <- Hperm.
Qed.

End Window.

Section WorkedExample.
Context `{StdSort}.

Lemma example_sorted :
  SortAutotuningResultsByRunTime example_results = example_results.
Proof.
  apply (StronglySorted_unique_strong (λ a b, dur a ≤ dur b)).
  - intros x1 x2 Hx1 Hx2. rewrite Sort_Permutation in Hx1.
    unfold example_results in Hx1, Hx2.
    repeat (apply elem_of_cons in Hx1 as [->|Hx1]);
      try (by apply elem_of_nil in Hx1);
      repeat (apply elem_of_cons in Hx2 as [->|Hx2]);
      try (by apply elem_of_nil in Hx2);
      unfold dur, FromDurationProto; simpl; intros; first [done | lia].
  - apply Sort_StronglySorted.
  - unfold example_results.
    repeat (constructor; [|repeat constructor; unfold dur, FromDurationProto; simpl; lia]).
    constructor.
  - apply Sort_Permutation.
Qed.

(** C1.  For the candidates with run times [10, 10.5, 11, 50] microseconds
    and scratch sizes [100, 10, 5, 1], none failing and determinism not
    required, [PickBestResult] returns the entry with run time 11 and scratch
    5.  In general, when some entry is kept and determinism is not required,
    the kept entries are put in ascending run time, only those whose run time
    is at most the smallest run time plus 2 microseconds are considered, and
    the first of those with the least scratch size is returned. *)
Theorem PickBestResult_window_tie_break :
  (∀ instr_str,
     PickBestResult false example_results instr_str (MkConfig false)
     = Ok (MkAutotuneResult 3 (usec_proto 11000) 5 None)) ∧
  (∀ results instr_str config,
     RequireDeterminism false config = false →
     KeepNonFailures results ≠ [] →
     ∃ min_time best,
       let sorted := SortAutotuningResultsByRunTime (KeepNonFailures results) in
       sorted ≡ₚ KeepNonFailures results ∧
       StronglySorted (λ a b, dur a ≤ dur b) sorted ∧
       is_min_time (KeepNonFailures results) min_time ∧
       first_least scratch_bytes best (within_window min_time sorted) ∧
       PickBestResult false results instr_str config = Ok best).
Proof.
  split.
  - intros instr_str. unfold PickBestResult.
    change (KeepNonFailures example_results) with example_results.
    cbn [example_results RequireDeterminism orb xla_gpu_deterministic_ops].
    fold example_results. rewrite example_sorted. reflexivity.
  - apply PickBestResult_sorted_window.
Qed.

End WorkedExample.

Lemma PickBestResult_window_tie_break_witness :
  ∃ min_time best,
    let sorted :=
      SortAutotuningResultsByRunTime (KeepNonFailures example_results) in
    sorted ≡ₚ KeepNonFailures example_results ∧
    StronglySorted (λ a b, dur a ≤ dur b) sorted ∧
    is_min_time (KeepNonFailures example_results) min_time ∧
    first_least scratch_bytes best (within_window min_time sorted) ∧
    PickBestResult false example_results None (MkConfig false) = Ok best.
Proof.
  apply (proj2 PickBestResult_window_tie_break example_results None
           (MkConfig false)).
  - reflexivity.
  - discriminate.
Defined.

Lemma string_app_assoc (a b c : string) : (a +:+ b) +:+ c = a +:+ b +:+ c.
Proof.
  induction a as [|ch a IH]; [done|].
  change (String ch ((a +:+ b) +:+ c) = String ch (a +:+ b +:+ c)). by f_equal.
Qed.

Lemma is_substring_app_l m a b : is_substring m a → is_substring m (a +:+ b).
Proof.
  intros (p & q & ->). exists p, (q +:+ b). by rewrite !string_app_assoc.
Qed.

Lemma failure_lines_keep m (l : list AutotuneResult) (acc : string) :
  is_substring m acc → is_substring m (fold_left append_failure l acc).
Proof.
  revert acc. induction l as [|x l IH]; intros acc Hacc; [done|].
  cbn [fold_left]. apply IH. by apply is_substring_app_l.
Qed.

Lemma failure_lines_contain (l : list AutotuneResult) (acc : string) r :
  r ∈ l → is_substring (msg (failure r)) (fold_left append_failure l acc).
Proof.
  revert acc. induction l as [|x l IH]; intros acc Hr.
  - by apply elem_of_nil in Hr.
  - cbn [fold_left]. apply elem_of_cons in Hr as [->|Hr]; [|by apply IH].
    apply failure_lines_keep. exists (acc +:+ newline +:+ "  "), "".
    unfold append_failure. rewrite !string_app_assoc.
    do 3 f_equal. clear. induction (msg (failure x)) as [|ch m IH]; [done|].
    change (String ch m = String ch (m +:+ "")). by f_equal.
Qed.

Lemma keep_result_false r : keep_result r = false ↔ fails_otherwise r.
Proof.
  unfold keep_result, fails_otherwise. rewrite orb_false_iff, negb_false_iff.
  by rewrite bool_decide_eq_false.
Qed.

Lemma starts_with_app p a b : starts_with p a → starts_with p (a +:+ b).
Proof. intros [q ->]. exists (q +:+ b). by rewrite string_app_assoc. Qed.

Lemma failure_lines_start p (l : list AutotuneResult) (acc : string) :
  starts_with p acc → starts_with p (fold_left append_failure l acc).
Proof.
  revert acc. induction l as [|x l IH]; intros acc Hacc; [done|].
  cbn [fold_left]. apply IH. by apply starts_with_app.
Qed.

Lemma no_candidates_text instr_str :
  starts_with "The are no algorithm candiates for computing"
              (message (NoAlgorithmSuppliedInternalError instr_str)).
Proof. destruct instr_str as [s|]; eexists; reflexivity. Qed.

Lemma no_candidates_names s :
  is_substring s (message (NoAlgorithmSuppliedInternalError (Some s))).
Proof.
  exists ("The are no algorithm candiates for computing: " +:+ newline +:+ "  ").
  eexists. cbn [message NoAlgorithmSuppliedInternalError InternalError].
  by rewrite !string_app_assoc.
Qed.

Lemma all_failed_text instr_str results :
  starts_with "All algorithms"
              (message (AllAlgorithmsFailedInternalError instr_str results)).
Proof.
  apply failure_lines_start. destruct instr_str as [s|]; eexists; reflexivity.
Qed.

Lemma all_failed_announces instr_str results :
  is_substring "Per-algorithm errors:"
               (message (AllAlgorithmsFailedInternalError instr_str results)).
Proof.
  apply failure_lines_keep. destruct instr_str as [s|].
  - exists ("All algorithms tried for " +:+ s +:+
            " failed. Falling back to default algorithm.  "), "".
    by rewrite !string_app_assoc.
  - by exists "All algorithms failed. Falling back to the default algorithm. ",
      "".
Qed.

Lemma all_failed_names s results :
  is_substring s (message (AllAlgorithmsFailedInternalError (Some s) results)).
Proof.
  apply failure_lines_keep. exists "All algorithms tried for ". eexists.
  reflexivity.
Qed.

Lemma all_failed_is_not_no_candidates instr_str results instr_str' :
  AllAlgorithmsFailedInternalError instr_str results
  ≠ NoAlgorithmSuppliedInternalError instr_str'.
Proof.
  intros Heq.
  destruct (all_failed_text instr_str results) as [a Ha].
  destruct (no_candidates_text instr_str') as [b Hb].
  rewrite Heq, Hb in Ha. discriminate Ha.
Qed.

Section Outcomes.
Context `{StdSort}.

Lemma PickBestResult_kept det results instr_str config :
  KeepNonFailures results ≠ [] →
  ∃ best, PickBestResult det results instr_str config = Ok best ∧
          best ∈ KeepNonFailures results.
Proof.
  intros Hne.
  destruct (RequireDeterminism det config) eqn:Hdet.
  - unfold PickBestResult. destruct results as [|r0 results']; [done|].
    destruct (KeepNonFailures (r0 :: results')) as [|k0 kept]; [done|].
    rewrite Hdet. exists k0. split; [done | by left].
  - assert (det = false) as ->.
    { unfold RequireDeterminism in Hdet. by apply orb_false_iff in Hdet as [? _]. }
    destruct (PickBestResult_sorted_window results instr_str config Hdet Hne)
      as (t & best & Hperm & _ & _ & (before & after & Hwin & _) & Hpick).
    exists best. split; [done|]. rewrite <- Hperm.
    assert (Hin : best ∈ within_window t
              (SortAutotuningResultsByRunTime (KeepNonFailures results))).
    { rewrite Hwin. apply elem_of_app. right. by left. }
    unfold within_window in Hin. by apply list_elem_of_filter in Hin as [_ ?].
Qed.

(** C6.  [PickBestResult] fails in exactly two cases.  On an empty list it
    fails with the no-candidates error: an internal error whose text begins
    "The are no algorithm candiates for computing" and names the instruction
    when one is given.  On a non-empty list in which every entry has a
    failure of a kind other than WRONG_RESULT it fails with the
    all-algorithms-failed error: an internal error whose text begins "All
    algorithms", names the instruction when one is given, announces the
    per-algorithm errors and contains the failure message of every entry;
    it is never the no-candidates error.  In every other case it returns
    one result, an entry of the list. *)
Theorem PickBestResult_failure_cases det results instr_str config :
  (results = [] →
   ∃ e, PickBestResult det results instr_str config = Err e ∧
        e = NoAlgorithmSuppliedInternalError instr_str ∧
        code e = kInternal ∧
        starts_with "The are no algorithm candiates for computing"
                    (message e) ∧
        (∀ s, instr_str = Some s → is_substring s (message e))) ∧
  (results ≠ [] → Forall fails_otherwise results →
   ∃ e, PickBestResult det results instr_str config = Err e ∧
        e = AllAlgorithmsFailedInternalError instr_str results ∧
        code e = kInternal ∧
        starts_with "All algorithms" (message e) ∧
        is_substring "Per-algorithm errors:" (message e) ∧
        (∀ s, instr_str = Some s → is_substring s (message e)) ∧
        (∀ r, r ∈ results → is_substring (msg (failure r)) (message e)) ∧
        (∀ instr_str', e ≠ NoAlgorithmSuppliedInternalError instr_str')) ∧
  (results ≠ [] → ¬ Forall fails_otherwise results →
   ∃ best, PickBestResult det results instr_str config = Ok best ∧
           best ∈ results).
Proof.
  split; [|split].
  - intros ->. eexists. split; [done|]. split; [done|]. split; [done|].
    split; [apply no_candidates_text|]. intros s ->. apply no_candidates_names.
  - intros Hne Hall. eexists. split; [|split; [done|]].
    + assert (KeepNonFailures results = []) as Hnil.
      { apply KeepNonFailures_nil. eapply Forall_impl; [exact Hall|].
        intros r. by rewrite keep_result_false. }
      unfold PickBestResult. destruct results; [done|]. by rewrite Hnil.
    + split; [done|]. split; [apply all_failed_text|].
      split; [apply all_failed_announces|].
      split; [intros s ->; apply all_failed_names|].
      split; [|apply all_failed_is_not_no_candidates].
      intros r Hr. unfold AllAlgorithmsFailedInternalError.
      cbn [message InternalError]. by apply (failure_lines_contain results).
  - intros Hne Hsome.
    destruct (PickBestResult_kept det results instr_str config) as (best & ? & Hin).
    { rewrite KeepNonFailures_nil. intros Hall. apply Hsome.
      eapply Forall_impl; [exact Hall|]. intros r. by rewrite keep_result_false. }
    exists best. split; [done|]. by apply elem_of_KeepNonFailures in Hin as [_ ?].
Qed.

(** C7.  When determinism is required and some entry survives the filter,
    [PickBestResult] returns the first surviving entry of the input, whatever
    the run times and scratch sizes are. *)
Theorem PickBestResult_deterministic_first det config before r after instr_str :
  RequireDeterminism det config = true →
  Forall fails_otherwise before →
  ¬ fails_otherwise r →
  PickBestResult det (before ++ r :: after) instr_str config = Ok r.
Proof.
  intros Hdet Hbefore Hr. unfold PickBestResult.
  rewrite KeepNonFailures_first.
  - rewrite Hdet. by destruct before.
  - eapply Forall_impl; [exact Hbefore|]. intros x. by rewrite keep_result_false.
  - rewrite <- keep_result_false in Hr. by destruct (keep_result r).
Qed.

End Outcomes.

Lemma PickBestResult_failure_cases_witness :
  ∃ e, PickBestResult false all_failed_results (Some "conv.1") (MkConfig false)
       = Err e ∧
       e = AllAlgorithmsFailedInternalError (Some "conv.1") all_failed_results ∧
       code e = kInternal ∧
       starts_with "All algorithms" (message e) ∧
       is_substring "Per-algorithm errors:" (message e) ∧
       (∀ s, Some "conv.1" = Some s → is_substring s (message e)) ∧
       (∀ r, r ∈ all_failed_results →
             is_substring (msg (failure r)) (message e)) ∧
       (∀ instr_str', e ≠ NoAlgorithmSuppliedInternalError instr_str').
Proof.
  apply (proj1 (proj2 (PickBestResult_failure_cases false all_failed_results
                         (Some "conv.1") (MkConfig false)))).
  - discriminate.
  - repeat constructor; simpl; discriminate.
Defined.

Lemma PickBestResult_deterministic_first_witness :
  PickBestResult true
    ([MkAutotuneResult 1 (usec_proto 1000) 0 (Some (MkFailure DISQUALIFIED "bad"))]
     ++ MkAutotuneResult 2 (usec_proto 90000) 700
          (Some (MkFailure WRONG_RESULT "mismatch"))
     :: [MkAutotuneResult 3 (usec_proto 10) 0 None])
    None (MkConfig false)
  = Ok (MkAutotuneResult 2 (usec_proto 90000) 700
          (Some (MkFailure WRONG_RESULT "mismatch"))).
Proof.
  apply PickBestResult_deterministic_first.
  - reflexivity.
  - repeat constructor. simpl. discriminate.
  - intros [_ Hk]. simpl in Hk. congruence.
Defined.

(** ** The mutex registry *)

Lemma empty_registry_ok : registry_ok empty_registry.
Proof. split; intros *; simpl; by rewrite lookup_empty. Qed.

Lemma emplace_bound key reg :
  mutexes (emplace key reg).2 !! key = Some (emplace key reg).1.
Proof.
  unfold emplace. destruct (mutexes reg !! key) eqn:E; simpl; [done|].
  apply lookup_insert_eq.
Qed.

Lemma emplace_keeps key reg k m :
  mutexes reg !! k = Some m → mutexes (emplace key reg).2 !! k = Some m.
Proof.
  intros Hk. unfold emplace. destruct (mutexes reg !! key) eqn:E; simpl; [done|].
  rewrite lookup_insert_ne; [done | congruence].
Qed.

Lemma emplace_ok key reg : registry_ok reg → registry_ok (emplace key reg).2.
Proof.
  intros [Halloc Hdist]. unfold emplace.
  destruct (mutexes reg !! key) eqn:E; simpl; [by split|].
  split; simpl.
  - intros k m. rewrite lookup_insert. case_decide; [intros [= <-]; lia|].
    intros Hk%Halloc. lia.
  - intros k1 k2 m. rewrite !lookup_insert.
    repeat case_decide; subst; try done.
    + intros [= <-] Hk%Halloc. lia.
    + intros Hk%Halloc [= <-]. lia.
    + apply Hdist.
Qed.

Lemma after_calls_ok calls reg :
  registry_ok reg → registry_ok (after_calls calls reg).
Proof.
  revert reg. induction calls as [|e calls IH]; intros reg Hok; [done|].
  apply IH. by apply emplace_ok.
Qed.

Lemma after_calls_keeps calls reg k m :
  mutexes reg !! k = Some m → mutexes (after_calls calls reg) !! k = Some m.
Proof.
  revert reg. induction calls as [|e calls IH]; intros reg Hk; [done|].
  apply IH. by apply emplace_keeps.
Qed.

(** C8.  At any point of the life of the registry, a lookup and a later
    lookup (with any calls in between) return the same mutex exactly when
    they name the same (platform, device ordinal) pair, and every entry
    present before is still present, bound to the same mutex, afterwards. *)
Theorem GetGpuMutex_same_pair_same_mutex
    (calls_before calls_between : list StreamExecutor) (e1 e2 : StreamExecutor) :
  let reg0 := after_calls calls_before empty_registry in
  let first := GetGpuMutex e1 reg0 in
  let reg2 := after_calls calls_between first.2 in
  let second := GetGpuMutex e2 reg2 in
  (first.1 = second.1 ↔ device_key e1 = device_key e2) ∧
  (∀ key m, mutexes reg0 !! key = Some m → mutexes second.2 !! key = Some m).
Proof.
  intros reg0 first reg2 second.
  assert (Hok : registry_ok second.2).
  { apply emplace_ok, after_calls_ok, emplace_ok, after_calls_ok, empty_registry_ok. }
  assert (H1 : mutexes second.2 !! device_key e1 = Some first.1).
  { apply emplace_keeps, after_calls_keeps, emplace_bound. }
  assert (H2 : mutexes second.2 !! device_key e2 = Some second.1).
  { apply emplace_bound. }
  split.
  - split.
    + intros Heq. rewrite Heq in H1. eapply nodes_distinct; eauto.
    + intros Heq. rewrite Heq in H1. congruence.
  - intros key m Hk. by apply emplace_keeps, after_calls_keeps, emplace_keeps.
Qed.

(** ** Thunk *)

Section ThunkFacts.
Import Thunk.

Lemma ClearCompileTimeInfo_base (t : Thunk) :
  op (ClearCompileTimeInfo t) = None ∧
  kind (ClearCompileTimeInfo t) = kind t ∧
  profile_annotation (ClearCompileTimeInfo t) = profile_annotation t ∧
  ClearCompileTimeInfo (ClearCompileTimeInfo t) = ClearCompileTimeInfo t.
Proof. by destruct t. Qed.

Lemma flat_map_ext_Forall {A B} (f g : A → list B) (l : list A) :
  Forall (λ x, f x = g x) l → flat_map f l = flat_map g l.
Proof. induction 1 as [|x l Hx _ IH]; [done|]. cbn. by rewrite Hx, IH. Qed.

Context {Members ExecuteParams Work : Type}.

Lemma ExecutionUnit_nested_ind (P : ExecutionUnit Members → Prop) :
  (∀ base members nested,
     Forall (Forall P) nested → P (MkUnit Members base members nested)) →
  ∀ unit, P unit.
Proof.
  intros Hstep. fix IH 1. intros [base members nested]. apply Hstep.
  induction nested as [|sequence nested IHnested]; constructor; [|done].
  induction sequence as [|unit sequence IHsequence]; constructor; [|done].
  apply IH.
Qed.

Variable issue :
  Kind → string → Members → ExecuteParams → list (list Work) → list Work.
Variable clears_nested : Kind → bool.

Abbreviation Execute := (ExecuteOnStream Members ExecuteParams Work issue).
Abbreviation Clear := (ClearCompileTimeInfo_virtual Members clears_nested).

Lemma Execute_after_Clear unit params :
  Execute (Clear unit) params = Execute unit params.
Proof.
  induction unit as [base members nested IH] using ExecutionUnit_nested_ind.
  cbn [ClearCompileTimeInfo_virtual ExecuteOnStream].
  destruct (ClearCompileTimeInfo_base base) as (_ & -> & -> & _).
  destruct (clears_nested (kind base)); [|done]. f_equal.
  rewrite map_map. apply map_ext_Forall.
  eapply Forall_impl; [exact IH|]. intros sequence Hsequence. cbn beta.
  rewrite flat_map_concat_map, map_map, <- flat_map_concat_map.
  by apply flat_map_ext_Forall.
Qed.

Lemma Clear_twice unit : Clear (Clear unit) = Clear unit.
Proof.
  induction unit as [base members nested IH] using ExecutionUnit_nested_ind.
  cbn [ClearCompileTimeInfo_virtual].
  destruct (ClearCompileTimeInfo_base base) as (_ & Hk & _ & ->).
  rewrite Hk. f_equal. destruct (clears_nested (kind base)); [|done].
  rewrite map_map. apply map_ext_Forall.
  eapply Forall_impl; [exact IH|]. intros sequence Hsequence. cbn beta.
  rewrite map_map. by apply map_ext_Forall.
Qed.


End ThunkFacts.

(** ** The asyncifier pass *)

Lemma with_async_pair_length old start finish c :
  length (instructions (with_async_pair old start finish c))
  = S (S (length (instructions c))).
Proof.
  unfold with_async_pair. cbn [instructions].
  rewrite length_fmap, length_app. cbn [length]. lia.
Qed.

Lemma with_async_pair_old old start finish c j :
  (j < length (instructions c))%nat →
  instruction_at (with_async_pair old start finish c) j
  = replace_operand old (S (length (instructions c))) <$> instruction_at c j.
Proof.
  intros Hj. unfold with_async_pair, instruction_at. cbn [instructions].
  rewrite list_lookup_fmap, lookup_app_l by done.
  destruct (instructions c !! j) as [[?|]|]; reflexivity.
Qed.

Lemma with_async_pair_start old start finish c :
  instruction_at (with_async_pair old start finish c) (length (instructions c))
  = Some (replace_operand old (S (length (instructions c))) start).
Proof.
  unfold with_async_pair, instruction_at. cbn [instructions].
  rewrite list_lookup_fmap, lookup_app_r by done.
  by replace (length (instructions c) - length (instructions c))%nat with O by lia.
Qed.

Lemma with_async_pair_done old start finish c :
  instruction_at (with_async_pair old start finish c) (S (length (instructions c)))
  = Some (replace_operand old (S (length (instructions c))) finish).
Proof.
  unfold with_async_pair, instruction_at. cbn [instructions].
  rewrite list_lookup_fmap, lookup_app_r by lia.
  by replace (S (length (instructions c)) - length (instructions c))%nat
    with 1%nat by lia.
Qed.

Lemma instruction_at_lt c i instr :
  instruction_at c i = Some instr → (i < length (instructions c))%nat.
Proof.
  unfold instruction_at. destruct (instructions c !! i) eqn:E; [|done].
  intros _. by eapply lookup_lt_Some.
Qed.

Lemma has_layout_layout s : has_layout s = true → ∃ l, layout s = Some l.
Proof. destruct s as [? ? [l|]|]; [by exists l | done | done]. Qed.

Ltac run_m :=
  unfold mbind, M_bind, bind, deref, mutable_operand, memory_space_of, checked,
    OkStatus, mret, M_ret, ret, fail, check_failed, MarkAsChanged,
    AddInstruction, ReplaceAllUsesWith, RemoveInstruction; cbn beta iota.

Lemma HandleCopy_run host copy st ci op_id opi :
  instruction_at (parent st) copy = Some ci →
  operands ci !! 0%nat = Some op_id →
  instruction_at (parent st) op_id = Some opi →
  HandleCopy host copy st =
    if negb (has_layout (shape opi)) then
      (Err (InternalError (name opi +:+ " does not have a layout.")), st)
    else if negb (has_layout (shape ci)) then
      (Err (InternalError (name ci +:+ " does not have a layout.")), st)
    else
      match layout (shape opi), layout (shape ci) with
      | Some src, Some dst =>
          if copy_between_host_and_device host (memory_space src) (memory_space dst) then
            (Ok (),
             MkVisitor
               (with_async_pair copy (copy_start_of ci opi op_id)
                  (copy_done_of (parent st) ci) (parent st))
               true)
          else (Ok (), st)
      | _, _ => (Crash, st)
      end.
Proof.
  intros Hci Hop Hopi. unfold HandleCopy. run_m. rewrite Hci. cbn beta iota.
  rewrite Hop. cbn beta iota. rewrite Hopi. cbn beta iota.
  destruct (has_layout (shape opi)) eqn:E1; [|done].
  destruct (has_layout (shape ci)) eqn:E2; [|done].
  cbn [negb].
  destruct (layout (shape opi)) as [src|] eqn:L1; [|done].
  destruct (layout (shape ci)) as [dst|] eqn:L2; [|done].
  cbn [fmap option_fmap option_map]. unfold copy_between_host_and_device.
  destruct (_ || _) eqn:G; cbn [negb]; [|by destruct st].
  unfold with_async_pair, copy_start_of, copy_done_of. cbn.
  rewrite <- !app_assoc, !length_app, ?Nat.add_1_r. cbn.
  repeat f_equal. all: try lia.
Qed.

Lemma CreateAsyncInstructions_run i instr context_shapes st :
  instruction_at (parent st) i = Some instr →
  CreateAsyncInstructions i context_shapes st =
    (Ok (S (length (instructions (parent st)))),
     MkVisitor (async_replaced i instr context_shapes (parent st)) (changed_ st)).
Proof.
  intros Hi. unfold CreateAsyncInstructions. run_m. rewrite Hi. cbn beta iota.
  unfold async_replaced, without_instruction, with_async_pair, async_start_of,
    async_done_of. cbn.
  rewrite <- !app_assoc, !length_app, ?Nat.add_1_r. cbn.
  repeat f_equal. all: try lia.
Qed.

Lemma HandleDynamicSlice_run host ds st i op_id opi :
  instruction_at (parent st) ds = Some i →
  operands i !! 0%nat = Some op_id →
  instruction_at (parent st) op_id = Some opi →
  HandleDynamicSlice host ds st =
    if negb (has_layout (shape i)) then
      (Err (InternalError (name i +:+ " does not have a layout.")), st)
    else if negb (has_layout (shape opi)) then
      (Err (InternalError (name i +:+ "'s operand, " +:+ name opi +:+
                           ", does not have a layout.")), st)
    else
      match layout (shape opi), layout (shape i) with
      | Some src, Some dst =>
          if bool_decide (memory_space src = host) &&
             bool_decide (memory_space dst = kDefaultMemorySpace)
          then
            (Ok (),
             MkVisitor
               (async_replaced ds i [MakeScalarShape U32; MakeScalarShape S32]
                               (parent st))
               true)
          else (Ok (), st)
      | _, _ => (Crash, st)
      end.
Proof.
  intros Hi Hop Hopi. unfold HandleDynamicSlice.
  unfold mbind at 1 2 3, M_bind, bind at 1 2 3, deref, mutable_operand, checked, ret.
  cbn beta iota. rewrite Hi. cbn beta iota. rewrite Hop. cbn beta iota.
  rewrite Hopi. cbn beta iota.
  destruct (has_layout (shape i)) eqn:E1; [|done].
  destruct (has_layout (shape opi)) eqn:E2; [|done].
  cbn [negb].
  apply has_layout_layout in E1 as [dst L2], E2 as [src L1]. rewrite L1, L2.
  unfold mbind at 1, M_bind, bind at 1, memory_space_of, checked, ret.
  rewrite L1. cbn [fmap option_fmap option_map].
  destruct (bool_decide (memory_space src = host)) eqn:G1; cbn [negb andb];
    [|by destruct st].
  unfold mbind at 1, M_bind, bind at 1, memory_space_of, checked, ret.
  rewrite L2. cbn [fmap option_fmap option_map].
  destruct (bool_decide (memory_space dst = kDefaultMemorySpace)) eqn:G2;
    cbn [negb]; [|by destruct st].
  unfold mbind at 1, M_bind, bind at 1.
  rewrite (CreateAsyncInstructions_run _ _ _ _ Hi). done.
Qed.

Lemma HandleDynamicUpdateSlice_run host dus st i op_id opi upd_id upd :
  instruction_at (parent st) dus = Some i →
  operands i !! 0%nat = Some op_id →
  operands i !! 1%nat = Some upd_id →
  instruction_at (parent st) op_id = Some opi →
  instruction_at (parent st) upd_id = Some upd →
  HandleDynamicUpdateSlice host dus st =
    if negb (has_layout (shape i)) then
      (Err (InternalError (name i +:+ " does not have a layout.")), st)
    else if negb (has_layout (shape opi)) then
      (Err (InternalError (name i +:+ "'s operand, " +:+ name opi +:+
                           ", does not have a layout.")), st)
    else if negb (has_layout (shape upd)) then
      (Err (InternalError (name i +:+ "'s update, " +:+ name upd +:+
                           ", does not have a layout.")), st)
    else
      match layout (shape upd), layout (shape i), layout (shape opi) with
      | Some src, Some dst, Some base =>
          if bool_decide (memory_space src = kDefaultMemorySpace) &&
             bool_decide (memory_space dst = host)
          then
            if bool_decide (memory_space base = memory_space dst) then
              (Ok (),
               MkVisitor
                 (async_replaced dus i [MakeScalarShape U32] (parent st))
                 true)
            else
              (Err (InternalError
                      ("Unexpected that " +:+ name opi +:+
                       "'s memory space is not the same as the dynamic-update-slice.")),
               st)
          else (Ok (), st)
      | _, _, _ => (Crash, st)
      end.
Proof.
  intros Hi Hop Hupd Hopi Hu. unfold HandleDynamicUpdateSlice.
  unfold mbind at 1 2 3 4 5, M_bind, bind at 1 2 3 4 5, deref, mutable_operand,
    checked, ret.
  cbn beta iota. rewrite Hi. cbn beta iota. rewrite Hop. cbn beta iota.
  rewrite Hupd. cbn beta iota. rewrite Hopi. cbn beta iota.
  rewrite Hu. cbn beta iota.
  destruct (has_layout (shape i)) eqn:E1; [|done].
  destruct (has_layout (shape opi)) eqn:E2; [|done].
  destruct (has_layout (shape upd)) eqn:E3; [|done].
  cbn [negb].
  apply has_layout_layout in E1 as [dst L2], E2 as [base L1], E3 as [src L3].
  rewrite L1, L2, L3.
  unfold mbind at 1, M_bind, bind at 1, memory_space_of, checked, ret.
  rewrite L3. cbn [fmap option_fmap option_map].
  destruct (bool_decide (memory_space src = kDefaultMemorySpace)) eqn:G1;
    cbn [negb andb]; [|by destruct st].
  unfold mbind at 1, M_bind, bind at 1, memory_space_of, checked, ret.
  rewrite L2. cbn [fmap option_fmap option_map].
  destruct (bool_decide (memory_space dst = host)) eqn:G2;
    cbn [negb]; [|by destruct st].
  unfold mbind at 1, M_bind, bind at 1, memory_space_of, checked, ret.
  rewrite L1. cbn [fmap option_fmap option_map].
  destruct (bool_decide (memory_space base = memory_space dst)) eqn:G3;
    cbn [negb]; [|done].
  unfold mbind at 1, M_bind, bind at 1.
  rewrite (CreateAsyncInstructions_run _ _ _ _ Hi). done.
Qed.

Lemma Visit_run host i st instr :
  instruction_at (parent st) i = Some instr →
  Visit host i st =
    match opcode instr with
    | kDynamicSlice => HandleDynamicSlice host i st
    | kDynamicUpdateSlice => HandleDynamicUpdateSlice host i st
    | kCopy => HandleCopy host i st
    | _ => (Ok (), st)
    end.
Proof.
  intros Hi. unfold Visit. unfold mbind, M_bind, bind at 1, deref, checked, ret.
  rewrite Hi. by destruct (opcode instr).
Qed.

Lemma VisitAll_app host pre post st :
  VisitAll host (pre ++ post) st =
    match VisitAll host pre st with
    | (Ok _, st') => VisitAll host post st'
    | other => other
    end.
Proof.
  revert st. induction pre as [|i pre IH]; intros st; [done|].
  cbn [app VisitAll]. unfold mbind, M_bind, bind.
  destruct (Visit host i st) as [[[]| |] st']; [apply IH | done | done].
Qed.

Lemma operand_at_Some c instr k operand :
  operand_at c instr k = Some operand →
  ∃ o, operands instr !! k = Some o ∧ instruction_at c o = Some operand.
Proof.
  unfold operand_at. destruct (operands instr !! k) as [o|]; [|done].
  intros Ho. by exists o.
Qed.

Lemma Visit_missing_layout host i st e :
  missing_layout (parent st) i = Some e → Visit host i st = (Err e, st).
Proof.
  unfold missing_layout. intros Hm.
  destruct (instruction_at (parent st) i) as [instr|] eqn:Hi; [|done].
  cbn in Hm. rewrite (Visit_run _ _ _ _ Hi).
  destruct (opcode instr); try done.
  - destruct (operand_at (parent st) instr 0) as [opi|] eqn:Ho; [|done].
    apply operand_at_Some in Ho as (o & Ho & Hopi). cbn in Hm.
    rewrite (HandleCopy_run _ _ _ _ _ _ Hi Ho Hopi).
    destruct (negb (has_layout (shape opi))); [congruence|].
    destruct (negb (has_layout (shape instr))); [congruence | done].
  - destruct (operand_at (parent st) instr 0) as [opi|] eqn:Ho; [|done].
    apply operand_at_Some in Ho as (o & Ho & Hopi). cbn in Hm.
    rewrite (HandleDynamicSlice_run _ _ _ _ _ _ Hi Ho Hopi).
    destruct (negb (has_layout (shape instr))); [congruence|].
    destruct (negb (has_layout (shape opi))); [congruence | done].
  - destruct (operand_at (parent st) instr 0) as [opi|] eqn:Ho; [|done].
    apply operand_at_Some in Ho as (o & Ho & Hopi). cbn in Hm.
    destruct (operand_at (parent st) instr 1) as [upd|] eqn:Hu; [|done].
    apply operand_at_Some in Hu as (u & Hu & Hupd). cbn in Hm.
    rewrite (HandleDynamicUpdateSlice_run _ _ _ _ _ _ _ _ Hi Ho Hu Hopi Hupd).
    destruct (negb (has_layout (shape instr))); [congruence|].
    destruct (negb (has_layout (shape opi))); [congruence|].
    destruct (negb (has_layout (shape upd))); [congruence | done].
Qed.

(** Whenever [HandleCopy] rewrites a copy, the copy is still an instruction
    of the computation afterwards. *)
Lemma HandleCopy_original_stays host st copy ci op_id opi src dst :
  instruction_at (parent st) copy = Some ci →
  operands ci !! 0%nat = Some op_id →
  instruction_at (parent st) op_id = Some opi →
  layout (shape opi) = Some src →
  layout (shape ci) = Some dst →
  copy_between_host_and_device host (memory_space src) (memory_space dst) = true →
  ∃ st', HandleCopy host copy st = (Ok (), st') ∧
         instruction_at (parent st') copy
         = Some (replace_operand copy (S (length (instructions (parent st)))) ci).
Proof.
  intros Hci Hop Hopi Lsrc Ldst Hdir.
  rewrite (HandleCopy_run host _ _ _ _ _ Hci Hop Hopi), Lsrc, Ldst, Hdir.
  assert (has_layout (shape opi) = true) as ->
    by (destruct (shape opi) as [? ? [|]|]; done).
  assert (has_layout (shape ci) = true) as ->
    by (destruct (shape ci) as [? ? [|]|]; done).
  eexists. split; [done|]. cbn [parent].
  rewrite with_async_pair_old, Hci; [done|]. by eapply instruction_at_lt.
Qed.

(** C2.  On the program p0 (host) -> copy (device) -> add(copy, copy),
    [HandleCopy] adds copy-start with the tuple shape {destination, source,
    context}, adds copy-done over it with the shape of the copy, and makes
    add read copy-done; the copy instruction itself is still in the
    computation afterwards. *)
Theorem HandleCopy_leaves_original_copy :
  HandleCopy kHostMemorySpace 1%nat (MkVisitor copy_computation false)
  = (Ok (), MkVisitor copy_computation_after true) ∧
  instruction_at copy_computation_after 1%nat
  = Some (MkInstr "copy" kCopy (f32_in kDefaultMemorySpace) [0%nat]).
Proof. split; reflexivity. Qed.

(** C3.  On the same program the first run rewrites the copy and reports a
    change; the second run finds the copy still in the computation, rewrites
    it once more and reports a change again. *)
Theorem Run_twice_changes_again :
  ∃ once twice,
    Run kHostMemorySpace copy_module = (Ok true, once) ∧
    Run kHostMemorySpace once = (Ok true, twice) ∧
    once = MkModule [copy_computation_after] ∧
    length (instructions copy_computation_after) = 5%nat ∧
    (∀ c, c ∈ computations twice → length (instructions c) = 7%nat).
Proof.
  eexists _, _. split; [reflexivity|]. split; [reflexivity|].
  split; [reflexivity|]. split; [reflexivity|].
  intros c Hc. apply list_elem_of_singleton in Hc. by subst.
Qed.

(** With the rewritten copy taken out of the computation, a further run
    finds nothing to rewrite. *)
Example Run_without_original_copy_is_stable :
  Run kHostMemorySpace (MkModule [without_instruction 1 copy_computation_after])
  = (Ok false, MkModule [without_instruction 1 copy_computation_after]).
Proof. reflexivity. Qed.

(** C5, as stated, fails: the source of this copy is in host memory and the
    destination in a different memory space, yet the copy is not rewritten. *)
Lemma copy_from_host_to_other_space_skipped :
  let st := MkVisitor other_space_computation false in
  layout (f32_in kHostMemorySpace) = Some (MkLayout kHostMemorySpace) ∧
  layout (f32_in 1) = Some (MkLayout 1) ∧
  kHostMemorySpace ≠ 1 ∧
  HandleCopy kHostMemorySpace 1%nat st = (Ok (), st).
Proof. repeat split. done. Qed.

Lemma copy_between_host_and_device_spec host src dst :
  copy_between_host_and_device host src dst = true ↔
  (src = host ∧ dst = kDefaultMemorySpace) ∨
  (src = kDefaultMemorySpace ∧ dst = host).
Proof.
  unfold copy_between_host_and_device. rewrite orb_true_iff, !andb_true_iff, !bool_decide_eq_true.
  done.
Qed.

(** C5, amended.  A copy whose source and destination have layouts is
    rewritten into a copy-start/copy-done pair exactly when one of the two
    memory spaces is the host space and the other is the default (device)
    space.  The rewrite appends copy-start, which reads the operand of the
    copy and has the tuple shape {destination, source, u32 context}, and
    copy-done, which reads copy-start and has the shape of the copy; every
    instruction that was in the computation is still there and reads
    copy-done wherever it read the copy, the root becomes copy-done when it
    was the copy, and the changed flag is set.  Any other copy, in
    particular one whose two memory spaces are equal when the host space is
    not the default space, is left untouched: the computation and the
    changed flag stay as they were and the handler returns OK. *)
Theorem HandleCopy_between_host_and_device host st copy ci op_id opi src dst :
  instruction_at (parent st) copy = Some ci →
  operands ci !! 0%nat = Some op_id →
  instruction_at (parent st) op_id = Some opi →
  layout (shape opi) = Some (MkLayout src) →
  layout (shape ci) = Some (MkLayout dst) →
  let c := parent st in
  let n := length (instructions c) in
  ((src = host ∧ dst = kDefaultMemorySpace) ∨
   (src = kDefaultMemorySpace ∧ dst = host) →
   ∃ st',
     HandleCopy host copy st = (Ok (), st') ∧ changed_ st' = true ∧
     length (instructions (parent st')) = S (S n) ∧
     instruction_at (parent st') n
     = Some (MkInstr "copy-start" kCopyStart
               (TupleShape [shape ci; shape opi; MakeScalarShape U32])
               [if decide (op_id = copy) then S n else op_id]) ∧
     instruction_at (parent st') (S n)
     = Some (MkInstr "copy-done" kCopyDone (shape ci) [n]) ∧
     (∀ j, (j < n)%nat →
           instruction_at (parent st') j
           = replace_operand copy (S n) <$> instruction_at c j) ∧
     root_instruction (parent st')
     = (if decide (root_instruction c = copy) then S n
        else root_instruction c) ∧
     IsFusionComputation (parent st') = IsFusionComputation c) ∧
  (¬ ((src = host ∧ dst = kDefaultMemorySpace) ∨
      (src = kDefaultMemorySpace ∧ dst = host)) →
   HandleCopy host copy st = (Ok (), st)) ∧
  (src = dst → host ≠ kDefaultMemorySpace →
   HandleCopy host copy st = (Ok (), st)).
Proof.
  intros Hci Hop Hopi Lsrc Ldst c n.
  pose proof (HandleCopy_run host _ _ _ _ _ Hci Hop Hopi) as Hrun.
  rewrite Lsrc, Ldst in Hrun. cbn [memory_space] in Hrun.
  assert (has_layout (shape opi) = true) as E1
    by (destruct (shape opi) as [? ? [|]|]; done).
  assert (has_layout (shape ci) = true) as E2
    by (destruct (shape ci) as [? ? [|]|]; done).
  rewrite E1, E2 in Hrun. cbn [negb] in Hrun.
  assert (Hskip : ¬ ((src = host ∧ dst = kDefaultMemorySpace) ∨
                     (src = kDefaultMemorySpace ∧ dst = host)) →
                  HandleCopy host copy st = (Ok (), st)).
  { intros Hg. rewrite <- copy_between_host_and_device_spec in Hg.
    by destruct (copy_between_host_and_device host src dst). }
  split; [|split; [done|]].
  - intros Hg%copy_between_host_and_device_spec. rewrite Hg in Hrun.
    pose proof (instruction_at_lt _ _ _ Hci) as Hlt. fold c n in Hlt.
    eexists. split; [exact Hrun|]. cbn [changed_ parent]. fold c.
    rewrite with_async_pair_length, with_async_pair_start, with_async_pair_done.
    fold n. split; [done|]. split; [done|]. split; [done|]. split.
    { unfold replace_operand, copy_done_of. cbn. fold n.
      by rewrite decide_False by lia. }
    split; [|done]. intros j Hj. by apply with_async_pair_old.
  - intros -> Hne. apply Hskip. unfold kDefaultMemorySpace in *. lia.
Qed.

(** C10.  [HandleDynamicSlice] returns an error exactly when the result or
    the first operand has no layout, and it does so before it reads any
    memory space, leaving the graph as it was; the other operands play no
    part.  [HandleDynamicUpdateSlice] reports a missing layout exactly for
    the result, the first operand and the update operand, in this order; with
    the three layouts present its outcome depends on memory spaces only. *)
Theorem layout_checks_precede_memory_space_tests host st :
  (∀ ds i op_id opi,
     instruction_at (parent st) ds = Some i →
     operands i !! 0%nat = Some op_id →
     instruction_at (parent st) op_id = Some opi →
     ((∃ e, (HandleDynamicSlice host ds st).1 = Err e) ↔
      has_layout (shape i) = false ∨ has_layout (shape opi) = false) ∧
     (has_layout (shape i) = false →
      HandleDynamicSlice host ds st
      = (Err (InternalError (name i +:+ " does not have a layout.")), st)) ∧
     (has_layout (shape i) = true → has_layout (shape opi) = false →
      HandleDynamicSlice host ds st
      = (Err (InternalError (name i +:+ "'s operand, " +:+ name opi +:+
                             ", does not have a layout.")), st))) ∧
  (∀ dus i op_id opi upd_id upd,
     instruction_at (parent st) dus = Some i →
     operands i !! 0%nat = Some op_id →
     operands i !! 1%nat = Some upd_id →
     instruction_at (parent st) op_id = Some opi →
     instruction_at (parent st) upd_id = Some upd →
     (has_layout (shape i) = false →
      HandleDynamicUpdateSlice host dus st
      = (Err (InternalError (name i +:+ " does not have a layout.")), st)) ∧
     (has_layout (shape i) = true → has_layout (shape opi) = false →
      HandleDynamicUpdateSlice host dus st
      = (Err (InternalError (name i +:+ "'s operand, " +:+ name opi +:+
                             ", does not have a layout.")), st)) ∧
     (has_layout (shape i) = true → has_layout (shape opi) = true →
      has_layout (shape upd) = false →
      HandleDynamicUpdateSlice host dus st
      = (Err (InternalError (name i +:+ "'s update, " +:+ name upd +:+
                             ", does not have a layout.")), st)) ∧
     (∀ src dst base,
        layout (shape upd) = Some (MkLayout src) →
        layout (shape i) = Some (MkLayout dst) →
        layout (shape opi) = Some (MkLayout base) →
        ((∃ e, (HandleDynamicUpdateSlice host dus st).1 = Err e) ↔
         src = kDefaultMemorySpace ∧ dst = host ∧ base ≠ dst))).
Proof.
  split.
  - intros ds i op_id opi Hi Hop Hopi.
    rewrite (HandleDynamicSlice_run host _ _ _ _ _ Hi Hop Hopi).
    destruct (has_layout (shape i)) eqn:E1; cbn [negb].
    2:{ repeat split; eauto; done. }
    destruct (has_layout (shape opi)) eqn:E2; cbn [negb].
    2:{ repeat split; eauto; done. }
    apply has_layout_layout in E1 as [dst L2], E2 as [src L1]. rewrite L1, L2.
    split; [|done]. split; [|by intros [|]].
    intros [e He]. by destruct (_ && _).
  - intros dus i op_id opi upd_id upd Hi Hop Hupd Hopi Hu.
    rewrite (HandleDynamicUpdateSlice_run host _ _ _ _ _ _ _ Hi Hop Hupd Hopi Hu).
    split; [by intros ->|]. split; [by intros -> ->|].
    split; [by intros -> -> ->|].
    intros src dst base L3 L2 L1. rewrite L1, L2, L3. cbn [memory_space].
    assert (has_layout (shape i) = true) as ->
      by (destruct (shape i) as [? ? [|]|]; done).
    assert (has_layout (shape opi) = true) as ->
      by (destruct (shape opi) as [? ? [|]|]; done).
    assert (has_layout (shape upd) = true) as ->
      by (destruct (shape upd) as [? ? [|]|]; done).
    cbn [negb].
    repeat case_bool_decide; cbn [andb fst];
      (split; [intros [e He] | intros (? & ? & ?)]); try done; eauto.
Qed.

Lemma layout_checks_precede_memory_space_tests_witness :
  let st := MkVisitor skipped_slice_without_layout false in
  HandleDynamicSlice kHostMemorySpace 2%nat st
  = (Err (InternalError "slice does not have a layout."), st).
Proof.
  intros st.
  apply (proj1 (proj2 (proj1 (layout_checks_precede_memory_space_tests kHostMemorySpace st)
           2%nat (MkInstr "slice" kDynamicSlice f32_no_layout [0%nat; 1%nat])
           0%nat (MkInstr "x" kParameter (f32_in kDefaultMemorySpace) [])
           eq_refl eq_refl eq_refl))).
  reflexivity.
Defined.

(** The index operand of this dynamic-slice has no layout; the slice is
    rewritten all the same, and the original instruction leaves the
    computation. *)
Example HandleDynamicSlice_host_slice :
  let result :=
    HandleDynamicSlice kHostMemorySpace 2%nat
      (MkVisitor host_slice_computation false) in
  result.1 = Ok () ∧
  changed_ result.2 = true ∧
  instruction_at (parent result.2) 2%nat = None ∧
  instruction_at (parent result.2) 3%nat
  = Some (MkInstr "add" kAdd (f32_in kDefaultMemorySpace) [5%nat; 5%nat]) ∧
  instruction_at (parent result.2) 5%nat
  = Some (MkInstr "async-done" kAsyncDone (f32_in kDefaultMemorySpace)
            [4%nat]).
Proof. repeat split. Qed.

(** C4, as stated, fails: the pass stops with the missing-layout error of
    "slice", but the copy visited before it has already been rewritten. *)
Lemma Run_error_after_rewrite :
  missing_layout copy_then_bad_slice 3%nat
  = Some (InternalError "slice does not have a layout.") ∧
  ∃ module',
    Run kHostMemorySpace (MkModule [copy_then_bad_slice])
    = (Err (InternalError "slice does not have a layout."), module') ∧
    module' ≠ MkModule [copy_then_bad_slice] ∧
    (∀ c, c ∈ computations module' →
          instruction_at c 5%nat
          = Some (MkInstr "copy-done" kCopyDone (f32_in kHostMemorySpace) [4%nat])).
Proof.
  split; [reflexivity|]. eexists. split; [reflexivity|]. split; [discriminate|].
  intros c Hc. apply list_elem_of_singleton in Hc. by subst.
Qed.

Lemma well_formed_spec c :
  well_formed c = true ↔
  ∀ j instr, instruction_at c j = Some instr →
             arity_ok instr = true ∧
             ∀ o, o ∈ operands instr → present c o = true.
Proof.
  unfold well_formed. rewrite forallb_forall. split.
  - intros Hall j instr Hj. unfold instruction_at in Hj.
    destruct (instructions c !! j) as [slot|] eqn:E; [|done]. cbn in Hj. subst.
    apply list_elem_of_lookup_2, list_elem_of_In, Hall in E.
    apply andb_true_iff in E as [Ha Hops]. split; [done|].
    intros o Ho. rewrite forallb_forall in Hops. by apply Hops, list_elem_of_In.
  - intros Hwf [instr|] Hin; [|done].
    apply list_elem_of_In, list_elem_of_lookup in Hin as [j Hj].
    destruct (Hwf j instr) as [Ha Hops]; [unfold instruction_at; by rewrite Hj|].
    rewrite Ha. cbn. rewrite forallb_forall. intros o Ho. by apply Hops, list_elem_of_In.
Qed.

Lemma present_Some c i : present c i = true ↔ ∃ instr, instruction_at c i = Some instr.
Proof.
  unfold present. destruct (instruction_at c i); split; eauto; [done | by intros []].
Qed.

Lemma rewritten_other keep h start finish c j :
  j ≠ h → (j < length (instructions c))%nat →
  instruction_at (rewritten keep h start finish c) j
  = replace_operand h (S (length (instructions c))) <$> instruction_at c j.
Proof.
  intros Hne Hj. unfold rewritten. destruct keep.
  - by apply with_async_pair_old.
  - rewrite <- (with_async_pair_old h start finish c j Hj).
    unfold without_instruction, instruction_at. cbn [instructions].
    by rewrite list_lookup_insert_ne.
Qed.

Lemma rewritten_start keep h start finish c :
  (h < length (instructions c))%nat →
  instruction_at (rewritten keep h start finish c) (length (instructions c))
  = Some (replace_operand h (S (length (instructions c))) start).
Proof.
  intros Hh. unfold rewritten. destruct keep.
  - apply with_async_pair_start.
  - rewrite <- (with_async_pair_start h start finish c).
    unfold without_instruction, instruction_at. cbn [instructions].
    rewrite list_lookup_insert_ne; [done | lia].
Qed.

Lemma rewritten_finish keep h start finish c :
  (h < length (instructions c))%nat →
  instruction_at (rewritten keep h start finish c) (S (length (instructions c)))
  = Some (replace_operand h (S (length (instructions c))) finish).
Proof.
  intros Hh. unfold rewritten. destruct keep.
  - apply with_async_pair_done.
  - rewrite <- (with_async_pair_done h start finish c).
    unfold without_instruction, instruction_at. cbn [instructions].
    rewrite list_lookup_insert_ne; [done | lia].
Qed.

Lemma rewritten_length keep h start finish c :
  length (instructions (rewritten keep h start finish c))
  = S (S (length (instructions c))).
Proof.
  unfold rewritten. destruct keep; [apply with_async_pair_length|].
  unfold without_instruction. cbn [instructions].
  by rewrite length_insert, with_async_pair_length.
Qed.

Section Rewritten.
Variables (keep : bool) (h : InstrId) (start finish hi : HloInstruction).
Variable c : HloComputation.
Hypothesis Hh : instruction_at c h = Some hi.
Hypothesis Hshape : shape finish = shape hi.

Let n := length (instructions c).
Let c' := rewritten keep h start finish c.

Lemma rewritten_present j :
  j ≠ h → present c j = true → present c' j = true.
Proof.
  intros Hne [instr Hj]%present_Some. apply present_Some.
  exists (replace_operand h (S n) instr). unfold c', n in *.
  rewrite rewritten_other, Hj; [done..|]. by eapply instruction_at_lt.
Qed.

Lemma rewritten_redirect_present o :
  present c o = true →
  present c' (if decide (o = h) then S n else o) = true.
Proof.
  intros Ho. case_decide as Hoh.
  - apply present_Some. eexists. unfold c', n in *. apply rewritten_finish.
    by eapply instruction_at_lt.
  - by apply rewritten_present.
Qed.

Lemma rewritten_operand instr k o :
  operand_at c instr k = Some o →
  ∃ o', operand_at c' (replace_operand h (S n) instr) k = Some o' ∧
        shape o' = shape o.
Proof.
  intros (oid & Hk & Ho)%operand_at_Some.
  pose proof (instruction_at_lt _ _ _ Hh) as Hlt.
  unfold operand_at, replace_operand. cbn [operands].
  rewrite list_lookup_fmap, Hk. cbn. case_decide as Hoh.
  - subst oid. unfold c', n in *. rewrite rewritten_finish by done.
    eexists. split; [done|]. cbn [shape replace_operand]. congruence.
  - unfold c', n in *. rewrite rewritten_other, Ho; [|done|by eapply instruction_at_lt].
    eexists. split; [done|]. done.
Qed.

Lemma rewritten_missing_layout j :
  j ≠ h → is_Some (missing_layout c j) → is_Some (missing_layout c' j).
Proof.
  intros Hne [e He]. unfold missing_layout in *.
  destruct (instruction_at c j) as [instr|] eqn:Hj; [|done].
  assert (Hj' : instruction_at c' j = Some (replace_operand h (S n) instr)).
  { unfold c', n. rewrite rewritten_other, Hj; [done..|].
    by eapply instruction_at_lt. }
  rewrite Hj'. cbn [mbind option_bind] in *.
  change (opcode (replace_operand h (S n) instr)) with (opcode instr).
  change (shape (replace_operand h (S n) instr)) with (shape instr).
  change (name (replace_operand h (S n) instr)) with (name instr).
  destruct (opcode instr); try done.
  - destruct (operand_at c instr 0) as [o|] eqn:Ho; [|done].
    destruct (rewritten_operand _ _ _ Ho) as (o' & -> & Hso).
    cbn [mbind option_bind] in *. rewrite Hso.
    destruct (negb (has_layout (shape o))); [done|].
    destruct (negb (has_layout (shape instr))); done.
  - destruct (operand_at c instr 0) as [o|] eqn:Ho; [|done].
    destruct (rewritten_operand _ _ _ Ho) as (o' & -> & Hso).
    cbn [mbind option_bind] in *. rewrite Hso.
    destruct (negb (has_layout (shape instr))); [done|].
    destruct (negb (has_layout (shape o))); done.
  - destruct (operand_at c instr 0) as [o|] eqn:Ho; [|done].
    destruct (rewritten_operand _ _ _ Ho) as (o' & -> & Hso).
    cbn [mbind option_bind] in *. rewrite Hso.
    destruct (operand_at c instr 1) as [u|] eqn:Hu; [|done].
    destruct (rewritten_operand _ _ _ Hu) as (u' & -> & Hsu).
    cbn [mbind option_bind] in *. rewrite Hsu.
    destruct (negb (has_layout (shape instr))); [done|].
    destruct (negb (has_layout (shape o))); [done|].
    destruct (negb (has_layout (shape u))); done.
Qed.

Lemma arity_ok_replace old new instr :
  arity_ok (replace_operand old new instr) = arity_ok instr.
Proof. unfold arity_ok, replace_operand. cbn. by rewrite length_fmap. Qed.

Hypothesis Hwf : well_formed c = true.
Hypothesis Hstart_arity : arity_ok start = true.
Hypothesis Hfinish_arity : arity_ok finish = true.
Hypothesis Hstart_ops : ∀ o, o ∈ operands start → present c o = true.
Hypothesis Hfinish_ops : operands finish = [n].

Lemma rewritten_replace_ops instr :
  (∀ o, o ∈ operands instr → present c o = true) →
  ∀ o, o ∈ operands (replace_operand h (S n) instr) → present c' o = true.
Proof.
  intros Hops o Ho. unfold replace_operand in Ho. cbn [operands] in Ho.
  apply list_elem_of_fmap in Ho as (o0 & -> & Ho0).
  by apply rewritten_redirect_present, Hops.
Qed.

Lemma rewritten_well_formed : well_formed c' = true.
Proof.
  pose proof (instruction_at_lt _ _ _ Hh) as Hlt. fold n in Hlt.
  assert (Hfin : instruction_at c' (S n)
                 = Some (replace_operand h (S n) finish))
    by (by apply rewritten_finish).
  assert (Hst : instruction_at c' n = Some (replace_operand h (S n) start))
    by (by apply rewritten_start).
  assert (Hlen : length (instructions c') = S (S n))
    by apply rewritten_length.
  assert (Hother : ∀ j, j ≠ h → (j < n)%nat →
            instruction_at c' j
            = replace_operand h (S n) <$> instruction_at c j)
    by (intros; by apply rewritten_other).
  pose proof rewritten_replace_ops as Hrep.
  rewrite well_formed_spec in Hwf. apply well_formed_spec.
  intros j instr Hj.
  assert (Hjlen : (j < S (S n))%nat).
  { apply instruction_at_lt in Hj. by rewrite Hlen in Hj. }
  destruct (decide (j = S n)) as [->|Hne1].
  { rewrite Hfin in Hj. injection Hj as <-.
    rewrite arity_ok_replace. split; [done|].
    intros o Ho. unfold replace_operand in Ho. cbn [operands] in Ho.
    rewrite Hfinish_ops in Ho. apply list_elem_of_fmap in Ho as (o0 & -> & Ho0).
    apply list_elem_of_singleton in Ho0 as ->.
    rewrite decide_False by lia. apply present_Some. eauto. }
  destruct (decide (j = n)) as [->|Hne2].
  { rewrite Hst in Hj. injection Hj as <-.
    rewrite arity_ok_replace. split; [done|].
    by apply Hrep. }
  assert (Hjn : (j < n)%nat) by lia.
  destruct (decide (j = h)) as [->|Hne3].
  - unfold c', rewritten in Hj. destruct keep.
    + rewrite with_async_pair_old, Hh in Hj by done. injection Hj as <-.
      rewrite arity_ok_replace. destruct (Hwf h hi Hh) as [Ha Hops].
      split; [done|]. by apply Hrep.
    + unfold without_instruction, instruction_at in Hj. cbn [instructions] in Hj.
      rewrite list_lookup_insert_eq in Hj; [done|].
      rewrite with_async_pair_length. fold n. lia.
  - rewrite Hother in Hj by done.
    destruct (instruction_at c j) as [instr0|] eqn:Hj0; [|done].
    injection Hj as <-. rewrite arity_ok_replace.
    destruct (Hwf j instr0 Hj0) as [Ha Hops].
    split; [done|]. by apply Hrep.
Qed.

End Rewritten.

Lemma operand_of_well_formed c instr k :
  (∀ o, o ∈ operands instr → present c o = true) →
  (k < length (operands instr))%nat →
  ∃ o oi, operands instr !! k = Some o ∧ instruction_at c o = Some oi.
Proof.
  intros Hops Hk. apply lookup_lt_is_Some_2 in Hk as [o Ho].
  destruct (proj1 (present_Some c o)) as [oi Hoi].
  { eapply Hops, list_elem_of_lookup_2, Ho. }
  eauto.
Qed.

Lemma Visit_step host h hi st :
  well_formed (parent st) = true →
  instruction_at (parent st) h = Some hi →
  match Visit host h st with
  | (Ok _, st') => visit_effect h hi st st'
  | (Err e, st') => code e = kInternal ∧ st' = st
  | (Crash, _) => False
  end.
Proof.
  intros Hwf Hh. rewrite well_formed_spec in Hwf.
  destruct (Hwf h hi Hh) as [Harity Hops].
  rewrite (Visit_run _ _ _ _ Hh). unfold arity_ok in Harity.
  destruct (opcode hi) eqn:Hop; try (by left).
  - (* copy *)
    apply bool_decide_eq_true in Harity.
    destruct (operand_of_well_formed _ _ 0 Hops) as (o & oi & Ho & Hoi); [lia|].
    rewrite (HandleCopy_run _ _ _ _ _ _ Hh Ho Hoi).
    destruct (has_layout (shape oi)) eqn:E1; cbn [negb]; [|done].
    destruct (has_layout (shape hi)) eqn:E2; cbn [negb]; [|done].
    apply has_layout_layout in E1 as [src ->], E2 as [dst ->].
    destruct (copy_between_host_and_device _ _ _); [|by left].
    right. exists true, (copy_start_of hi oi o),
      (copy_done_of (parent st) hi).
    repeat split; try done.
    intros o' Ho'. cbn in Ho'. apply list_elem_of_singleton in Ho' as ->.
    apply present_Some. eauto.
  - (* dynamic-slice *)
    apply bool_decide_eq_true in Harity.
    destruct (operand_of_well_formed _ _ 0 Hops) as (o & oi & Ho & Hoi); [lia|].
    rewrite (HandleDynamicSlice_run _ _ _ _ _ _ Hh Ho Hoi).
    destruct (has_layout (shape hi)) eqn:E1; cbn [negb]; [|done].
    destruct (has_layout (shape oi)) eqn:E2; cbn [negb]; [|done].
    apply has_layout_layout in E1 as [dst ->], E2 as [src ->].
    destruct (_ && _); [|by left].
    right. exists false, (async_start_of hi [MakeScalarShape U32; MakeScalarShape S32]),
      (async_done_of (parent st) hi).
    repeat split; done.
  - (* dynamic-update-slice *)
    apply bool_decide_eq_true in Harity.
    destruct (operand_of_well_formed _ _ 0 Hops) as (o & oi & Ho & Hoi); [lia|].
    destruct (operand_of_well_formed _ _ 1 Hops) as (u & ui & Hu & Hui); [lia|].
    rewrite (HandleDynamicUpdateSlice_run _ _ _ _ _ _ _ _ Hh Ho Hu Hoi Hui).
    destruct (has_layout (shape hi)) eqn:E1; cbn [negb]; [|done].
    destruct (has_layout (shape oi)) eqn:E2; cbn [negb]; [|done].
    destruct (has_layout (shape ui)) eqn:E3; cbn [negb]; [|done].
    apply has_layout_layout in E1 as [dst ->], E2 as [base ->], E3 as [src ->].
    destruct (_ && _); [|by left].
    destruct (bool_decide _); [|done].
    right. exists false, (async_start_of hi [MakeScalarShape U32]),
      (async_done_of (parent st) hi).
    repeat split; done.
Qed.

(** A walk over present, pairwise distinct instructions of a well-formed
    computation never leaves defined behaviour, fails only with internal
    errors, and cannot succeed when some instruction on its way lacks a
    layout. *)
Lemma VisitAll_outcome host order st :
  well_formed (parent st) = true →
  NoDup order →
  (∀ j, j ∈ order → present (parent st) j = true) →
  match VisitAll host order st with
  | (Ok _, st') =>
      well_formed (parent st') = true ∧
      ∀ i, i ∈ order → missing_layout (parent st) i = None
  | (Err e, _) => code e = kInternal
  | (Crash, _) => False
  end.
Proof.
  revert st. induction order as [|h order IH]; intros st Hwf Hnd Hpres.
  { cbn. split; [done|]. intros i Hi. by apply elem_of_nil in Hi. }
  apply NoDup_cons in Hnd as [Hh_notin Hnd].
  destruct (proj1 (present_Some _ _) (Hpres h ltac:(by left))) as [hi Hh].
  pose proof (Visit_step host h hi st Hwf Hh) as Hstep.
  pose proof (λ e, Visit_missing_layout host h st e) as Hmiss.
  cbn [VisitAll]. unfold mbind, M_bind, bind.
  destruct (Visit host h st) as [[[]|e|] st1]; [|by destruct Hstep|done].
  assert (Hh_none : missing_layout (parent st) h = None).
  { destruct (missing_layout (parent st) h) as [e|]; [|done].
    by specialize (Hmiss e eq_refl). }
  destruct Hstep as [->|(keep & start & finish & -> & Hs & Ha1 & Ha2 & Hso & Hfo)].
  - specialize (IH st Hwf Hnd (λ j Hj, Hpres j ltac:(by right))).
    destruct (VisitAll host order st) as [[[]|e|] st2]; [|done..].
    destruct IH as [Hwf2 Hnone]. split; [done|].
    intros i [->|Hi]%elem_of_cons; [done | by apply Hnone].
  - cbn [parent] in *.
    assert (Hwf1 : well_formed (rewritten keep h start finish (parent st)) = true).
    { by eapply rewritten_well_formed. }
    assert (Hpres1 : ∀ j, j ∈ order →
              present (rewritten keep h start finish (parent st)) j = true).
    { intros j Hj. eapply rewritten_present; eauto; [|apply Hpres; by right].
      intros ->. done. }
    specialize (IH (MkVisitor (rewritten keep h start finish (parent st)) true)
                   Hwf1 Hnd Hpres1).
    destruct (VisitAll host order _) as [[[]|e|] st2]; [|done..].
    destruct IH as [Hwf2 Hnone]. split; [done|].
    intros i [->|Hi]%elem_of_cons; [done|].
    destruct (missing_layout (parent st) i) as [e|] eqn:Hmi; [|done].
    assert (Hne : i ≠ h) by (intros ->; done).
    destruct (rewritten_missing_layout keep h start finish hi (parent st) Hh Hs i Hne)
      as [e' He']; [by rewrite Hmi|].
    cbn [parent] in Hnone. rewrite (Hnone i Hi) in He'. done.
Qed.

Lemma elem_of_visit_order c i :
  i ∈ visit_order c ↔ present c i = true.
Proof.
  unfold visit_order. rewrite list_elem_of_filter, elem_of_seq, present_Some.
  unfold is_Some. split; [by intros [? _]|].
  intros [instr Hi]. split; [eauto|]. apply instruction_at_lt in Hi. lia.
Qed.

Lemma Accept_outcome host c changed :
  well_formed c = true →
  match Accept host (MkVisitor c changed) with
  | (Ok _, st') =>
      well_formed (parent st') = true ∧ ∀ i, missing_layout c i = None
  | (Err e, _) => code e = kInternal
  | (Crash, _) => False
  end.
Proof.
  intros Hwf. unfold Accept. cbn [parent].
  pose proof (VisitAll_outcome host (visit_order c) (MkVisitor c changed) Hwf)
    as Hout.
  destruct (VisitAll host (visit_order c) _) as [[[]|e|] st'].
  - destruct Hout as [Hwf' Hnone].
    + apply NoDup_filter, NoDup_seq.
    + intros j. by rewrite elem_of_visit_order.
    + split; [done|]. intros i.
      destruct (missing_layout c i) as [e|] eqn:Hm; [|done].
      rewrite <- Hm. apply Hnone, elem_of_visit_order. cbn [parent].
      unfold missing_layout in Hm. unfold present.
      by destruct (instruction_at c i).
  - apply Hout; [apply NoDup_filter, NoDup_seq|].
    intros j. by rewrite elem_of_visit_order.
  - apply Hout; [apply NoDup_filter, NoDup_seq|].
    intros j. by rewrite elem_of_visit_order.
Qed.

Lemma RunComputations_outcome host cs changed :
  forallb well_formed cs = true →
  match RunComputations host cs changed with
  | (Ok _, _) =>
      ∀ c i, c ∈ cs → IsFusionComputation c = false → missing_layout c i = None
  | (Err e, _) => code e = kInternal
  | (Crash, _) => False
  end.
Proof.
  revert changed. induction cs as [|c cs IH]; intros changed Hwf.
  { cbn. intros c i Hc. by apply elem_of_nil in Hc. }
  cbn [forallb] in Hwf. apply andb_true_iff in Hwf as [Hc Hcs].
  cbn [RunComputations]. destruct (IsFusionComputation c) eqn:Hf.
  - specialize (IH changed Hcs).
    destruct (RunComputations host cs changed) as [[b|e|] cs']; [|done..].
    intros c0 i [->|Hin]%elem_of_cons Hnf; [congruence | by apply IH].
  - pose proof (Accept_outcome host c changed Hc) as Hacc.
    destruct (Accept host (MkVisitor c changed)) as [[[]|e|] st']; [|done..].
    destruct Hacc as [_ Hnone]. specialize (IH (changed_ st') Hcs).
    destruct (RunComputations host cs (changed_ st')) as [[b|e|] cs']; [|done..].
    intros c0 i [->|Hin]%elem_of_cons Hnf; [apply Hnone | by apply IH].
Qed.

Lemma is_substring_app_r m a b : is_substring m b → is_substring m (a +:+ b).
Proof.
  intros (p & q & ->). exists (a +:+ p), q. by rewrite !string_app_assoc.
Qed.

Lemma is_substring_start m a : is_substring m (m +:+ a).
Proof. by exists "", a. Qed.

(** A missing-layout status names an instruction that has no layout, one of
    those the handler inspects. *)
Lemma missing_layout_names c h e :
  missing_layout c h = Some e →
  ∃ instr node,
    instruction_at c h = Some instr ∧ inspected c instr node ∧
    has_layout (shape node) = false ∧
    is_substring (name node) (message e) ∧
    is_substring "does not have a layout." (message e).
Proof.
  unfold missing_layout. intros Hm.
  destruct (instruction_at c h) as [instr|] eqn:Hh; [|done]. cbn in Hm.
  destruct (opcode instr) eqn:Hop; try done.
  - (* copy *)
    destruct (operand_at c instr 0) as [opi|] eqn:Ho; [|done]. cbn in Hm.
    destruct (has_layout (shape opi)) eqn:E1; cbn [negb] in Hm.
    + destruct (has_layout (shape instr)) eqn:E2; cbn [negb] in Hm; [done|].
      injection Hm as <-. exists instr, instr.
      split; [done|]. split; [by left|]. split; [done|]. cbn [message InternalError].
      split; [apply is_substring_start | apply is_substring_app_r].
      by exists " ", "".
    + injection Hm as <-. exists instr, opi.
      split; [done|]. split; [right; by left|]. split; [done|].
      cbn [message InternalError].
      split; [apply is_substring_start | apply is_substring_app_r].
      by exists " ", "".
  - (* dynamic-slice *)
    destruct (operand_at c instr 0) as [opi|] eqn:Ho; [|done]. cbn in Hm.
    destruct (has_layout (shape instr)) eqn:E1; cbn [negb] in Hm.
    + destruct (has_layout (shape opi)) eqn:E2; cbn [negb] in Hm; [done|].
      injection Hm as <-. exists instr, opi.
      split; [done|]. split; [right; by left|]. split; [done|].
      cbn [message InternalError]. split.
      * do 1 apply is_substring_app_r. apply is_substring_app_r.
        apply is_substring_start.
      * do 3 apply is_substring_app_r. by exists ", ", "".
    + injection Hm as <-. exists instr, instr.
      split; [done|]. split; [by left|]. split; [done|]. cbn [message InternalError].
      split; [apply is_substring_start | apply is_substring_app_r].
      by exists " ", "".
  - (* dynamic-update-slice *)
    destruct (operand_at c instr 0) as [opi|] eqn:Ho; [|done]. cbn in Hm.
    destruct (operand_at c instr 1) as [upd|] eqn:Hu; [|done]. cbn in Hm.
    destruct (has_layout (shape instr)) eqn:E1; cbn [negb] in Hm.
    + destruct (has_layout (shape opi)) eqn:E2; cbn [negb] in Hm.
      * destruct (has_layout (shape upd)) eqn:E3; cbn [negb] in Hm; [done|].
        injection Hm as <-. exists instr, upd.
        split; [done|]. split; [right; right; done|]. split; [done|].
        cbn [message InternalError]. split.
        -- apply is_substring_app_r. apply is_substring_app_r.
           apply is_substring_start.
        -- do 3 apply is_substring_app_r. by exists ", ", "".
      * injection Hm as <-. exists instr, opi.
        split; [done|]. split; [right; by left|]. split; [done|].
        cbn [message InternalError]. split.
        -- apply is_substring_app_r. apply is_substring_app_r.
           apply is_substring_start.
        -- do 3 apply is_substring_app_r. by exists ", ", "".
    + injection Hm as <-. exists instr, instr.
      split; [done|]. split; [by left|]. split; [done|]. cbn [message InternalError].
      split; [apply is_substring_start | apply is_substring_app_r].
      by exists " ", "".
Qed.

(** A handler that returns an error leaves the state as it found it; the
    error is a missing layout or the misplaced operand of a
    dynamic-update-slice. *)
Lemma Visit_error host h st e st' :
  Visit host h st = (Err e, st') →
  st' = st ∧ code e = kInternal ∧
  (missing_layout (parent st) h = Some e ∨ operand_elsewhere (parent st) h e).
Proof.
  unfold missing_layout, operand_elsewhere, operand_at.
  destruct (instruction_at (parent st) h) as [hi|] eqn:Hh.
  2:{ unfold Visit. run_m. by rewrite Hh. }
  rewrite (Visit_run _ _ _ _ Hh). cbn [mbind option_bind].
  destruct (opcode hi) eqn:Hop; try (by intros [=]).
  - (* copy *)
    destruct (operands hi !! 0%nat) as [o|] eqn:Ho.
    2:{ unfold HandleCopy. run_m. by rewrite Hh, Ho. }
    destruct (instruction_at (parent st) o) as [oi|] eqn:Hoi.
    2:{ unfold HandleCopy. run_m. rewrite Hh. cbn beta iota.
        rewrite Ho. cbn beta iota. by rewrite Hoi. }
    rewrite (HandleCopy_run _ _ _ _ _ _ Hh Ho Hoi). cbn [mbind option_bind].
    rewrite Hoi. cbn [mbind option_bind].
    destruct (negb (has_layout (shape oi))); [intros [= <- <-]; eauto|].
    destruct (negb (has_layout (shape hi))); [intros [= <- <-]; eauto|].
    destruct (layout (shape oi)) as [src|]; [|by intros [=]].
    destruct (layout (shape hi)) as [dst|]; [|by intros [=]].
    by destruct (copy_between_host_and_device _ _ _); intros [=].
  - (* dynamic-slice *)
    destruct (operands hi !! 0%nat) as [o|] eqn:Ho.
    2:{ unfold HandleDynamicSlice. run_m. by rewrite Hh, Ho. }
    destruct (instruction_at (parent st) o) as [oi|] eqn:Hoi.
    2:{ unfold HandleDynamicSlice. run_m. rewrite Hh. cbn beta iota.
        rewrite Ho. cbn beta iota. by rewrite Hoi. }
    rewrite (HandleDynamicSlice_run _ _ _ _ _ _ Hh Ho Hoi).
    cbn [mbind option_bind]. rewrite Hoi. cbn [mbind option_bind].
    destruct (negb (has_layout (shape hi))); [intros [= <- <-]; eauto|].
    destruct (negb (has_layout (shape oi))); [intros [= <- <-]; eauto|].
    destruct (layout (shape oi)) as [src|]; [|by intros [=]].
    destruct (layout (shape hi)) as [dst|]; [|by intros [=]].
    by destruct (_ && _); intros [=].
  - (* dynamic-update-slice *)
    destruct (operands hi !! 0%nat) as [o|] eqn:Ho.
    2:{ unfold HandleDynamicUpdateSlice. run_m. by rewrite Hh, Ho. }
    destruct (operands hi !! 1%nat) as [u|] eqn:Hu.
    2:{ unfold HandleDynamicUpdateSlice. run_m. rewrite Hh. cbn beta iota.
        rewrite Ho. cbn beta iota. by rewrite Hu. }
    destruct (instruction_at (parent st) o) as [oi|] eqn:Hoi.
    2:{ unfold HandleDynamicUpdateSlice. run_m. rewrite Hh. cbn beta iota.
        rewrite Ho. cbn beta iota. rewrite Hu. cbn beta iota. by rewrite Hoi. }
    destruct (instruction_at (parent st) u) as [ui|] eqn:Hui.
    2:{ unfold HandleDynamicUpdateSlice. run_m. rewrite Hh. cbn beta iota.
        rewrite Ho. cbn beta iota. rewrite Hu. cbn beta iota.
        rewrite Hoi. cbn beta iota. by rewrite Hui. }
    rewrite (HandleDynamicUpdateSlice_run _ _ _ _ _ _ _ _ Hh Ho Hu Hoi Hui).
    cbn [mbind option_bind]. rewrite Hoi. cbn [mbind option_bind].
    rewrite Hui. cbn [mbind option_bind].
    destruct (negb (has_layout (shape hi))); [intros [= <- <-]; eauto|].
    destruct (negb (has_layout (shape oi))); [intros [= <- <-]; eauto|].
    destruct (negb (has_layout (shape ui))); [intros [= <- <-]; eauto|].
    destruct (layout (shape ui)) as [src|]; [|by intros [=]].
    destruct (layout (shape hi)) as [dst|]; [|by intros [=]].
    destruct (layout (shape oi)) as [base|]; [|by intros [=]].
    destruct (_ && _); [|by intros [=]].
    destruct (bool_decide _); [by intros [=]|].
    intros [= <- <-]. split; [done|]. split; [done|]. right.
    exists hi, oi. by rewrite Ho.
Qed.

(** A walk that fails stopped at the first instruction whose handler
    failed. *)
Lemma VisitAll_stops host order st e st' :
  VisitAll host order st = (Err e, st') →
  ∃ pre h post st1,
    order = pre ++ h :: post ∧
    VisitAll host pre st = (Ok (), st1) ∧
    Visit host h st1 = (Err e, st').
Proof.
  revert st. induction order as [|h order IH]; intros st; [by intros [=]|].
  cbn [VisitAll]. unfold mbind, M_bind, bind.
  destruct (Visit host h st) as [[[]|e0|] st0] eqn:Hv.
  - intros Hrest. destruct (IH _ Hrest) as (pre & h' & post & st1 & -> & Hpre & Hh').
    exists (h :: pre), h', post, st1. split; [done|]. split; [|done].
    cbn [VisitAll]. unfold mbind, M_bind, bind. by rewrite Hv.
  - intros [= <- <-]. by exists [], h, order, st.
  - by intros [=].
Qed.

(** A pass that fails stopped in the first computation whose walk failed;
    the computations before it are as their walks left them, those after it
    were not reached. *)
Lemma RunComputations_stops host cs changed0 e cs' :
  RunComputations host cs changed0 = (Err e, cs') →
  ∃ before failing rest changed done_cs st',
    cs = before ++ failing :: rest ∧
    IsFusionComputation failing = false ∧
    RunComputations host before changed0 = (Ok changed, done_cs) ∧
    Accept host (MkVisitor failing changed) = (Err e, st') ∧
    cs' = done_cs ++ parent st' :: rest.
Proof.
  revert changed0 cs'. induction cs as [|c cs IH]; intros changed0 cs';
    [by intros [=]|].
  cbn [RunComputations]. destruct (IsFusionComputation c) eqn:Hf.
  - destruct (RunComputations host cs changed0) as [r cs2] eqn:Hrest.
    intros [= -> <-].
    destruct (IH _ _ Hrest)
      as (before & failing & rest & changed & done_cs & st' & -> & Hnf & Hb & Ha & ->).
    exists (c :: before), failing, rest, changed, (c :: done_cs), st'.
    split; [done|]. split; [done|]. split; [|done].
    cbn [RunComputations]. by rewrite Hf, Hb.
  - destruct (Accept host (MkVisitor c changed0)) as [[[]|e0|] st0] eqn:Hacc.
    + destruct (RunComputations host cs (changed_ st0)) as [r cs2] eqn:Hrest.
      intros [= -> <-].
      destruct (IH _ _ Hrest)
        as (before & failing & rest & changed & done_cs & st' & -> & Hnf & Hb & Ha & ->).
      exists (c :: before), failing, rest, changed, (parent st0 :: done_cs), st'.
      split; [done|]. split; [done|]. split; [|done].
      cbn [RunComputations]. by rewrite Hf, Hacc, Hb.
    + intros [= <- <-]. by exists [], c, cs, changed0, [], st0.
    + by intros [=].
Qed.

(** C4, amended.  In a well-formed module, if a dynamic-slice,
    dynamic-update-slice or copy of a non-fusion computation has no layout
    on its result or on an operand its handler inspects, the pass fails with
    an internal error.  The error is that of the first instruction of the
    walk whose handler fails: the computations before the failing one were
    walked to the end, the instructions of the failing computation before
    the failing instruction were handled, and the handler of the failing
    instruction returned the error without touching the graph.  The module
    that is left holds these computations as their walks left them, so the
    rewrites made before the failure stay, and the computations after the
    failing one as they were.  The error is a missing layout or the
    misplaced operand of a dynamic-update-slice; a missing layout names an
    instruction without layout among those the handler inspects. *)
Theorem Run_fails_on_missing_layout host module c i :
  well_formed_module module = true →
  c ∈ computations module →
  IsFusionComputation c = false →
  is_Some (missing_layout c i) →
  ∃ e module' before failing rest changed done_cs pre h post st1,
    Run host module = (Err e, module') ∧ code e = kInternal ∧
    computations module = before ++ failing :: rest ∧
    IsFusionComputation failing = false ∧
    RunComputations host before false = (Ok changed, done_cs) ∧
    visit_order failing = pre ++ h :: post ∧
    VisitAll host pre (MkVisitor failing changed) = (Ok (), st1) ∧
    Visit host h st1 = (Err e, st1) ∧
    module' = MkModule (done_cs ++ parent st1 :: rest) ∧
    (missing_layout (parent st1) h = Some e ∨
     operand_elsewhere (parent st1) h e) ∧
    (missing_layout (parent st1) h = Some e →
     ∃ instr node,
       instruction_at (parent st1) h = Some instr ∧
       inspected (parent st1) instr node ∧
       has_layout (shape node) = false ∧
       is_substring (name node) (message e) ∧
       is_substring "does not have a layout." (message e)).
Proof.
  intros Hwf Hc Hnf [e0 He0]. unfold Run.
  pose proof (RunComputations_outcome host (computations module) false Hwf) as H.
  destruct (RunComputations host (computations module) false) as [[b|e|] cs']
    eqn:Hrun.
  - rewrite (H c i Hc Hnf) in He0. done.
  - destruct (RunComputations_stops _ _ _ _ _ Hrun)
      as (before & failing & rest & changed & done_cs & st' & Hcs & Hf & Hb & Ha & ->).
    unfold Accept in Ha. cbn [parent] in Ha.
    destruct (VisitAll_stops _ _ _ _ _ Ha)
      as (pre & h & post & st1 & Hord & Hpre & Hv).
    destruct (Visit_error _ _ _ _ _ Hv) as (-> & Hcode & Hkind).
    exists e, (MkModule (done_cs ++ parent st1 :: rest)), before, failing, rest,
      changed, done_cs, pre, h, post, st1.
    repeat (split; [done|]). apply missing_layout_names.
  - done.
Qed.

Lemma Run_fails_on_missing_layout_witness :
  ∃ e module' before failing rest changed done_cs pre h post st1,
    Run kHostMemorySpace (MkModule [copy_then_bad_slice]) = (Err e, module') ∧
    code e = kInternal ∧
    computations (MkModule [copy_then_bad_slice])
    = before ++ failing :: rest ∧
    IsFusionComputation failing = false ∧
    RunComputations kHostMemorySpace before false = (Ok changed, done_cs) ∧
    visit_order failing = pre ++ h :: post ∧
    VisitAll kHostMemorySpace pre (MkVisitor failing changed) = (Ok (), st1) ∧
    Visit kHostMemorySpace h st1 = (Err e, st1) ∧
    module' = MkModule (done_cs ++ parent st1 :: rest) ∧
    (missing_layout (parent st1) h = Some e ∨
     operand_elsewhere (parent st1) h e) ∧
    (missing_layout (parent st1) h = Some e →
     ∃ instr node,
       instruction_at (parent st1) h = Some instr ∧
       inspected (parent st1) instr node ∧
       has_layout (shape node) = false ∧
       is_substring (name node) (message e) ∧
       is_substring "does not have a layout." (message e)).
Proof.
  apply (Run_fails_on_missing_layout kHostMemorySpace
           (MkModule [copy_then_bad_slice]) copy_then_bad_slice 3%nat).
  - reflexivity.
  - by left.
  - reflexivity.
  - by eexists.
Defined.

Lemma HandleCopy_between_host_and_device_witness :
  ∃ st',
    HandleCopy kHostMemorySpace 1%nat (MkVisitor copy_computation false)
    = (Ok (), st') ∧ changed_ st' = true ∧
    length (instructions (parent st')) = 5%nat ∧
    instruction_at (parent st') 3%nat
    = Some (MkInstr "copy-start" kCopyStart
              (TupleShape [f32_in kDefaultMemorySpace; f32_in kHostMemorySpace;
                           MakeScalarShape U32])
              [0%nat]) ∧
    instruction_at (parent st') 4%nat
    = Some (MkInstr "copy-done" kCopyDone (f32_in kDefaultMemorySpace)
              [3%nat]) ∧
    (∀ j, (j < 3)%nat →
          instruction_at (parent st') j
          = replace_operand 1 4 <$> instruction_at copy_computation j) ∧
    root_instruction (parent st') = 2%nat ∧
    IsFusionComputation (parent st') = false.
Proof.
  apply (proj1 (HandleCopy_between_host_and_device kHostMemorySpace
                  (MkVisitor copy_computation false) 1%nat
                  (MkInstr "copy" kCopy (f32_in kDefaultMemorySpace) [0%nat])
                  0%nat (MkInstr "p0" kParameter (f32_in kHostMemorySpace) [])
                  kHostMemorySpace kDefaultMemorySpace
                  eq_refl eq_refl eq_refl eq_refl eq_refl)).
  by left.
Defined.

(** * Further properties of the embedded code *)

Set Warnings "-clear-no-such-hyp".

(** ** Convolution dimension numbers and layouts *)

Section ConvLayoutFacts.
Import ConvLayouts.

Lemma c_linear_search_spec vals i : c_linear_search vals i = true ↔ i ∈ vals.
Proof.
  unfold c_linear_search. rewrite existsb_exists. split.
  - intros (x & Hx & ->%Z.eqb_eq). by apply list_elem_of_In.
  - intros Hi. exists i. split; [by apply list_elem_of_In | apply Z.eqb_refl].
Qed.

Lemma FindMissingDnum_from_spec vals steps i :
  0 ≤ i →
  (∀ j, 0 ≤ j < i → j ∈ vals) →
  let r := FindMissingDnum_from vals i steps in
  i ≤ r ≤ i + Z.of_nat steps ∧
  (∀ j, 0 ≤ j < r → j ∈ vals) ∧
  (r < i + Z.of_nat steps → r ∉ vals).
Proof.
  revert i. induction steps as [|steps IH]; intros i Hi Hbelow; cbn zeta.
  - cbn [FindMissingDnum_from]. split; [lia|]. split; [done | lia].
  - cbn [FindMissingDnum_from].
    destruct (c_linear_search vals i) eqn:E; cbn [negb].
    + apply c_linear_search_spec in E.
      destruct (IH (i + 1)) as (Hr & Hb & Hn); [lia| |].
      { intros j Hj. destruct (decide (j = i)) as [->|]; [done|]. apply Hbelow. lia. }
      split; [lia|]. split; [done|]. intros ?. apply Hn. lia.
    + split; [lia|]. split; [done|].
      intros _ Hin%c_linear_search_spec. congruence.
Qed.

(** No list holds all of 0, ..., its length. *)
Lemma initial_segment_too_long (vals : list Z) :
  (∀ j, 0 ≤ j ≤ Z.of_nat (length vals) → j ∈ vals) → False.
Proof.
  intros Hall.
  assert (Hsub : seqZ 0 (Z.of_nat (length vals) + 1) ⊆+ vals).
  { apply NoDup_submseteq; [apply NoDup_seqZ|].
    intros x Hx%elem_of_seqZ. apply Hall. lia. }
  apply submseteq_length in Hsub. rewrite length_seqZ in Hsub. lia.
Qed.

Lemma FindMissingDnum_spec (vals : list Z) :
  let r := FindMissingDnum vals in
  0 ≤ r ≤ Z.of_nat (length vals) ∧
  (r ∉ vals) ∧
  ∀ j, 0 ≤ j < r → j ∈ vals.
Proof.
  cbn zeta. unfold FindMissingDnum.
  destruct (FindMissingDnum_from_spec vals (length vals) 0) as (Hr & Hb & Hn);
    [lia | intros; lia |].
  split; [lia|]. split; [|done].
  destruct (decide (FindMissingDnum_from vals 0 (length vals)
                    < Z.of_nat (length vals))) as [Hlt|Hge]; [apply Hn; lia|].
  intros Hin. apply (initial_segment_too_long vals).
  intros j Hj. destruct (decide (j = Z.of_nat (length vals))) as [->|].
  - replace (Z.of_nat (length vals))
      with (FindMissingDnum_from vals 0 (length vals)) by lia. done.
  - apply Hb. lia.
Qed.

Lemma is_dnum_test d0 d1 ds i :
  ((i =? d0) || (i =? d1) || c_linear_search ds i) = true ↔ is_dnum d0 d1 ds i.
Proof.
  unfold is_dnum.
  rewrite !orb_true_iff, !Z.eqb_eq, c_linear_search_spec. tauto.
Qed.

Lemma FindVectorizedDim_from_spec d0 d1 ds steps i :
  match FindVectorizedDim_from d0 d1 ds i steps with
  | Some r =>
      i ≤ r < i + Z.of_nat steps ∧ ¬ is_dnum d0 d1 ds r ∧
      ∀ j, i ≤ j < r → is_dnum d0 d1 ds j
  | None => ∀ j, i ≤ j < i + Z.of_nat steps → is_dnum d0 d1 ds j
  end.
Proof.
  revert i. induction steps as [|steps IH]; intros i; cbn [FindVectorizedDim_from].
  - intros j Hj. lia.
  - destruct ((i =? d0) || (i =? d1) || c_linear_search ds i) eqn:E.
    + apply is_dnum_test in E. specialize (IH (i + 1)).
      destruct (FindVectorizedDim_from d0 d1 ds (i + 1) steps) as [r|].
      * destruct IH as (Hr & Hn & Hb). split; [lia|]. split; [done|].
        intros j Hj. destruct (decide (j = i)) as [->|]; [done|]. apply Hb. lia.
      * intros j Hj. destruct (decide (j = i)) as [->|]; [done|]. apply IH. lia.
    + split; [lia|]. split; [|intros j Hj; lia].
      rewrite <- is_dnum_test. congruence.
Qed.

Lemma FindVectorizedDim_spec (rank d0 d1 : Z) (ds : list Z) :
  match FindVectorizedDim rank d0 d1 ds with
  | Some r =>
      0 ≤ r < rank ∧ r ≠ d0 ∧ r ≠ d1 ∧ (r ∉ ds) ∧
      ∀ j, 0 ≤ j < r → j = d0 ∨ j = d1 ∨ j ∈ ds
  | None => ∀ j, 0 ≤ j < rank → j = d0 ∨ j = d1 ∨ j ∈ ds
  end.
Proof.
  unfold FindVectorizedDim.
  pose proof (FindVectorizedDim_from_spec d0 d1 ds (Z.to_nat rank) 0) as H.
  destruct (FindVectorizedDim_from d0 d1 ds 0 (Z.to_nat rank)) as [r|].
  - destruct H as (Hr & Hn & Hb). unfold is_dnum in *.
    split; [lia|]. do 3 (split; [tauto|]). intros j Hj. apply Hb. lia.
  - intros j Hj. apply H. lia.
Qed.

(** X1.  [FindMissingDnum] returns the smallest integer >= 0 that is not in
    the list: the result is not a member, every smaller non-negative integer
    is, and the result is at most the length of the list. *)
Theorem FindMissingDnum_smallest_missing (vals : list Z) :
  let r := FindMissingDnum vals in
  0 ≤ r ≤ Z.of_nat (length vals) ∧
  (r ∉ vals) ∧
  ∀ j, 0 ≤ j < r → j ∈ vals.
Proof. apply FindMissingDnum_spec. Qed.

(** X2.  [FindVectorizedDim] returns the first integer in [0, rank) that is
    none of d0, d1 and the ds, and nullopt exactly when every integer of
    that range is one of them (in particular when rank <= 0). *)
Theorem FindVectorizedDim_first_free (rank d0 d1 : Z) (ds : list Z) :
  match FindVectorizedDim rank d0 d1 ds with
  | Some r =>
      0 ≤ r < rank ∧ r ≠ d0 ∧ r ≠ d1 ∧ (r ∉ ds) ∧
      ∀ j, 0 ≤ j < r → j = d0 ∨ j = d1 ∨ j ∈ ds
  | None => ∀ j, 0 ≤ j < rank → j = d0 ∨ j = d1 ∨ j ∈ ds
  end.
Proof. apply FindVectorizedDim_spec. Qed.

(** X3.  The two searches agree: over the dimension numbers d0, d1, ds,
    [FindVectorizedDim] returns the value of [FindMissingDnum] when that
    value is below the rank, and nullopt otherwise. *)
Theorem FindVectorizedDim_is_FindMissingDnum (rank d0 d1 : Z) (ds : list Z) :
  FindVectorizedDim rank d0 d1 ds =
    if bool_decide (FindMissingDnum (d0 :: d1 :: ds) < rank)
    then Some (FindMissingDnum (d0 :: d1 :: ds)) else None.
Proof.
  pose proof (FindMissingDnum_spec (d0 :: d1 :: ds)) as (Hm & Hnot & Hbelow).
  pose proof (FindVectorizedDim_spec rank d0 d1 ds) as Hv.
  set (m := FindMissingDnum (d0 :: d1 :: ds)) in *.
  assert (Hin : ∀ j, j ∈ d0 :: d1 :: ds ↔ j = d0 ∨ j = d1 ∨ j ∈ ds).
  { intros j. rewrite !elem_of_cons. tauto. }
  destruct (FindVectorizedDim rank d0 d1 ds) as [r|].
  - destruct Hv as (Hr & H0 & H1 & Hds & Hb).
    assert (r = m) as ->.
    { destruct (Z.lt_trichotomy r m) as [Hlt|[->|Hgt]]; [|done|].
      - exfalso. specialize (Hbelow r ltac:(lia)). apply Hin in Hbelow. tauto.
      - exfalso. apply Hnot, Hin, Hb. lia. }
    by rewrite bool_decide_eq_true_2 by lia.
  - case_bool_decide as Hlt; [|done].
    exfalso. apply Hnot, Hin, Hv. lia.
Qed.

End ConvLayoutFacts.

Lemma NoDup_bounded_Permutation (l : list Z) (n : Z) :
  NoDup l → (∀ d, d ∈ l → 0 ≤ d < n) → Z.of_nat (length l) = n →
  l ≡ₚ seqZ 0 n.
Proof.
  intros Hnd Hb Hlen. apply submseteq_length_Permutation.
  - apply NoDup_submseteq; [done|]. intros d Hd. apply elem_of_seqZ.
    specialize (Hb d Hd). lia.
  - rewrite length_seqZ. lia.
Qed.

Section ConvLayoutConversions.
Import ConvLayouts.

Context {Layout : Type}.
Variable MakeLayoutFromMajorToMinor : list Z → Layout.
Variable LayoutEqual : Layout → Layout → bool.
Variable minor_to_major : Layout → list Z.
Variable DataLayoutString : DataLayout → string.
Variable FilterLayoutString : FilterLayout → string.
Variable ConvolutionDimensionNumbersToString :
  ConvolutionDimensionNumbers → string.
Variable LayoutHumanString : Layout → string.
Variable LayoutToString : Layout → string.
Variable DecimalString : Z → string.
Variable HumanStringWithLayout : Shape Layout → string.

Abbreviation ToXlaLayout :=
  (DataLayoutToXlaLayout Layout MakeLayoutFromMajorToMinor DataLayoutString).
Abbreviation ToXlaLayouts :=
  (StreamExecutorConvLayoutsToXlaLayouts Layout MakeLayoutFromMajorToMinor
     DataLayoutString FilterLayoutString ConvolutionDimensionNumbersToString).
Abbreviation ToStreamExecutorLayouts :=
  (XlaConvShapesToStreamExecutorLayouts Layout MakeLayoutFromMajorToMinor
     LayoutEqual minor_to_major DataLayoutString FilterLayoutString
     ConvolutionDimensionNumbersToString LayoutHumanString LayoutToString
     DecimalString HumanStringWithLayout).

(** X4.  For pairwise distinct batch, feature and spatial dimension numbers
    within the rank of the shape (one more than their count for the
    vectorized layouts), [DataLayoutToXlaLayout] passes to
    [MakeLayoutFromMajorToMinor], for a handled data layout, a permutation
    of all dimensions 0, ..., rank - 1: batch, feature, spatial for NCHW;
    batch, spatial, feature for NHWC; batch, feature, spatial and then the
    one dimension that the dimension numbers leave out for the vectorized
    layouts. *)
Theorem DataLayoutToXlaLayout_permutation data_layout batch feature spatial :
  let dims := batch :: feature :: spatial in
  let rank :=
    Z.of_nat (length dims) + (if is_vectorized data_layout then 1 else 0) in
  data_layout_handled data_layout = true →
  NoDup dims →
  (∀ d, d ∈ dims → 0 ≤ d < rank) →
  ∃ major_to_minor,
    ToXlaLayout data_layout batch feature spatial
    = Ok (MakeLayoutFromMajorToMinor major_to_minor) ∧
    major_to_minor ≡ₚ seqZ 0 rank ∧
    match data_layout with
    | kBatchDepthYX => major_to_minor = batch :: feature :: spatial
    | kBatchYXDepth => major_to_minor = batch :: spatial ++ [feature]
    | _ =>
        ∃ left_out,
          major_to_minor = batch :: feature :: spatial ++ [left_out] ∧
          0 ≤ left_out < rank ∧ (left_out ∉ dims) ∧
          ∀ d, 0 ≤ d < rank → d ∉ dims → d = left_out
    end.
Proof using Type.
  clear LayoutEqual minor_to_major LayoutHumanString LayoutToString
    DecimalString HumanStringWithLayout FilterLayoutString
    ConvolutionDimensionNumbersToString.
  intros dims rank Hh Hnd Hb.
  assert (Hvect : is_vectorized data_layout = true →
            dims ++ [FindMissingDnum dims] ≡ₚ seqZ 0 rank ∧
            ∃ left_out,
              batch :: feature :: spatial ++ [FindMissingDnum dims]
              = batch :: feature :: spatial ++ [left_out] ∧
              0 ≤ left_out < rank ∧ (left_out ∉ dims) ∧
              ∀ d, 0 ≤ d < rank → d ∉ dims → d = left_out).
  { intros Hv. pose proof (FindMissingDnum_spec dims) as (Hm & Hnot & _).
    assert (Hperm : dims ++ [FindMissingDnum dims] ≡ₚ seqZ 0 rank).
    { apply NoDup_bounded_Permutation.
      - apply NoDup_app. split; [done|]. split; [|apply NoDup_singleton].
        intros d Hd ->%list_elem_of_singleton. done.
      - intros d [Hd| ->%list_elem_of_singleton]%elem_of_app; [by apply Hb|].
        unfold rank. rewrite Hv. lia.
      - unfold rank. rewrite Hv, length_app. cbn. lia. }
    split; [done|]. exists (FindMissingDnum dims). split; [done|].
    split; [unfold rank; rewrite Hv; lia|]. split; [done|].
    intros d Hd Hnotin.
    assert (d ∈ dims ++ [FindMissingDnum dims]) as Hin
      by (rewrite Hperm; apply elem_of_seqZ; lia).
    apply elem_of_app in Hin as [Hin|Hin]; [done|].
    by apply list_elem_of_singleton in Hin. }
  destruct data_layout; try done; cbn in rank; unfold DataLayoutToXlaLayout.
  - (* NHWC *)
    eexists. split; [done|]. split; [|done]. apply NoDup_bounded_Permutation.
    + eapply NoDup_Permutation_proper; [|exact Hnd]. unfold dims.
      cbn. constructor. by rewrite Permutation_app_comm.
    + intros d Hd. apply Hb. unfold dims. revert Hd. cbn.
      rewrite !elem_of_cons, elem_of_app, list_elem_of_singleton. tauto.
    + unfold rank, dims. cbn. rewrite length_app. cbn. lia.
  - (* NCHW *)
    eexists. split; [done|]. split; [|done].
    apply NoDup_bounded_Permutation; [done| |].
    + intros d Hd. by apply Hb.
    + unfold rank, dims. cbn. lia.
  - (* NCHW_VECT_C, 4 *)
    destruct (Hvect eq_refl) as [Hperm Hleft].
    eexists. split; [done|]. split; [exact Hperm | exact Hleft].
  - (* NCHW_VECT_C, 32 *)
    destruct (Hvect eq_refl) as [Hperm Hleft].
    eexists. split; [done|]. split; [exact Hperm | exact Hleft].
Qed.

(** X5.  [StreamExecutorConvLayoutsToXlaLayouts] never reads its [output]
    argument: it succeeds exactly when the input data layout and the filter
    layout are handled ones, whatever [output] is, and the output layout it
    returns is the one [DataLayoutToXlaLayout] builds from the input data
    layout and the output dimension numbers. *)
Theorem StreamExecutorConvLayoutsToXlaLayouts_ignores_output
    dnums input filter output :
  (∀ output', ToXlaLayouts dnums input filter output
              = ToXlaLayouts dnums input filter output') ∧
  ((∃ layouts, ToXlaLayouts dnums input filter output = Ok layouts) ↔
   data_layout_handled input = true ∧ filter_layout_handled filter = true) ∧
  ((∃ s, ToXlaLayouts dnums input filter output = Err s) ↔
   data_layout_handled input = false ∨ filter_layout_handled filter = false) ∧
  (∀ input_layout filter_layout output_layout,
     ToXlaLayouts dnums input filter output
     = Ok (input_layout, filter_layout, output_layout) →
     ToXlaLayout input (output_batch_dimension dnums)
       (output_feature_dimension dnums) (output_spatial_dimensions dnums)
     = Ok output_layout).
Proof using Type.
  clear LayoutEqual minor_to_major LayoutHumanString LayoutToString
    DecimalString HumanStringWithLayout.
  split; [done|].
  unfold StreamExecutorConvLayoutsToXlaLayouts, DataLayoutToXlaLayout.
  destruct input, filter; cbn;
    (split; [|split]);
    try (split; [intros [? ?]; done | intros [? ?]; done]);
    try (split; [intros [? ?]; done | intros [?|?]; done]);
    try (split; [by eauto | by eauto]);
    try (split; [eauto | intros; eexists; done]);
    try (intros ? ? ? ?; simplify_eq; done).
Qed.

Lemma feature_first_or_last feature spatial :
  spatial_apart feature spatial → feature :: spatial ≠ spatial ++ [feature].
Proof using Type.
  intros [Hne Hnotin] Heq. destruct spatial as [|x spatial]; [done|].
  injection Heq as -> _. apply Hnotin. by left.
Qed.

Section RoundTrip.

Hypothesis LayoutEqual_refl : ∀ l, LayoutEqual l l = true.
Hypothesis LayoutEqual_major_to_minor :
  ∀ a b,
    LayoutEqual (MakeLayoutFromMajorToMinor a) (MakeLayoutFromMajorToMinor b)
    = true → a = b.

Lemma LayoutEqual_false a b :
  a ≠ b →
  LayoutEqual (MakeLayoutFromMajorToMinor a) (MakeLayoutFromMajorToMinor b)
  = false.
Proof using LayoutEqual_major_to_minor.
  intros Hne. destruct (LayoutEqual _ _) eqn:E; [|done].
  by apply LayoutEqual_major_to_minor in E.
Qed.

(** X6.  Round trip for the layouts without a vectorized dimension.  When
    [LayoutUtil::Equal] holds between a layout and itself and tells apart
    layouts made from different major-to-minor orders, and every feature
    dimension is set apart from at least one spatial dimension, then shapes
    carrying the layouts that [StreamExecutorConvLayoutsToXlaLayouts]
    returns for NCHW or NHWC data and OIHW or OHWI filters are mapped back
    by [XlaConvShapesToStreamExecutorLayouts] to the same input and filter
    layouts, with the input data layout returned for the output as well. *)
Theorem conv_layouts_round_trip dnums input filter output
    input_layout filter_layout output_layout input_dims filter_dims output_dims :
  input = kBatchDepthYX ∨ input = kBatchYXDepth →
  filter = kOutputInputYX ∨ filter = kOutputYXInput →
  spatial_apart (input_feature_dimension dnums) (input_spatial_dimensions dnums) →
  spatial_apart (kernel_input_feature_dimension dnums)
                (kernel_spatial_dimensions dnums) →
  spatial_apart (output_feature_dimension dnums)
                (output_spatial_dimensions dnums) →
  ToXlaLayouts dnums input filter output
  = Ok (input_layout, filter_layout, output_layout) →
  ToStreamExecutorLayouts dnums
    (MkShape Layout input_dims (Some input_layout))
    (MkShape Layout filter_dims (Some filter_layout))
    (MkShape Layout output_dims (Some output_layout))
  = Ok (input, filter, input).
Proof using LayoutEqual_refl LayoutEqual_major_to_minor.
  intros Hin Hfil Hi Hk Ho Hto.
  apply feature_first_or_last in Hi, Hk, Ho.
  assert (Hlen : ∀ (x y z : Z) l, [x] ++ l ++ [y] ≠ ([x; y] ++ l) ++ [z]).
  { intros x y z l Heq. apply (f_equal length) in Heq.
    rewrite !length_app in Heq. cbn in Heq. lia. }
  unfold XlaConvShapesToStreamExecutorLayouts, got, value. cbn.
  destruct Hin as [-> | ->], Hfil as [-> | ->]; cbn in Hto; simplify_eq; cbn;
    rewrite ?LayoutEqual_refl; cbn;
    repeat (rewrite LayoutEqual_false
              by (first [ apply Hlen | intros [=]; congruence ]); cbn);
    rewrite ?LayoutEqual_refl; cbn; done.
Qed.

End RoundTrip.

End ConvLayoutConversions.

Lemma DataLayoutToXlaLayout_permutation_witness :
  ∃ major_to_minor,
    ConvLayouts.DataLayoutToXlaLayout (list Z) reverse (λ _, "")
      ConvLayouts.kBatchDepthYX4 0 1 [3; 4]
    = Ok (reverse major_to_minor) ∧
    major_to_minor ≡ₚ seqZ 0 5 ∧
    ∃ left_out,
      major_to_minor = 0 :: 1 :: [3; 4] ++ [left_out] ∧
      0 ≤ left_out < 5 ∧ (left_out ∉ [0; 1; 3; 4]) ∧
      ∀ d, 0 ≤ d < 5 → d ∉ [0; 1; 3; 4] → d = left_out.
Proof.
  apply (DataLayoutToXlaLayout_permutation (Layout := list Z) reverse (λ _, "")
           ConvLayouts.kBatchDepthYX4 0 1 [3; 4]).
  - reflexivity.
  - compute_done.
  - intros d Hd. cbn. repeat (apply elem_of_cons in Hd as [->|Hd]; [lia|]).
    by apply elem_of_nil in Hd.
Defined.

Lemma conv_layouts_round_trip_witness :
  ConvLayouts.XlaConvShapesToStreamExecutorLayouts (list Z) reverse
    (λ a b, bool_decide (a = b)) id (λ _, "") (λ _, "") (λ _, "") (λ _, "")
    (λ _, "") (λ _, "") (λ _, "") nhwc_dnums
    (ConvLayouts.MkShape (list Z) [8; 32; 32; 16] (Some [3; 2; 1; 0]))
    (ConvLayouts.MkShape (list Z) [3; 3; 16; 64] (Some [2; 1; 0; 3]))
    (ConvLayouts.MkShape (list Z) [8; 30; 30; 64] (Some [3; 2; 1; 0]))
  = Ok (ConvLayouts.kBatchYXDepth, ConvLayouts.kOutputYXInput,
        ConvLayouts.kBatchYXDepth).
Proof.
  apply (conv_layouts_round_trip (Layout := list Z) reverse
           (λ a b, bool_decide (a = b)) id (λ _, "") (λ _, "") (λ _, "")
           (λ _, "") (λ _, "") (λ _, "") (λ _, "")
           (λ l, bool_decide_eq_true_2 _ eq_refl)
           (λ a b H, inj reverse a b (bool_decide_eq_true_1 _ H))
           nhwc_dnums ConvLayouts.kBatchYXDepth ConvLayouts.kOutputYXInput
           ConvLayouts.kBatchDepthYX).
  - by right.
  - by right.
  - split; [done | compute_done].
  - split; [done | compute_done].
  - split; [done | compute_done].
  - reflexivity.
Defined.

(** ** Buffer initialisation *)

Section BufferInitFacts.
Import BufferInit.

Lemma wrap_host_index h x :
  (h + x) `mod` host_buffer_size
  = ((if bool_decide (host_buffer_size = h) then 0 else h) + x)
      `mod` host_buffer_size.
Proof.
  case_bool_decide as Hh; [|done]. subst h.
  replace (host_buffer_size + x) with (x + 1 * host_buffer_size) by lia.
  by rewrite Z.mod_add by done.
Qed.

Lemma CHECK_LE_unsigned_in_range h :
  0 ≤ h ≤ host_buffer_size → CHECK_LE_unsigned h host_buffer_size = true.
Proof.
  intros Hh. unfold CHECK_LE_unsigned. apply bool_decide_eq_true_2.
  rewrite Z.mod_small; [lia|]. unfold host_buffer_size in *. lia.
Qed.

Lemma copies_from_nil sizeof_T cur h :
  0 ≤ h ≤ host_buffer_size → copies_from sizeof_T cur 0 h [] h.
Proof.
  intros Hh. unfold copies_from.
  split; [done|]. split; [lia|]. split; [done|].
  split; [by rewrite Z.add_0_r|]. split; [constructor|].
  intros dev j. by rewrite bool_decide_eq_false_2 by lia.
Qed.

Lemma copy_loop_spec fuel sizeof_T cur left h stream :
  0 < sizeof_T → 0 ≤ left → (Z.to_nat left ≤ fuel)%nat →
  0 ≤ h ≤ host_buffer_size → 0 ≤ cur → cur `mod` sizeof_T = 0 →
  ∃ copies h',
    copy_loop fuel sizeof_T cur left h stream
    = Some (Ok (stream ++ copies, h')) ∧
    copies_from sizeof_T cur left h copies h'.
Proof.
  intros Hs. revert cur left h stream.
  induction fuel as [|fuel IH]; intros cur left h stream Hleft Hfuel Hh Hcur Hal.
  { assert (left = 0) as -> by lia. exists [], h. cbn.
    rewrite app_nil_r. split; [done | by apply copies_from_nil]. }
  cbn [copy_loop]. case_bool_decide as Hpos.
  2:{ assert (left = 0) as -> by lia. exists [], h.
      rewrite app_nil_r. split; [done | by apply copies_from_nil]. }
  rewrite CHECK_LE_unsigned_in_range by done. cbn [negb].
  set (h1 := if bool_decide (host_buffer_size = h) then 0 else h).
  assert (Hh1 : 0 ≤ h1 < host_buffer_size).
  { unfold h1. case_bool_decide; unfold host_buffer_size in *; lia. }
  set (c := Z.min (host_buffer_size - h1) left).
  assert (Hc : 1 ≤ c ≤ left ∧ h1 + c ≤ host_buffer_size) by lia.
  destruct (IH (cur + c * sizeof_T) (left - c) (h1 + c)
              (stream ++ [MkMemcpy cur h1 (c * sizeof_T)]))
    as (copies & h' & Hrun & Hh' & Hpos' & Hzero' & Hmod & Hall & Hdev);
    [lia | lia | lia | nia | by rewrite Z.mod_add by lia |].
  exists (MkMemcpy cur h1 (c * sizeof_T) :: copies), h'.
  split. { rewrite Hrun. by rewrite <- app_assoc. }
  assert (Hdiv : (cur + c * sizeof_T) `div` sizeof_T = cur `div` sizeof_T + c)
    by (by rewrite Z.div_add by lia).
  split; [done|]. split.
  { intros _. destruct (decide (left - c = 0)) as [Hz|Hnz].
    - destruct (Hzero' Hz) as [-> _]. lia.
    - apply Hpos'. lia. }
  split; [lia|]. split.
  { rewrite Hmod. replace (h1 + c + (left - c)) with (h1 + left) by lia.
    symmetry. apply wrap_host_index. }
  split.
  { constructor.
    - unfold memcpy_in_bounds. cbn [num_bytes dst_offset src_index].
      rewrite Z.mod_mul, Z.div_mul by lia. repeat split; try lia; try nia.
    - eapply Forall_impl; [exact Hall|]. intros m [Hb Hd].
      unfold memcpy_in_bounds in *.
      replace (cur + c * sizeof_T + (left - c) * sizeof_T)
        with (cur + left * sizeof_T) in Hb by lia.
      split; [done | nia]. }
  intros dev j. unfold apply_memcpys in *. cbn [fold_left].
  rewrite Hdev, Hdiv. unfold apply_memcpy. cbn [dst_offset num_bytes src_index].
  rewrite Z.div_mul by lia.
  repeat case_bool_decide; try lia; try done; f_equal.
  - replace (h1 + c + (j - (cur `div` sizeof_T + c)))
      with (h1 + (j - cur `div` sizeof_T)) by lia.
    symmetry. apply wrap_host_index.
  - rewrite (wrap_host_index h). fold h1. rewrite Z.mod_small; lia.
Qed.

Lemma element_count_exact sizeof_T buffer_size :
  0 < sizeof_T → buffer_size `mod` sizeof_T = 0 →
  buffer_size = sizeof_T * (buffer_size `div` sizeof_T).
Proof. intros Hs Hm. apply Z.div_exact; [lia | done]. Qed.

Lemma element_count_int64 sizeof_T buffer_size :
  0 < sizeof_T → 0 ≤ buffer_size < 2 ^ 63 →
  to_int64 (buffer_size `div` sizeof_T) = buffer_size `div` sizeof_T.
Proof.
  intros Hs Hb. unfold to_int64.
  assert (0 ≤ buffer_size `div` sizeof_T ≤ buffer_size).
  { split; [apply Z.div_pos; lia|]. apply Z.div_le_upper_bound; nia. }
  rewrite Z.mod_small; lia.
Qed.

Lemma InitializeTypedBuffer_spec sizeof_T buffer_size rng_state :
  0 < sizeof_T → 0 ≤ buffer_size < 2 ^ 63 →
  buffer_size `mod` sizeof_T = 0 →
  0 ≤ rng_state ≤ host_buffer_size →
  ∃ copies rng_state',
    InitializeTypedBuffer sizeof_T buffer_size rng_state
    = Some (Ok (copies, rng_state')) ∧
    copies_from sizeof_T 0 (buffer_size `div` sizeof_T) rng_state copies
                rng_state'.
Proof.
  intros Hs Hb Hm Hr. unfold InitializeTypedBuffer.
  rewrite bool_decide_eq_true_2 by done. cbn [negb].
  rewrite element_count_int64 by done.
  destruct (copy_loop_spec (Z.to_nat (buffer_size `div` sizeof_T)) sizeof_T 0
              (buffer_size `div` sizeof_T) rng_state [])
    as (copies & h' & Hrun & Hspec); try done; try lia.
  { apply Z.div_pos; lia. }
  exists copies, h'. by rewrite Hrun.
Qed.

(** X7.  For a buffer whose size is a multiple of the element size and a
    start index within the host buffer, [InitializeTypedBuffer] returns
    normally, and after its copies device element j holds host element
    (rng_state + j) mod 10069, for every j below the element count; nothing
    else is written. *)
Theorem InitializeTypedBuffer_fills_cyclically sizeof_T buffer_size rng_state :
  0 < sizeof_T → 0 ≤ buffer_size < 2 ^ 63 →
  buffer_size `mod` sizeof_T = 0 →
  0 ≤ rng_state ≤ host_buffer_size →
  ∃ copies rng_state',
    InitializeTypedBuffer sizeof_T buffer_size rng_state
    = Some (Ok (copies, rng_state')) ∧
    ∀ dev j,
      apply_memcpys sizeof_T copies dev j =
        if bool_decide (0 ≤ j < buffer_size `div` sizeof_T)
        then Some ((rng_state + j) `mod` host_buffer_size)
        else dev j.
Proof.
  intros Hs Hb Hm Hr.
  destruct (InitializeTypedBuffer_spec _ _ _ Hs Hb Hm Hr)
    as (copies & h' & Hrun & _ & _ & _ & _ & _ & Hdev).
  exists copies, h'. split; [done|]. intros dev j.
  rewrite Hdev, Z.div_0_l by lia.
  by replace (j - 0) with j by lia.
Qed.

(** X8.  Under the same conditions every copy that [InitializeTypedBuffer]
    enqueues is non-empty, starts and ends on element boundaries, writes
    inside the device buffer and reads inside the 10069-element host
    buffer. *)
Theorem InitializeTypedBuffer_copies_in_bounds sizeof_T buffer_size rng_state :
  0 < sizeof_T → 0 ≤ buffer_size < 2 ^ 63 →
  buffer_size `mod` sizeof_T = 0 →
  0 ≤ rng_state ≤ host_buffer_size →
  ∃ copies rng_state',
    InitializeTypedBuffer sizeof_T buffer_size rng_state
    = Some (Ok (copies, rng_state')) ∧
    Forall (memcpy_in_bounds sizeof_T buffer_size) copies.
Proof.
  intros Hs Hb Hm Hr.
  destruct (InitializeTypedBuffer_spec _ _ _ Hs Hb Hm Hr)
    as (copies & h' & Hrun & _ & _ & _ & _ & Hall & _).
  exists copies, h'. split; [done|].
  eapply Forall_impl; [exact Hall|]. intros m [Hin _].
  replace (0 + buffer_size `div` sizeof_T * sizeof_T) with buffer_size in Hin;
    [done|].
  pose proof (element_count_exact _ _ Hs Hm). lia.
Qed.

(** X9.  Under the same conditions the new [*rng_state] is again an index
    within the host buffer, congruent modulo 10069 to the old one plus the
    number of elements written; it is unchanged, and nothing is copied, for
    an empty buffer, and it is positive otherwise. *)
Theorem InitializeTypedBuffer_advances_rng_state
    sizeof_T buffer_size rng_state :
  0 < sizeof_T → 0 ≤ buffer_size < 2 ^ 63 →
  buffer_size `mod` sizeof_T = 0 →
  0 ≤ rng_state ≤ host_buffer_size →
  ∃ copies rng_state',
    InitializeTypedBuffer sizeof_T buffer_size rng_state
    = Some (Ok (copies, rng_state')) ∧
    0 ≤ rng_state' ≤ host_buffer_size ∧
    rng_state' `mod` host_buffer_size
    = (rng_state + buffer_size `div` sizeof_T) `mod` host_buffer_size ∧
    (buffer_size = 0 → rng_state' = rng_state ∧ copies = []) ∧
    (buffer_size > 0 → 0 < rng_state').
Proof.
  intros Hs Hb Hm Hr.
  destruct (InitializeTypedBuffer_spec _ _ _ Hs Hb Hm Hr)
    as (copies & h' & Hrun & Hh' & Hpos & Hzero & Hmod & _ & _).
  exists copies, h'. split; [done|]. split; [done|]. split; [done|]. split.
  - intros ->. apply Hzero. by rewrite Z.div_0_l by lia.
  - intros Hgt. apply Hpos.
    pose proof (element_count_exact _ _ Hs Hm). nia.
Qed.

(** X10.  [InitializeTypedBuffer] dies on a CHECK when the buffer size is
    not a multiple of the element size, and, for a buffer of at least one
    element, when the start index is negative or above 10069. *)
Theorem InitializeTypedBuffer_check_failures sizeof_T buffer_size rng_state :
  0 < sizeof_T → 0 ≤ buffer_size < 2 ^ 63 →
  (buffer_size `mod` sizeof_T ≠ 0 →
   InitializeTypedBuffer sizeof_T buffer_size rng_state = Some Crash) ∧
  (buffer_size `mod` sizeof_T = 0 → 0 < buffer_size →
   - 2 ^ 63 ≤ rng_state < 2 ^ 63 →
   rng_state < 0 ∨ host_buffer_size < rng_state →
   InitializeTypedBuffer sizeof_T buffer_size rng_state = Some Crash).
Proof.
  intros Hs Hb. unfold InitializeTypedBuffer. split.
  - intros Hm. by rewrite bool_decide_eq_false_2 by congruence.
  - intros Hm Hpos Hrange Hbad. rewrite bool_decide_eq_true_2 by done.
    cbn [negb]. rewrite element_count_int64 by done.
    assert (0 < buffer_size `div` sizeof_T).
    { pose proof (element_count_exact _ _ Hs Hm). nia. }
    destruct (Z.to_nat (buffer_size `div` sizeof_T)) as [|fuel] eqn:Hf; [lia|].
    cbn [copy_loop]. rewrite bool_decide_eq_true_2 by lia.
    unfold CHECK_LE_unsigned. rewrite bool_decide_eq_false_2; [done|].
    unfold host_buffer_size in *. destruct Hbad as [Hneg|Hbig].
    + replace rng_state with (rng_state + 2 ^ 64 + (-1) * 2 ^ 64) by lia.
      rewrite Z.mod_add by lia. rewrite Z.mod_small; lia.
    + rewrite Z.mod_small; lia.
Qed.

End BufferInitFacts.

(** ** More on the asyncifier pass *)

Lemma HandleCopy_result host h hi st :
  instruction_at (parent st) h = Some hi → opcode hi = kCopy →
  visit_result h st (HandleCopy host h st).1 (HandleCopy host h st).2.
Proof.
  intros Hh Hop.
  destruct (operands hi !! 0%nat) as [o|] eqn:Ho.
  2:{ left. unfold HandleCopy. run_m. by rewrite Hh, Ho. }
  destruct (instruction_at (parent st) o) as [oi|] eqn:Hoi.
  2:{ left. unfold HandleCopy. run_m. rewrite Hh. cbn beta iota.
      rewrite Ho. cbn beta iota. by rewrite Hoi. }
  rewrite (HandleCopy_run _ _ _ _ _ _ Hh Ho Hoi).
  destruct (negb (has_layout (shape oi))); [by left|].
  destruct (negb (has_layout (shape hi))); [by left|].
  destruct (layout (shape oi)) as [src|]; [|by left].
  destruct (layout (shape hi)) as [dst|]; [|by left].
  destruct (copy_between_host_and_device _ _ _); [|by left].
  right. exists true, (copy_start_of hi oi o), (copy_done_of (parent st) hi), hi.
  repeat split; done.
Qed.

Lemma HandleDynamicSlice_result host h hi st :
  instruction_at (parent st) h = Some hi → opcode hi = kDynamicSlice →
  visit_result h st (HandleDynamicSlice host h st).1
               (HandleDynamicSlice host h st).2.
Proof.
  intros Hh Hop.
  destruct (operands hi !! 0%nat) as [o|] eqn:Ho.
  2:{ left. unfold HandleDynamicSlice. run_m. by rewrite Hh, Ho. }
  destruct (instruction_at (parent st) o) as [oi|] eqn:Hoi.
  2:{ left. unfold HandleDynamicSlice. run_m. rewrite Hh. cbn beta iota.
      rewrite Ho. cbn beta iota. by rewrite Hoi. }
  rewrite (HandleDynamicSlice_run _ _ _ _ _ _ Hh Ho Hoi).
  destruct (negb (has_layout (shape hi))); [by left|].
  destruct (negb (has_layout (shape oi))); [by left|].
  destruct (layout (shape oi)) as [src|]; [|by left].
  destruct (layout (shape hi)) as [dst|]; [|by left].
  destruct (_ && _); [|by left].
  right.
  exists false, (async_start_of hi [MakeScalarShape U32; MakeScalarShape S32]),
    (async_done_of (parent st) hi), hi.
  repeat split; try done. intros _. by left.
Qed.

Lemma HandleDynamicUpdateSlice_result host h hi st :
  instruction_at (parent st) h = Some hi → opcode hi = kDynamicUpdateSlice →
  visit_result h st (HandleDynamicUpdateSlice host h st).1
               (HandleDynamicUpdateSlice host h st).2.
Proof.
  intros Hh Hop.
  destruct (operands hi !! 0%nat) as [o|] eqn:Ho.
  2:{ left. unfold HandleDynamicUpdateSlice. run_m. by rewrite Hh, Ho. }
  destruct (operands hi !! 1%nat) as [u|] eqn:Hu.
  2:{ left. unfold HandleDynamicUpdateSlice. run_m. rewrite Hh. cbn beta iota.
      rewrite Ho. cbn beta iota. by rewrite Hu. }
  destruct (instruction_at (parent st) o) as [oi|] eqn:Hoi.
  2:{ left. unfold HandleDynamicUpdateSlice. run_m. rewrite Hh. cbn beta iota.
      rewrite Ho. cbn beta iota. rewrite Hu. cbn beta iota. by rewrite Hoi. }
  destruct (instruction_at (parent st) u) as [ui|] eqn:Hui.
  2:{ left. unfold HandleDynamicUpdateSlice. run_m. rewrite Hh. cbn beta iota.
      rewrite Ho. cbn beta iota. rewrite Hu. cbn beta iota.
      rewrite Hoi. cbn beta iota. by rewrite Hui. }
  rewrite (HandleDynamicUpdateSlice_run _ _ _ _ _ _ _ _ Hh Ho Hu Hoi Hui).
  destruct (negb (has_layout (shape hi))); [by left|].
  destruct (negb (has_layout (shape oi))); [by left|].
  destruct (negb (has_layout (shape ui))); [by left|].
  destruct (layout (shape ui)) as [src|]; [|by left].
  destruct (layout (shape hi)) as [dst|]; [|by left].
  destruct (layout (shape oi)) as [base|]; [|by left].
  destruct (_ && _); [|by left].
  destruct (bool_decide _); [|by left].
  right.
  exists false, (async_start_of hi [MakeScalarShape U32]),
    (async_done_of (parent st) hi), hi.
  repeat split; try done. intros _. by right.
Qed.

Lemma Visit_result host h st :
  visit_result h st (Visit host h st).1 (Visit host h st).2.
Proof.
  destruct (instruction_at (parent st) h) as [hi|] eqn:Hh.
  2:{ left. unfold Visit. run_m. by rewrite Hh. }
  rewrite (Visit_run _ _ _ _ Hh).
  destruct (opcode hi) eqn:Hop; try (by left).
  - by eapply HandleCopy_result.
  - by eapply HandleDynamicSlice_result.
  - by eapply HandleDynamicUpdateSlice_result.
Qed.

Section WalkRelation.

(** A relation between computations that every rewrite step respects holds
    between the computations before and after [Run]. *)
Variable R : HloComputation → HloComputation → Prop.
Hypothesis R_refl : ∀ c, R c c.
Hypothesis R_trans : ∀ c1 c2 c3, R c1 c2 → R c2 c3 → R c1 c3.
Hypothesis R_step :
  ∀ keep h start finish hi c,
    instruction_at c h = Some hi →
    shape finish = shape hi →
    (keep = true → opcode hi = kCopy) →
    (keep = false →
     opcode hi = kDynamicSlice ∨ opcode hi = kDynamicUpdateSlice) →
    R c (rewritten keep h start finish c).

Lemma Visit_rel host h st : R (parent st) (parent (Visit host h st).2).
Proof.
  destruct (Visit_result host h st)
    as [->|(keep & start & finish & hi & Hh & _ & -> & Hs & Hk & Hr)];
    [apply R_refl | by eapply R_step].
Qed.

Lemma VisitAll_rel host order st :
  R (parent st) (parent (VisitAll host order st).2).
Proof.
  revert st. induction order as [|h order IH]; intros st; [apply R_refl|].
  cbn [VisitAll]. unfold mbind, M_bind, bind.
  pose proof (Visit_rel host h st) as Hv.
  destruct (Visit host h st) as [[[]|e|] st1]; cbn [snd] in *; [|done..].
  eapply R_trans; [exact Hv | apply IH].
Qed.

Lemma untouched_rel cs :
  Forall2 (λ c c', R c c' ∧ (IsFusionComputation c = true → c' = c)) cs cs.
Proof.
  induction cs as [|c cs IH]; [constructor|].
  constructor; [split; [apply R_refl | done] | exact IH].
Qed.

Lemma RunComputations_rel host cs changed :
  Forall2 (λ c c', R c c' ∧ (IsFusionComputation c = true → c' = c))
          cs (RunComputations host cs changed).2.
Proof.
  revert changed. induction cs as [|c cs IH]; intros changed; [constructor|].
  cbn [RunComputations]. destruct (IsFusionComputation c) eqn:Hf.
  - specialize (IH changed).
    destruct (RunComputations host cs changed) as [r cs'].
    constructor; [split; [apply R_refl | done] | done].
  - pose proof (VisitAll_rel host (visit_order c) (MkVisitor c changed)) as Hv.
    unfold Accept. cbn [parent] in *.
    pose proof (untouched_rel cs) as Hrest.
    destruct (VisitAll host (visit_order c) _) as [[[]|e|] st']; cbn [snd] in *.
    + specialize (IH (changed_ st')).
      destruct (RunComputations host cs (changed_ st')) as [r cs'].
      constructor; [split; [done | congruence] | done].
    + constructor; [split; [done | congruence] | done].
    + constructor; [split; [done | congruence] | done].
Qed.

End WalkRelation.

Lemma same_instruction_replace old new instr :
  same_instruction instr (replace_operand old new instr).
Proof. unfold same_instruction, replace_operand. cbn. by rewrite length_fmap. Qed.

Lemma instructions_kept_step keep h start finish hi c :
  instruction_at c h = Some hi →
  (keep = false →
   opcode hi = kDynamicSlice ∨ opcode hi = kDynamicUpdateSlice) →
  instructions_kept c (rewritten keep h start finish c).
Proof.
  intros Hh Hremoved j instr Hj Hds Hdus.
  pose proof (instruction_at_lt _ _ _ Hj) as Hlt.
  exists (replace_operand h (S (length (instructions c))) instr).
  split; [|apply same_instruction_replace].
  destruct (decide (j = h)) as [->|Hne].
  - assert (instr = hi) as -> by congruence.
    destruct keep; [|destruct Hremoved as [?|?]; done].
    unfold rewritten. by rewrite with_async_pair_old, Hh.
  - by rewrite rewritten_other, Hj.
Qed.

Lemma instructions_kept_trans c1 c2 c3 :
  instructions_kept c1 c2 → instructions_kept c2 c3 → instructions_kept c1 c3.
Proof.
  intros H12 H23 j instr Hj Hds Hdus.
  destruct (H12 j instr Hj Hds Hdus) as (i2 & Hj2 & Hn2 & Ho2 & Hs2 & Hl2).
  destruct (H23 j i2 Hj2) as (i3 & Hj3 & Hn3 & Ho3 & Hs3 & Hl3);
    [congruence.. |].
  exists i3. split; [done|]. unfold same_instruction. repeat split; congruence.
Qed.

(** X12.  Whatever the outcome of [Run], every instruction that is neither
    a dynamic-slice nor a dynamic-update-slice is still in its computation
    afterwards, at the same index, with the same name, opcode, shape and
    number of operands: the pass removes nothing else. *)
Theorem Run_keeps_other_instructions host module k c :
  computations module !! k = Some c →
  ∃ c', computations (Run host module).2 !! k = Some c' ∧
        instructions_kept c c'.
Proof.
  intros Hk. unfold Run.
  pose proof (RunComputations_rel instructions_kept) as Hrel.
  specialize (Hrel ltac:(intros c0 j instr Hj _ _; exists instr;
                         by repeat split)
                   instructions_kept_trans).
  specialize (Hrel ltac:(intros; by eapply instructions_kept_step)
                   host (computations module) false).
  destruct (RunComputations host (computations module) false) as [r cs'].
  cbn [snd computations] in *.
  destruct (Forall2_lookup_l _ _ _ _ _ Hrel Hk) as (c' & Hk' & Hkept & _).
  eauto.
Qed.

Lemma root_shape_kept_step keep h start finish hi c :
  instruction_at c h = Some hi →
  shape finish = shape hi →
  root_shape_kept c (rewritten keep h start finish c).
Proof.
  intros Hh Hs [s Hroot]. unfold root_shape in *.
  pose proof (instruction_at_lt _ _ _ Hh) as Hlt.
  assert (Hr : root_instruction (rewritten keep h start finish c)
               = if decide (root_instruction c = h)
                 then S (length (instructions c)) else root_instruction c)
    by (by destruct keep).
  rewrite Hr. case_decide as Hrh.
  - rewrite rewritten_finish by done. rewrite Hrh, Hh. cbn. congruence.
  - destruct (instruction_at c (root_instruction c)) as [ri|] eqn:Hri; [|done].
    rewrite rewritten_other, Hri; [done..|]. by eapply instruction_at_lt.
Qed.

(** X13.  Whatever the outcome of [Run], a computation whose root is one of
    its instructions has a root of the same shape afterwards. *)
Theorem Run_keeps_root_shape host module k c :
  computations module !! k = Some c →
  is_Some (root_shape c) →
  ∃ c', computations (Run host module).2 !! k = Some c' ∧
        root_shape c' = root_shape c.
Proof.
  intros Hk Hroot. unfold Run.
  pose proof (RunComputations_rel root_shape_kept) as Hrel.
  specialize (Hrel ltac:(by intros c0 _)).
  specialize (Hrel ltac:(intros c1 c2 c3 H12 H23 H1; rewrite <- (H12 H1);
                         apply H23; by rewrite (H12 H1))).
  specialize (Hrel ltac:(intros; by eapply root_shape_kept_step)
                   host (computations module) false).
  destruct (RunComputations host (computations module) false) as [r cs'].
  cbn [snd computations] in *.
  destruct (Forall2_lookup_l _ _ _ _ _ Hrel Hk) as (c' & Hk' & Hkept & _).
  eauto.
Qed.

Lemma moved_on_trans st1 st2 st3 :
  moved_on st1 st2 → moved_on st2 st3 → moved_on st1 st3.
Proof.
  intros [->|[Hc2 Hl2]] [->|[Hc3 Hl3]]; [by left | right.. ]; split; try done.
  lia.
Qed.

Lemma Visit_moved_on host h st : moved_on st (Visit host h st).2.
Proof.
  destruct (Visit_result host h st)
    as [->|(keep & start & finish & hi & Hh & _ & -> & _)]; [by left|].
  right. cbn [changed_ parent]. rewrite rewritten_length. split; [done | lia].
Qed.

Lemma VisitAll_moved_on host order st : moved_on st (VisitAll host order st).2.
Proof.
  revert st. induction order as [|h order IH]; intros st; [by left|].
  cbn [VisitAll]. unfold mbind, M_bind, bind.
  pose proof (Visit_moved_on host h st) as Hv.
  destruct (Visit host h st) as [[[]|e|] st1]; cbn [snd] in *; [|done..].
  eapply moved_on_trans; [exact Hv | apply IH].
Qed.

Lemma RunComputations_changed host cs changed :
  match RunComputations host cs changed with
  | (Ok b, cs') => (b = changed ∧ cs' = cs) ∨ (b = true ∧ cs' ≠ cs)
  | _ => True
  end.
Proof.
  revert changed. induction cs as [|c cs IH]; intros changed; [by left|].
  cbn [RunComputations]. destruct (IsFusionComputation c).
  - specialize (IH changed).
    destruct (RunComputations host cs changed) as [[b|e|] cs']; [|done..].
    destruct IH as [[-> ->]|[-> Hne]]; [by left | right].
    split; [done | congruence].
  - pose proof (VisitAll_moved_on host (visit_order c) (MkVisitor c changed))
      as Hm.
    unfold Accept. cbn [parent].
    destruct (VisitAll host (visit_order c) _) as [[[]|e|] st']; [|done..].
    cbn [snd] in Hm. specialize (IH (changed_ st')).
    destruct (RunComputations host cs (changed_ st')) as [[b|e|] cs']; [|done..].
    destruct Hm as [->|[Hch Hlen]]; cbn [parent changed_] in *.
    + destruct IH as [[-> ->]|[-> Hne]]; [by left | right].
      split; [done | congruence].
    + right. rewrite Hch in IH. split; [by destruct IH as [[-> _]|[-> _]]|].
      intros [= Hc _]. rewrite Hc in Hlen. lia.
Qed.

(** X14.  The flag returned by a successful [Run] is exact: it is false
    exactly when the module comes back as it went in. *)
Theorem Run_changed_flag_exact host module changed module' :
  Run host module = (Ok changed, module') →
  (changed = false ↔ module' = module).
Proof.
  unfold Run. intros Hrun.
  pose proof (RunComputations_changed host (computations module) false) as H.
  destruct (RunComputations host (computations module) false) as [r cs'].
  injection Hrun as -> <-. destruct module as [cs]. cbn [computations] in *.
  destruct H as [[-> ->]|[-> Hne]]; [done|].
  split; [done | intros [= ?]; done].
Qed.

Lemma RunComputations_well_formed host cs changed :
  forallb well_formed cs = true →
  match RunComputations host cs changed with
  | (Ok _, cs') => forallb well_formed cs' = true
  | _ => True
  end.
Proof.
  revert changed. induction cs as [|c cs IH]; intros changed Hwf; [done|].
  cbn [forallb] in Hwf. apply andb_true_iff in Hwf as [Hc Hcs].
  cbn [RunComputations]. destruct (IsFusionComputation c).
  - specialize (IH changed Hcs).
    destruct (RunComputations host cs changed) as [[b|e|] cs']; [|done..].
    cbn [forallb]. by rewrite Hc, IH.
  - pose proof (Accept_outcome host c changed Hc) as Hacc.
    destruct (Accept host (MkVisitor c changed)) as [[[]|e|] st']; [|done..].
    destruct Hacc as [Hwf' _]. specialize (IH (changed_ st') Hcs).
    destruct (RunComputations host cs (changed_ st')) as [[b|e|] cs']; [|done..].
    cbn [forallb]. by rewrite Hwf', IH.
Qed.

(** X15.  On a well-formed module [Run] never leaves defined behaviour: it
    fails with an internal error or succeeds, and when it succeeds the
    module it leaves is well-formed again (every operand is an instruction
    of its computation). *)
Theorem Run_keeps_well_formed host module :
  well_formed_module module = true →
  match Run host module with
  | (Ok _, module') => well_formed_module module' = true
  | (Err s, _) => code s = kInternal
  | (Crash, _) => False
  end.
Proof.
  intros Hwf. unfold Run, well_formed_module in *.
  pose proof (RunComputations_well_formed host _ false Hwf) as H1.
  pose proof (RunComputations_outcome host _ false Hwf) as H2.
  by destruct (RunComputations host (computations module) false)
    as [[b|e|] cs'].
Qed.

(** X16.  A dynamic-slice whose result and first operand have layouts is
    rewritten exactly when the operand is in host memory and the result in
    the default (device) memory space: the handler then leaves what
    [CreateAsyncInstructions], called with a u32 context shape and an s32
    transfer-size shape, leaves, and sets the changed flag.  Any other
    dynamic-slice is left untouched, with the changed flag as it was. *)
Theorem HandleDynamicSlice_from_host_to_device
    host st ds i op_id opi src dst :
  instruction_at (parent st) ds = Some i →
  operands i !! 0%nat = Some op_id →
  instruction_at (parent st) op_id = Some opi →
  layout (shape opi) = Some (MkLayout src) →
  layout (shape i) = Some (MkLayout dst) →
  (src = host ∧ dst = kDefaultMemorySpace →
   HandleDynamicSlice host ds st
   = (Ok (),
      MkVisitor
        (parent (CreateAsyncInstructions ds
                   [MakeScalarShape U32; MakeScalarShape S32] st).2)
        true)) ∧
  (¬ (src = host ∧ dst = kDefaultMemorySpace) →
   HandleDynamicSlice host ds st = (Ok (), st)).
Proof.
  intros Hi Hop Hopi Lsrc Ldst.
  rewrite (HandleDynamicSlice_run host _ _ _ _ _ Hi Hop Hopi), Lsrc, Ldst.
  rewrite (CreateAsyncInstructions_run _ _ _ _ Hi). cbn [memory_space snd parent].
  assert (has_layout (shape opi) = true) as ->
    by (destruct (shape opi) as [? ? [|]|]; done).
  assert (has_layout (shape i) = true) as ->
    by (destruct (shape i) as [? ? [|]|]; done).
  cbn [negb]. split.
  - intros [-> ->]. by rewrite !bool_decide_eq_true_2 by done.
  - intros Hn. destruct (_ && _) eqn:E; [|done].
    apply andb_true_iff in E as [?%bool_decide_eq_true ?%bool_decide_eq_true].
    tauto.
Qed.

(** X17.  A dynamic-update-slice whose result, first operand and update
    have layouts is rewritten exactly when the update is in the default
    (device) memory space, the result in host memory and the first operand
    in the memory space of the result: the handler then leaves what
    [CreateAsyncInstructions], called with a u32 context shape, leaves, and
    sets the changed flag.  With update and result as said but the first
    operand elsewhere it fails, and in every other case it leaves the
    computation untouched. *)
Theorem HandleDynamicUpdateSlice_from_device_to_host
    host st dus i op_id opi upd_id upd src dst base :
  instruction_at (parent st) dus = Some i →
  operands i !! 0%nat = Some op_id →
  operands i !! 1%nat = Some upd_id →
  instruction_at (parent st) op_id = Some opi →
  instruction_at (parent st) upd_id = Some upd →
  layout (shape upd) = Some (MkLayout src) →
  layout (shape i) = Some (MkLayout dst) →
  layout (shape opi) = Some (MkLayout base) →
  (src = kDefaultMemorySpace ∧ dst = host ∧ base = dst →
   HandleDynamicUpdateSlice host dus st
   = (Ok (),
      MkVisitor
        (parent (CreateAsyncInstructions dus [MakeScalarShape U32] st).2)
        true)) ∧
  (src = kDefaultMemorySpace ∧ dst = host ∧ base ≠ dst →
   HandleDynamicUpdateSlice host dus st
   = (Err (InternalError
             ("Unexpected that " +:+ name opi +:+
              "'s memory space is not the same as the dynamic-update-slice.")),
      st)) ∧
  (¬ (src = kDefaultMemorySpace ∧ dst = host) →
   HandleDynamicUpdateSlice host dus st = (Ok (), st)).
Proof.
  intros Hi Hop Hupd Hopi Hu Lsrc Ldst Lbase.
  rewrite (HandleDynamicUpdateSlice_run host _ _ _ _ _ _ _ Hi Hop Hupd Hopi Hu).
  rewrite Lsrc, Ldst, Lbase, (CreateAsyncInstructions_run _ _ _ _ Hi).
  cbn [memory_space snd parent].
  assert (has_layout (shape opi) = true) as ->
    by (destruct (shape opi) as [? ? [|]|]; done).
  assert (has_layout (shape i) = true) as ->
    by (destruct (shape i) as [? ? [|]|]; done).
  assert (has_layout (shape upd) = true) as ->
    by (destruct (shape upd) as [? ? [|]|]; done).
  cbn [negb]. split; [|split].
  - intros (-> & -> & ->). by rewrite !bool_decide_eq_true_2 by done.
  - intros (-> & -> & Hne). rewrite !bool_decide_eq_true_2 by done.
    by rewrite bool_decide_eq_false_2 by done.
  - intros Hn. destruct (_ && _) eqn:E; [|done].
    apply andb_true_iff in E as [?%bool_decide_eq_true ?%bool_decide_eq_true].
    tauto.
Qed.

Lemma HandleCopy_off_host host h hi st :
  instruction_at (parent st) h = Some hi →
  nothing_in host (parent st) →
  (HandleCopy host h st).2 = st.
Proof.
  intros Hh Hoff.
  destruct (operands hi !! 0%nat) as [o|] eqn:Ho.
  2:{ unfold HandleCopy. run_m. by rewrite Hh, Ho. }
  destruct (instruction_at (parent st) o) as [oi|] eqn:Hoi.
  2:{ unfold HandleCopy. run_m. rewrite Hh. cbn beta iota.
      rewrite Ho. cbn beta iota. by rewrite Hoi. }
  rewrite (HandleCopy_run _ _ _ _ _ _ Hh Ho Hoi).
  destruct (negb (has_layout (shape oi))); [done|].
  destruct (negb (has_layout (shape hi))); [done|].
  destruct (layout (shape oi)) as [src|] eqn:Lsrc; [|done].
  destruct (layout (shape hi)) as [dst|] eqn:Ldst; [|done].
  pose proof (Hoff _ _ _ Hoi Lsrc). pose proof (Hoff _ _ _ Hh Ldst).
  unfold copy_between_host_and_device.
  rewrite (bool_decide_eq_false_2 (memory_space src = host)) by done.
  rewrite (bool_decide_eq_false_2 (memory_space dst = host)) by done.
  by rewrite andb_false_r.
Qed.

Lemma HandleDynamicSlice_off_host host h hi st :
  instruction_at (parent st) h = Some hi →
  nothing_in host (parent st) →
  (HandleDynamicSlice host h st).2 = st.
Proof.
  intros Hh Hoff.
  destruct (operands hi !! 0%nat) as [o|] eqn:Ho.
  2:{ unfold HandleDynamicSlice. run_m. by rewrite Hh, Ho. }
  destruct (instruction_at (parent st) o) as [oi|] eqn:Hoi.
  2:{ unfold HandleDynamicSlice. run_m. rewrite Hh. cbn beta iota.
      rewrite Ho. cbn beta iota. by rewrite Hoi. }
  rewrite (HandleDynamicSlice_run _ _ _ _ _ _ Hh Ho Hoi).
  destruct (negb (has_layout (shape hi))); [done|].
  destruct (negb (has_layout (shape oi))); [done|].
  destruct (layout (shape oi)) as [src|] eqn:Lsrc; [|done].
  destruct (layout (shape hi)) as [dst|] eqn:Ldst; [|done].
  pose proof (Hoff _ _ _ Hoi Lsrc).
  by rewrite (bool_decide_eq_false_2 (memory_space src = host)) by done.
Qed.

Lemma HandleDynamicUpdateSlice_off_host host h hi st :
  instruction_at (parent st) h = Some hi →
  nothing_in host (parent st) →
  (HandleDynamicUpdateSlice host h st).2 = st.
Proof.
  intros Hh Hoff.
  destruct (operands hi !! 0%nat) as [o|] eqn:Ho.
  2:{ unfold HandleDynamicUpdateSlice. run_m. by rewrite Hh, Ho. }
  destruct (operands hi !! 1%nat) as [u|] eqn:Hu.
  2:{ unfold HandleDynamicUpdateSlice. run_m. rewrite Hh. cbn beta iota.
      rewrite Ho. cbn beta iota. by rewrite Hu. }
  destruct (instruction_at (parent st) o) as [oi|] eqn:Hoi.
  2:{ unfold HandleDynamicUpdateSlice. run_m. rewrite Hh. cbn beta iota.
      rewrite Ho. cbn beta iota. rewrite Hu. cbn beta iota. by rewrite Hoi. }
  destruct (instruction_at (parent st) u) as [ui|] eqn:Hui.
  2:{ unfold HandleDynamicUpdateSlice. run_m. rewrite Hh. cbn beta iota.
      rewrite Ho. cbn beta iota. rewrite Hu. cbn beta iota.
      rewrite Hoi. cbn beta iota. by rewrite Hui. }
  rewrite (HandleDynamicUpdateSlice_run _ _ _ _ _ _ _ _ Hh Ho Hu Hoi Hui).
  destruct (negb (has_layout (shape hi))); [done|].
  destruct (negb (has_layout (shape oi))); [done|].
  destruct (negb (has_layout (shape ui))); [done|].
  destruct (layout (shape ui)) as [src|]; [|done].
  destruct (layout (shape hi)) as [dst|] eqn:Ldst; [|done].
  destruct (layout (shape oi)) as [base|]; [|done].
  pose proof (Hoff _ _ _ Hh Ldst).
  rewrite (bool_decide_eq_false_2 (memory_space dst = host)) by done.
  by rewrite andb_false_r.
Qed.

Lemma Visit_off_host host h st :
  nothing_in host (parent st) → (Visit host h st).2 = st.
Proof.
  intros Hoff.
  destruct (instruction_at (parent st) h) as [hi|] eqn:Hh.
  2:{ unfold Visit. run_m. by rewrite Hh. }
  rewrite (Visit_run _ _ _ _ Hh).
  destruct (opcode hi); try done.
  - by eapply HandleCopy_off_host.
  - by eapply HandleDynamicSlice_off_host.
  - by eapply HandleDynamicUpdateSlice_off_host.
Qed.

Lemma VisitAll_off_host host order st :
  nothing_in host (parent st) → (VisitAll host order st).2 = st.
Proof.
  intros Hoff. induction order as [|h order IH]; [done|].
  cbn [VisitAll]. unfold mbind, M_bind, bind.
  pose proof (Visit_off_host host h st Hoff) as Hv.
  destruct (Visit host h st) as [[[]|e|] st1]; cbn [snd] in *; by subst.
Qed.

Lemma RunComputations_off_host host cs changed :
  (∀ c, c ∈ cs → IsFusionComputation c = false → nothing_in host c) →
  (RunComputations host cs changed).2 = cs ∧
  ∀ b, (RunComputations host cs changed).1 = Ok b → b = changed.
Proof.
  induction cs as [|c cs IH]; intros Hoff.
  { split; [done|]. by intros b [= <-]. }
  destruct IH as [IHcs IHb].
  { intros c0 Hin. apply Hoff. by right. }
  cbn [RunComputations]. destruct (IsFusionComputation c) eqn:Hf.
  - destruct (RunComputations host cs changed) as [r cs']. cbn [fst snd] in *.
    by subst.
  - pose proof (VisitAll_off_host host (visit_order c) (MkVisitor c changed)
                  (Hoff c ltac:(by left) Hf)) as Hv.
    unfold Accept. cbn [parent].
    destruct (VisitAll host (visit_order c) _) as [[[]|e|] st'];
      cbn [snd] in Hv; subst st'; cbn [parent changed_ fst snd]; [|done..].
    destruct (RunComputations host cs changed) as [r cs']. cbn [fst snd] in *.
    by subst.
Qed.

(** X18.  [Run] leaves alone a module that has nothing in host memory: when
    no instruction of its non-fusion computations has a layout in the host
    memory space, the module comes back as it went in, whatever the
    outcome, and a successful run reports no change. *)
Theorem Run_without_host_memory host module :
  (∀ c, c ∈ computations module → IsFusionComputation c = false →
        nothing_in host c) →
  (Run host module).2 = module ∧
  ∀ changed, (Run host module).1 = Ok changed → changed = false.
Proof.
  intros Hoff. unfold Run.
  destruct (RunComputations_off_host host (computations module) false Hoff)
    as [Hcs Hb].
  destruct (RunComputations host (computations module) false) as [r cs'].
  cbn [fst snd] in *. subst cs'. by destruct module.
Qed.

(** ** More on the autotune selector *)

Lemma first_least_lower_bound {A} (key : A → Z) best (l : list A) :
  first_least key best l → best ∈ l ∧ ∀ x, x ∈ l → key best ≤ key x.
Proof.
  intros (before & after & -> & Hb & Ha). split.
  - apply elem_of_app. right. by left.
  - intros x [Hx|[->|Hx]%elem_of_cons]%elem_of_app; [|lia|].
    + rewrite Forall_forall in Hb. specialize (Hb x Hx). lia.
    + rewrite Forall_forall in Ha. by apply Ha.
Qed.

Lemma KeepNonFailures_Permutation results1 results2 :
  results1 ≡ₚ results2 → KeepNonFailures results1 ≡ₚ KeepNonFailures results2.
Proof.
  intros Hp. unfold KeepNonFailures. rewrite !c_copy_if_filter. by rewrite Hp.
Qed.

Lemma is_min_time_unique l1 l2 t1 t2 :
  l1 ≡ₚ l2 → is_min_time l1 t1 → is_min_time l2 t2 → t1 = t2.
Proof.
  intros Hp [(r1 & Hr1 & <-) Hall1] [(r2 & Hr2 & <-) Hall2].
  rewrite Forall_forall in Hall1, Hall2.
  assert (dur r1 ≤ dur r2) by (apply Hall1; by rewrite Hp).
  assert (dur r2 ≤ dur r1) by (apply Hall2; by rewrite <- Hp).
  lia.
Qed.

Section SelectorFacts.

(** X19.  Whatever [PickBestResult] returns is an entry of the input that
    has no failure or failed with WRONG_RESULT: an entry that failed in any
    other way is never selected. *)
Theorem PickBestResult_never_picks_other_failure `{StdSort}
    det results instr_str config best :
  PickBestResult det results instr_str config = Ok best →
  best ∈ results ∧ ¬ fails_otherwise best.
Proof.
  intros Hpick.
  destruct (KeepNonFailures results) as [|k kept] eqn:Hkept.
  { unfold PickBestResult in Hpick. destruct results; [done|].
    by rewrite Hkept in Hpick. }
  destruct (PickBestResult_kept det results instr_str config)
    as (best' & Hpick' & Hin); [by rewrite Hkept|].
  assert (best' = best) as -> by congruence.
  apply elem_of_KeepNonFailures in Hin as [Hkeep Hin]. split; [done|].
  rewrite <- keep_result_false. by rewrite Hkeep.
Qed.

(** X20.  Without determinism, the scratch size of the selected entry does
    not depend on the order of the candidates nor on how [std::sort] orders
    entries of equal run time, and two such selections differ in run time
    by at most the 2 microseconds of measurement error. *)
Theorem PickBestResult_independent_of_order (sort1 sort2 : StdSort)
    results1 results2 instr_str1 instr_str2 config best1 best2 :
  results1 ≡ₚ results2 →
  RequireDeterminism false config = false →
  @PickBestResult sort1 false results1 instr_str1 config = Ok best1 →
  @PickBestResult sort2 false results2 instr_str2 config = Ok best2 →
  scratch_bytes best1 = scratch_bytes best2 ∧
  Z.abs (dur best1 - dur best2) ≤ Microseconds 2.
Proof.
  intros Hperm Hdet Hpick1 Hpick2.
  assert (Hne : ∀ (S : StdSort) results i b,
            @PickBestResult S false results i config = Ok b →
            KeepNonFailures results ≠ []).
  { intros S results i b Hp Hnil. unfold PickBestResult in Hp.
    destruct results; [done|]. by rewrite Hnil in Hp. }
  destruct (@PickBestResult_sorted_window sort1 results1 instr_str1 config Hdet
              (Hne _ _ _ _ Hpick1))
    as (t1 & b1 & Hp1 & _ & Hmin1 & Hleast1 & Hb1).
  destruct (@PickBestResult_sorted_window sort2 results2 instr_str2 config Hdet
              (Hne _ _ _ _ Hpick2))
    as (t2 & b2 & Hp2 & _ & Hmin2 & Hleast2 & Hb2).
  cbn zeta in *.
  assert (b1 = best1) as -> by congruence.
  assert (b2 = best2) as -> by congruence.
  pose proof (KeepNonFailures_Permutation _ _ Hperm) as Hkp.
  assert (t1 = t2) as <- by (eapply is_min_time_unique; eauto).
  apply first_least_lower_bound in Hleast1 as [Hin1 Hlow1].
  apply first_least_lower_bound in Hleast2 as [Hin2 Hlow2].
  assert (Hsame : ∀ x,
            x ∈ within_window t1 (@SortAutotuningResultsByRunTime sort1
                                    (KeepNonFailures results1)) ↔
            x ∈ within_window t1 (@SortAutotuningResultsByRunTime sort2
                                    (KeepNonFailures results2))).
  { intros x. unfold within_window. rewrite !list_elem_of_filter.
    by rewrite Hp1, Hp2, Hkp. }
  split.
  - pose proof (Hlow1 best2 (proj2 (Hsame _) Hin2)).
    pose proof (Hlow2 best1 (proj1 (Hsame _) Hin1)). lia.
  - destruct Hmin1 as [_ Hall1]. rewrite Forall_forall in Hall1.
    unfold within_window in Hin1, Hin2.
    apply list_elem_of_filter in Hin1 as [Hd1 Hi1].
    apply list_elem_of_filter in Hin2 as [Hd2 Hi2].
    rewrite Hp1 in Hi1. rewrite Hp2, <- Hkp in Hi2.
    pose proof (Hall1 _ Hi1). pose proof (Hall1 _ Hi2).
    unfold Microseconds in *. lia.
Qed.

End SelectorFacts.

(** ** More on the mutex registry *)

Lemma emplace_dom key reg :
  dom (mutexes (emplace key reg).2) = {[key]} ∪ dom (mutexes reg).
Proof.
  unfold emplace. destruct (mutexes reg !! key) as [m|] eqn:E; cbn.
  - assert (key ∈ dom (mutexes reg)) by (apply elem_of_dom; eauto). set_solver.
  - by rewrite dom_insert_L.
Qed.

Lemma emplace_node_count key reg :
  next_node reg = size (mutexes reg) →
  next_node (emplace key reg).2 = size (mutexes (emplace key reg).2).
Proof.
  intros Hn. unfold emplace. destruct (mutexes reg !! key) as [m|] eqn:E; cbn.
  - done.
  - rewrite map_size_insert_None by done. by rewrite Hn.
Qed.

Lemma after_calls_dom calls reg :
  next_node reg = size (mutexes reg) →
  dom (mutexes (after_calls calls reg))
  = dom (mutexes reg) ∪ list_to_set (device_key <$> calls) ∧
  next_node (after_calls calls reg) = size (mutexes (after_calls calls reg)).
Proof.
  revert reg. induction calls as [|e calls IH]; intros reg Hn.
  - cbn. split; [set_solver | done].
  - cbn [after_calls fold_left]. fold (after_calls calls (GetGpuMutex e reg).2).
    destruct (IH (GetGpuMutex e reg).2) as [Hd Hs].
    { by apply emplace_node_count. }
    split; [|done]. rewrite Hd. unfold GetGpuMutex at 1. rewrite emplace_dom.
    cbn [fmap list_fmap list_to_set]. fold (device_key e). set_solver.
Qed.

(** X21.  After any series of calls from the start of the process the
    registry holds an entry for exactly the (platform, device ordinal)
    pairs that were looked up, and as many mutexes were created as there
    are entries: a lookup of a known pair creates nothing. *)
Theorem GetGpuMutex_one_mutex_per_pair (calls : list StreamExecutor) :
  let reg := after_calls calls empty_registry in
  dom (mutexes reg) = list_to_set (device_key <$> calls) ∧
  next_node reg = size (mutexes reg) ∧
  ∀ e, device_key e ∈ dom (mutexes reg) → (GetGpuMutex e reg).2 = reg.
Proof.
  cbn zeta. destruct (after_calls_dom calls empty_registry) as [Hd Hs]; [done|].
  split; [rewrite Hd; cbn; set_solver|]. split; [done|].
  intros e [m Hm]%elem_of_dom. unfold GetGpuMutex, emplace.
  fold (device_key e). by rewrite Hm.
Qed.

(** ** Dense attributes of StableHLO operations *)

Section DenseAttributes.
Import MlirToHlo.

Context {Attribute : Type}.
Variable as_dense_i64_array : Attribute → option (list Z).
Variable as_dense_int_elements : Attribute → option (list Z).
Variable make_dense_int_elements : list Z → Attribute.
Variable make_dense_i64_array : list Z → Attribute.

Abbreviation ToElements :=
  (ArrayToElements Attribute as_dense_i64_array make_dense_int_elements).
Abbreviation ToArray :=
  (ElementsToArray Attribute as_dense_int_elements make_dense_i64_array).
Abbreviation Downgrade :=
  (DowngradeStablehlo Attribute as_dense_i64_array make_dense_int_elements).
Abbreviation Upgrade :=
  (UpgradeStablehlo Attribute as_dense_int_elements make_dense_i64_array).

Lemma Convert_as_convert_attrs op_name (attrs : gmap string Attribute)
    (convert : Attribute → Attribute) :
  ConvertStablehloDenseAttributes Attribute op_name attrs convert
  = convert_attrs convert (converted_names op_name) attrs.
Proof.
  destruct op_name; cbn; try done;
    by destruct (convert_attr _ _ _ _) as [a| |];
       cbn; try destruct (convert_attr _ _ _ _) as [a'| |]; cbn;
       try destruct (convert_attr _ _ _ _).
Qed.

Lemma converted_names_NoDup op_name : NoDup (converted_names op_name).
Proof. destruct op_name; compute_done. Qed.

Lemma convert_attrs_spec (convert : Attribute → Attribute) names
    (attrs : gmap string Attribute) :
  NoDup names →
  match convert_attrs convert names attrs with
  | Ok attrs' =>
      (∀ name, name ∈ names → attrs' !! name = convert <$> attrs !! name) ∧
      (∀ name, name ∉ names → attrs' !! name = attrs !! name) ∧
      (∀ name, name ∈ names → is_Some (attrs !! name))
  | Err _ => False
  | Crash => ∃ name, name ∈ names ∧ attrs !! name = None
  end.
Proof.
  revert attrs. induction names as [|n names IH]; intros attrs Hnd.
  { cbn. split; [|split]; [intros ? []%elem_of_nil | done
                          | intros ? []%elem_of_nil]. }
  apply NoDup_cons in Hnd as [Hn Hnd]. cbn [convert_attrs].
  unfold convert_attr at 1. destruct (attrs !! n) as [a|] eqn:Ha; cbn.
  2:{ exists n. split; [by left | done]. }
  specialize (IH (<[n := convert a]> attrs) Hnd).
  destruct (convert_attrs convert names _) as [attrs'| |]; [|done|].
  - destruct IH as (Hin & Hout & Hsome). split; [|split].
    + intros name [->|Hname]%elem_of_cons.
      * by rewrite Hout, lookup_insert_eq, Ha by done.
      * rewrite Hin by done. rewrite lookup_insert_ne; [done|].
        intros ->. done.
    + intros name Hname. apply not_elem_of_cons in Hname as [Hne Hname].
      rewrite Hout by done. by rewrite lookup_insert_ne.
    + intros name [->|Hname]%elem_of_cons; [eauto|].
      specialize (Hsome name Hname). rewrite lookup_insert_ne in Hsome; [done|].
      intros ->. done.
  - destruct IH as (name & Hname & Hnone). exists name. split; [by right|].
    rewrite lookup_insert_ne in Hnone; [done|]. intros ->. done.
Qed.

(** X22.  [ConvertStablehloDenseAttributes] replaces each attribute it lists
    for the operation by its conversion and leaves every other attribute,
    and every attribute of any other operation, as it was; it never returns
    an error, and it leaves defined behaviour exactly when one of the
    listed attributes is missing. *)
Theorem ConvertStablehloDenseAttributes_touches_listed_only
    op_name attrs convert :
  match ConvertStablehloDenseAttributes Attribute op_name attrs convert with
  | Ok attrs' =>
      (∀ name, name ∈ converted_names op_name →
               attrs' !! name = convert <$> attrs !! name) ∧
      (∀ name, name ∉ converted_names op_name →
               attrs' !! name = attrs !! name) ∧
      (∀ name, name ∈ converted_names op_name → is_Some (attrs !! name))
  | Err _ => False
  | Crash => ∃ name, name ∈ converted_names op_name ∧ attrs !! name = None
  end.
Proof using Type.
  rewrite Convert_as_convert_attrs.
  apply convert_attrs_spec, converted_names_NoDup.
Qed.

Lemma convert_attrs_round_trip (f g : Attribute → Attribute) names
    (attrs : gmap string Attribute) :
  NoDup names →
  (∀ name, name ∈ names →
           ∃ attr, attrs !! name = Some attr ∧ g (f attr) = attr) →
  ∃ attrs1, convert_attrs f names attrs = Ok attrs1 ∧
            convert_attrs g names attrs1 = Ok attrs.
Proof using Type.
  intros Hnd Hall.
  pose proof (convert_attrs_spec f names attrs Hnd) as H1.
  destruct (convert_attrs f names attrs) as [attrs1| |]; [|done|].
  2:{ destruct H1 as (name & Hname & Hnone).
      destruct (Hall name Hname) as (a & Ha & _). congruence. }
  destruct H1 as (Hin1 & Hout1 & _). exists attrs1. split; [done|].
  pose proof (convert_attrs_spec g names attrs1 Hnd) as H2.
  destruct (convert_attrs g names attrs1) as [attrs2| |]; [|done|].
  2:{ destruct H2 as (name & Hname & Hnone).
      destruct (Hall name Hname) as (a & Ha & _).
      rewrite Hin1, Ha in Hnone by done. done. }
  destruct H2 as (Hin2 & Hout2 & _). f_equal. apply map_eq. intros name.
  destruct (decide (name ∈ names)) as [Hname|Hname].
  - destruct (Hall name Hname) as (a & Ha & Hgf).
    rewrite Hin2, Hin1, Ha by done. cbn. by rewrite Hgf.
  - by rewrite Hout2, Hout1 by done.
Qed.

Lemma Operation_nested_ind (P : Operation Attribute → Prop) :
  (∀ op_name attrs nested,
     Forall P nested → P (MkOperation Attribute op_name attrs nested)) →
  ∀ op, P op.
Proof using Type.
  intros H. fix IH 1. intros [op_name attrs nested]. apply H.
  induction nested as [|op nested IHn]; constructor; [apply IH | exact IHn].
Qed.

Lemma walk_unfold callback op_name attrs nested :
  walk Attribute callback (MkOperation Attribute op_name attrs nested)
  = (nested' ← walk_list callback nested;
     attrs' ← callback op_name attrs;
     Ok (MkOperation Attribute op_name attrs' nested')).
Proof using Type.
  cbn [walk]. f_equal.
  induction nested as [|op nested IH]; [done|]. cbn [walk_list]. by rewrite IH.
Qed.

Lemma all_operations_unfold P op_name attrs nested :
  all_operations P (MkOperation Attribute op_name attrs nested)
  ↔ P op_name attrs ∧ Forall (all_operations P) nested.
Proof using Type.
  cbn [all_operations].
  assert ((fix all_nested (ops : list (Operation Attribute)) : Prop :=
             match ops with
             | [] => True
             | op :: ops => all_operations P op ∧ all_nested ops
             end) nested ↔ Forall (all_operations P) nested) as ->; [|done].
  induction nested as [|op nested IH]; [by split; [constructor|]|].
  rewrite Forall_cons, IH. done.
Qed.

Lemma walk_round_trip (f g : Attribute → Attribute) op :
  all_operations (converted_attrs_are (λ attr, g (f attr) = attr)) op →
  ∃ op1,
    walk Attribute
      (λ n a, ConvertStablehloDenseAttributes Attribute n a f) op = Ok op1 ∧
    walk Attribute
      (λ n a, ConvertStablehloDenseAttributes Attribute n a g) op1 = Ok op.
Proof using Type.
  induction op as [op_name attrs nested IH] using Operation_nested_ind.
  rewrite all_operations_unfold. intros [Hop Hnested].
  assert (Hlist : ∃ nested1,
            walk_list (λ n a, ConvertStablehloDenseAttributes Attribute n a f)
                      nested = Ok nested1 ∧
            walk_list (λ n a, ConvertStablehloDenseAttributes Attribute n a g)
                      nested1 = Ok nested).
  { clear Hop. induction nested as [|op nested IHn]; [by exists []|].
    apply Forall_cons in IH as [IHop IHrest].
    apply Forall_cons in Hnested as [Hop Hrest].
    destruct (IHop Hop) as (op1 & Hd & Hu).
    destruct (IHn IHrest Hrest) as (nested1 & Hdn & Hun).
    exists (op1 :: nested1). cbn [walk_list].
    rewrite Hd. cbn. rewrite Hdn. cbn. rewrite Hu. cbn. by rewrite Hun. }
  destruct Hlist as (nested1 & Hdn & Hun).
  destruct (convert_attrs_round_trip f g (converted_names op_name) attrs
              (converted_names_NoDup op_name) Hop) as (attrs1 & Hda & Hua).
  exists (MkOperation Attribute op_name attrs1 nested1).
  rewrite !walk_unfold, Hdn, Hun. cbn.
  rewrite !Convert_as_convert_attrs, Hda, Hua. done.
Qed.

Section RoundTrip.

Hypothesis elements_of_values :
  ∀ values,
    as_dense_int_elements (make_dense_int_elements values) = Some values.
Hypothesis array_of_its_values :
  ∀ attr values,
    as_dense_i64_array attr = Some values →
    make_dense_i64_array values = attr.

(** X23.  Downgrade then upgrade is the identity.  When a dense element
    attribute made from values reads back as those values and a dense array
    attribute is determined by its values, a module in which every
    converted attribute is present and is not a dense element attribute to
    begin with is downgraded without incident, and upgrading the result
    gives the module back. *)
Theorem Downgrade_then_Upgrade module :
  all_operations
    (converted_attrs_are (λ attr, as_dense_int_elements attr = None)) module →
  ∃ downgraded,
    Downgrade module = Ok downgraded ∧ Upgrade downgraded = Ok module.
Proof using elements_of_values array_of_its_values.
  intros Hall. apply walk_round_trip.
  revert Hall. induction module as [op_name attrs nested IH]
    using Operation_nested_ind.
  rewrite !all_operations_unfold. intros [Hop Hnested]. split.
  - intros name Hname. destruct (Hop name Hname) as (attr & Hattr & Hnone).
    exists attr. split; [done|]. unfold ElementsToArray, ArrayToElements.
    destruct (as_dense_i64_array attr) as [values|] eqn:Harr.
    + rewrite elements_of_values. by apply array_of_its_values.
    + by rewrite Hnone.
  - rewrite Forall_forall in IH, Hnested |- *.
    intros op Hop'. by apply IH, Hnested.
Qed.

End RoundTrip.

End DenseAttributes.

(** ** Worked inputs *)

Lemma InitializeTypedBuffer_fills_cyclically_witness :
  ∃ copies rng_state',
    BufferInit.InitializeTypedBuffer 4 40 10067 = Some (Ok (copies, rng_state')) ∧
    ∀ dev j,
      apply_memcpys 4 copies dev j =
        if bool_decide (0 ≤ j < 40 `div` 4)
        then Some ((10067 + j) `mod` BufferInit.host_buffer_size)
        else dev j.
Proof.
  apply (InitializeTypedBuffer_fills_cyclically 4 40 10067).
  - lia.
  - lia.
  - reflexivity.
  - unfold BufferInit.host_buffer_size. lia.
Defined.

Lemma InitializeTypedBuffer_copies_in_bounds_witness :
  ∃ copies rng_state',
    BufferInit.InitializeTypedBuffer 2 30000 10000
    = Some (Ok (copies, rng_state')) ∧
    Forall (memcpy_in_bounds 2 30000) copies.
Proof.
  apply (InitializeTypedBuffer_copies_in_bounds 2 30000 10000).
  - lia.
  - lia.
  - reflexivity.
  - unfold BufferInit.host_buffer_size. lia.
Defined.

Lemma InitializeTypedBuffer_advances_rng_state_witness :
  ∃ copies rng_state',
    BufferInit.InitializeTypedBuffer 8 80 10069
    = Some (Ok (copies, rng_state')) ∧
    0 ≤ rng_state' ≤ BufferInit.host_buffer_size ∧
    rng_state' `mod` BufferInit.host_buffer_size
    = (10069 + 80 `div` 8) `mod` BufferInit.host_buffer_size ∧
    (80 = 0 → rng_state' = 10069 ∧ copies = []) ∧
    (80 > 0 → 0 < rng_state').
Proof.
  apply (InitializeTypedBuffer_advances_rng_state 8 80 10069).
  - lia.
  - lia.
  - reflexivity.
  - unfold BufferInit.host_buffer_size. lia.
Defined.

Lemma InitializeTypedBuffer_check_failures_witness :
  BufferInit.InitializeTypedBuffer 4 6 0 = Some Crash ∧
  BufferInit.InitializeTypedBuffer 4 8 (-1) = Some Crash.
Proof.
  split.
  - refine (proj1 (InitializeTypedBuffer_check_failures 4 6 0 _ _) _);
      [lia | lia | done].
  - refine (proj2 (InitializeTypedBuffer_check_failures 4 8 (-1) _ _) _ _ _ _);
      first [reflexivity | lia].
Defined.

Lemma Run_keeps_other_instructions_witness :
  ∃ c', computations (Run kHostMemorySpace copy_module).2 !! 0%nat = Some c' ∧
        instructions_kept copy_computation c'.
Proof.
  apply (Run_keeps_other_instructions kHostMemorySpace copy_module 0
           copy_computation).
  reflexivity.
Defined.

Lemma Run_keeps_root_shape_witness :
  ∃ c',
    computations
      (Run kHostMemorySpace (MkModule [host_slice_computation])).2 !! 0%nat
    = Some c' ∧
    root_shape c' = root_shape host_slice_computation.
Proof.
  apply (Run_keeps_root_shape kHostMemorySpace
           (MkModule [host_slice_computation]) 0 host_slice_computation).
  - reflexivity.
  - by eexists.
Defined.

Lemma Run_changed_flag_exact_witness :
  true = false ↔ MkModule [copy_computation_after] = copy_module.
Proof.
  apply (Run_changed_flag_exact kHostMemorySpace copy_module true
           (MkModule [copy_computation_after])).
  reflexivity.
Defined.

Lemma Run_keeps_well_formed_witness :
  match Run kHostMemorySpace (MkModule [host_update_computation]) with
  | (Ok _, module') => well_formed_module module' = true
  | (Err s, _) => code s = kInternal
  | (Crash, _) => False
  end.
Proof.
  apply (Run_keeps_well_formed kHostMemorySpace
           (MkModule [host_update_computation])).
  reflexivity.
Defined.

Lemma HandleDynamicSlice_from_host_to_device_witness :
  let st := MkVisitor host_slice_computation false in
  HandleDynamicSlice kHostMemorySpace 2 st
  = (Ok (),
     MkVisitor
       (parent (CreateAsyncInstructions 2
                  [MakeScalarShape U32; MakeScalarShape S32] st).2)
       true).
Proof.
  intros st.
  apply (HandleDynamicSlice_from_host_to_device kHostMemorySpace st 2
           (MkInstr "slice" kDynamicSlice (f32_in kDefaultMemorySpace)
              [0%nat; 1%nat])
           0%nat (MkInstr "x" kParameter (f32_in kHostMemorySpace) [])
           kHostMemorySpace kDefaultMemorySpace);
    try reflexivity.
  by split.
Defined.

Lemma HandleDynamicUpdateSlice_from_device_to_host_witness :
  let st := MkVisitor host_update_computation false in
  HandleDynamicUpdateSlice kHostMemorySpace 3 st
  = (Ok (),
     MkVisitor
       (parent (CreateAsyncInstructions 3 [MakeScalarShape U32] st).2)
       true).
Proof.
  intros st.
  apply (HandleDynamicUpdateSlice_from_device_to_host kHostMemorySpace st 3
           (MkInstr "dus" kDynamicUpdateSlice (f32_in kHostMemorySpace)
              [0%nat; 1%nat; 2%nat])
           0%nat (MkInstr "buf" kParameter (f32_in kHostMemorySpace) [])
           1%nat (MkInstr "upd" kParameter (f32_in kDefaultMemorySpace) [])
           kDefaultMemorySpace kHostMemorySpace kHostMemorySpace);
    try reflexivity.
  by repeat split.
Defined.

Lemma PickBestResult_never_picks_other_failure_witness :
  MkAutotuneResult 3 (usec_proto 11000) 5 None ∈ example_results ∧
  ¬ fails_otherwise (MkAutotuneResult 3 (usec_proto 11000) 5 None).
Proof.
  apply (PickBestResult_never_picks_other_failure (H := merge_StdSort)
           false example_results None (MkConfig false)).
  reflexivity.
Defined.

Lemma PickBestResult_independent_of_order_witness :
  let best := MkAutotuneResult 3 (usec_proto 11000) 5 None in
  scratch_bytes best = scratch_bytes best ∧
  Z.abs (dur best - dur best) ≤ Microseconds 2.
Proof.
  intros best.
  apply (PickBestResult_independent_of_order merge_StdSort merge_StdSort
           example_results (reverse example_results) None None
           (MkConfig false) best best).
  - by rewrite reverse_Permutation.
  - reflexivity.
  - reflexivity.
  - reflexivity.
Defined.

Lemma Downgrade_then_Upgrade_witness :
  ∃ downgraded,
    MlirToHlo.DowngradeStablehlo SampleAttribute sample_as_array SampleElements
      sample_module = Ok downgraded ∧
    MlirToHlo.UpgradeStablehlo SampleAttribute sample_as_elements SampleArray
      downgraded = Ok sample_module.
Proof.
  apply (Downgrade_then_Upgrade sample_as_array sample_as_elements
           SampleElements SampleArray).
  - done.
  - by intros [v|v|t] values' [= ->].
  - cbn. repeat split.
    + intros name Hname. by apply elem_of_nil in Hname.
    + intros name Hname. apply list_elem_of_singleton in Hname as ->.
      by eexists.
    + intros name Hname.
      repeat (apply elem_of_cons in Hname as [->|Hname]; [by eexists|]).
      by apply elem_of_nil in Hname.
Defined.

Lemma Run_without_host_memory_witness :
  (Run kHostMemorySpace (MkModule [device_computation])).2
  = MkModule [device_computation] ∧
  ∀ changed,
    (Run kHostMemorySpace (MkModule [device_computation])).1 = Ok changed →
    changed = false.
Proof.
  apply (Run_without_host_memory kHostMemorySpace
           (MkModule [device_computation])).
  intros c Hc%list_elem_of_singleton _. subst c. intros j instr l Hj Hl.
  do 4 (destruct j as [|j];
        [cbn in Hj; simplify_eq; cbn in Hl; by simplify_eq|]).
  done.
Defined.
